(** * be-base / errors: a shallow embedding of [errors/errors.go]

    The package defines one structured error value ([Error]), constructors
    for it, a JSON text form ([Error.Error] / [Parse]), comparison and
    classification predicates, wrapping operations and a fluent builder.

    Go strings are byte sequences; they are embedded as [string] (a list of
    8-bit [ascii] characters).  Integers are embedded as [Z]; the range of an
    [int32] is carried by the predicate [int32] where it matters.

    The package calls into the Go standard library: [encoding/json] (and
    through it [unicode/utf8], [unicode/utf16] and [strconv]), [net/http]
    and [fmt].  The parts it reaches are embedded first, each in a module
    named after its package, following the library's own code.  Of [fmt]
    the verbs [v], [s], [d] and [t] are embedded, which are the ones the
    package writes itself; [WithDetailf] hands a format of its caller to
    [fmt.Sprintf], and on a format with anything else the embedding gives
    no result rather than a guess. *)

From Stdlib Require Import ZArith Zbitwise Lia Bool List Ascii String.
Import ListNotations.

#[local] Set Warnings "-register-all,-abstract-large-number".

Local Open Scope string_scope.
Local Open Scope Z_scope.

(* ================================================================== *)
(** * Bytes and strings *)

(** The numeric value of a byte, and the byte with a given value. *)
Definition byte (c : ascii) : Z := Z.of_N (N_of_ascii c).
Definition chr (z : Z) : ascii := ascii_of_N (Z.to_N z).

(** [s[n:]] and [s[:n]]. *)
Fixpoint drop (n : nat) (s : string) : string :=
  match n, s with
  | O, _ => s
  | S _, EmptyString => EmptyString
  | S n', String _ s' => drop n' s'
  end.

Fixpoint take (n : nat) (s : string) : string :=
  match n, s with
  | O, _ => EmptyString
  | S _, EmptyString => EmptyString
  | S n', String c s' => String c (take n' s')
  end.

Definition int32 (z : Z) : Prop := - 2 ^ 31 <= z < 2 ^ 31.
Definition int32b (z : Z) : bool := (- 2 ^ 31 <=? z) && (z <? 2 ^ 31).
Definition int64b (z : Z) : bool := (- 2 ^ 63 <=? z) && (z <? 2 ^ 63).

(** The struct of the package, declared here because the JSON encoder and
    decoder below are the ones reflection derives for this type.

<<
type Error struct {
	Id     string `json:"id"`
	Code   int32  `json:"code"`
	Detail string `json:"detail"`
	Status string `json:"status"`
}
>> *)
Record Error := mkError {
  Id : string;
  Code : Z;
  Detail : string;
  Status : string
}.

(* ================================================================== *)
(** * unicode/utf8 *)

Module utf8.

Definition RuneError : Z := 0xFFFD.
Definition MaxRune : Z := 0x10FFFF.
Definition RuneSelf : Z := 0x80.
Definition UTFMax : nat := 4.

Definition surrogateMin : Z := 0xD800.
Definition surrogateMax : Z := 0xDFFF.

Definition t1 : Z := 0x00.
Definition tx : Z := 0x80.
Definition t2 : Z := 0xC0.
Definition t3 : Z := 0xE0.
Definition t4 : Z := 0xF0.
Definition t5 : Z := 0xF8.

Definition maskx : Z := 0x3F.
Definition mask2 : Z := 0x1F.
Definition mask3 : Z := 0x0F.
Definition mask4 : Z := 0x07.

Definition rune1Max : Z := 0x7F.
Definition rune2Max : Z := 0x7FF.
Definition rune3Max : Z := 0xFFFF.

Definition locb : Z := 0x80.
Definition hicb : Z := 0xBF.

(** Entries of the [first] table: the low three bits are the length of
    the sequence, the high four bits index [acceptRanges]. *)
Definition xx : Z := 0xF1.
Definition as_ : Z := 0xF0.
Definition s1 : Z := 0x02.
Definition s2 : Z := 0x13.
Definition s3 : Z := 0x03.
Definition s4 : Z := 0x23.
Definition s5 : Z := 0x34.
Definition s6 : Z := 0x04.
Definition s7 : Z := 0x44.

(** [first[b]]: information about the first byte of a sequence. *)
Definition first (b : Z) : Z :=
  if b <? 0x80 then as_
  else if b <? 0xC2 then xx
  else if b <? 0xE0 then s1
  else if b =? 0xE0 then s2
  else if b <? 0xED then s3
  else if b =? 0xED then s4
  else if b <? 0xF0 then s3
  else if b =? 0xF0 then s5
  else if b <? 0xF4 then s6
  else if b =? 0xF4 then s7
  else xx.

Record acceptRange := { lo : Z; hi : Z }.

Definition acceptRanges (i : Z) : acceptRange :=
  if i =? 0 then {| lo := locb; hi := hicb |}
  else if i =? 1 then {| lo := 0xA0; hi := hicb |}
  else if i =? 2 then {| lo := locb; hi := 0x9F |}
  else if i =? 3 then {| lo := 0x90; hi := hicb |}
  else if i =? 4 then {| lo := locb; hi := 0x8F |}
  else {| lo := 0; hi := 0 |}.

(** [DecodeRuneInString]: the first rune of [s] and its width in bytes.
    An invalid encoding gives [(RuneError, 1)], the empty string
    [(RuneError, 0)]. *)
Definition DecodeRuneInString (s : string) : Z * nat :=
  match s with
  | EmptyString => (RuneError, 0%nat)
  | String c0 r0 =>
    let b0 := byte c0 in
    let x := first b0 in
    if as_ <=? x then
      (* mask := rune(x) << 31 >> 31: all ones for [xx], zero for [as] *)
      ((if Z.testbit x 0 then RuneError else b0), 1%nat)
    else
      let sz := Z.land x 7 in
      let accept := acceptRanges (Z.shiftr x 4) in
      if Z.of_nat (String.length s) <? sz then (RuneError, 1%nat)
      else
        match r0 with
        | EmptyString => (RuneError, 1%nat)
        | String c1 r1 =>
          let b1 := byte c1 in
          if (b1 <? lo accept) || (hi accept <? b1) then (RuneError, 1%nat)
          else if sz <=? 2 then
            (Z.lor (Z.shiftl (Z.land b0 mask2) 6) (Z.land b1 maskx), 2%nat)
          else
            match r1 with
            | EmptyString => (RuneError, 1%nat)
            | String c2 r2 =>
              let b2 := byte c2 in
              if (b2 <? locb) || (hicb <? b2) then (RuneError, 1%nat)
              else if sz <=? 3 then
                (Z.lor (Z.lor (Z.shiftl (Z.land b0 mask3) 12)
                              (Z.shiftl (Z.land b1 maskx) 6))
                       (Z.land b2 maskx), 3%nat)
              else
                match r2 with
                | EmptyString => (RuneError, 1%nat)
                | String c3 _ =>
                  let b3 := byte c3 in
                  if (b3 <? locb) || (hicb <? b3) then (RuneError, 1%nat)
                  else
                    (Z.lor (Z.lor (Z.lor (Z.shiftl (Z.land b0 mask4) 18)
                                         (Z.shiftl (Z.land b1 maskx) 12))
                                  (Z.shiftl (Z.land b2 maskx) 6))
                           (Z.land b3 maskx), 4%nat)
                end
            end
        end
  end.

(** The conversion [byte(x)] of an integer: its low eight bits. *)
Definition to_byte (x : Z) : Z := Z.land x 0xFF.

Definition encode3 (r : Z) : string :=
  String (chr (Z.lor t3 (to_byte (Z.shiftr r 12))))
 (String (chr (Z.lor tx (Z.land (to_byte (Z.shiftr r 6)) maskx)))
 (String (chr (Z.lor tx (Z.land (to_byte r) maskx))) EmptyString)).

(** [EncodeRune]: the bytes written for the rune [r]. *)
Definition EncodeRune (r : Z) : string :=
  let i := r mod 2 ^ 32 in
  if i <=? rune1Max then String (chr (to_byte r)) EmptyString
  else if i <=? rune2Max then
    String (chr (Z.lor t2 (to_byte (Z.shiftr r 6))))
   (String (chr (Z.lor tx (Z.land (to_byte r) maskx))) EmptyString)
  else if (MaxRune <? i) || ((surrogateMin <=? i) && (i <=? surrogateMax))
  then encode3 RuneError
  else if i <=? rune3Max then encode3 r
  else
    String (chr (Z.lor t4 (to_byte (Z.shiftr r 18))))
   (String (chr (Z.lor tx (Z.land (to_byte (Z.shiftr r 12)) maskx)))
   (String (chr (Z.lor tx (Z.land (to_byte (Z.shiftr r 6)) maskx)))
   (String (chr (Z.lor tx (Z.land (to_byte r) maskx))) EmptyString))).

(** [ValidString]: [s] consists entirely of valid UTF-8 encoded runes,
    that is, decoding never reports [(RuneError, 1)]. *)
Fixpoint validFrom (fuel : nat) (s : string) : bool :=
  match s with
  | EmptyString => true
  | String _ _ =>
    match fuel with
    | O => false
    | S fuel' =>
      let '(r, size) := DecodeRuneInString s in
      if (r =? RuneError) && Nat.eqb size 1 then false
      else validFrom fuel' (drop size s)
    end
  end.

Definition ValidString (s : string) : bool := validFrom (String.length s) s.

End utf8.

(* ================================================================== *)
(** * strconv *)

Module strconv.

Definition digit (d : Z) : ascii := chr (d + byte "0").

(** [formatBits] for base 10: the decimal digits of [u >= 0], most
    significant first, written in front of [acc].  The loop fills a fixed
    buffer from its end; a 64-bit value has at most twenty digits. *)
Fixpoint formatBits (fuel : nat) (u : Z) (acc : string) : string :=
  match fuel with
  | O => acc
  | S fuel' =>
    if u <? 10 then String (digit u) acc
    else formatBits fuel' (u / 10) (String (digit (u mod 10)) acc)
  end.

(** [FormatInt(i, 10)], also [Itoa] and [AppendInt(_, i, 10)]. *)
Definition FormatInt (i : Z) : string :=
  if i <? 0 then String "-" (formatBits 20 (- i) "")
  else formatBits 20 i "".

Definition isDigit (c : ascii) : bool :=
  (byte "0" <=? byte c) && (byte c <=? byte "9").

(** The loop of [ParseUint]: every byte is a decimal digit. *)
Fixpoint parseDigits (s : string) (acc : Z) : option Z :=
  match s with
  | EmptyString => Some acc
  | String c s' =>
    if isDigit c then parseDigits s' (acc * 10 + (byte c - byte "0"))
    else None
  end.

(** [ParseInt(s, 10, 64)]; [None] stands for a non-nil error, either
    [ErrSyntax] or [ErrRange]. *)
Definition ParseInt (s : string) : option Z :=
  match s with
  | EmptyString => None
  | String c s' =>
    let '(neg, ds) :=
      if Ascii.eqb c "+" then (false, s')
      else if Ascii.eqb c "-" then (true, s')
      else (false, s) in
    match ds with
    | EmptyString => None
    | _ =>
      match parseDigits ds 0 with
      | None => None
      | Some un =>
        let n := if neg then - un else un in
        if int64b n then Some n else None
      end
    end
  end.

End strconv.

(* ================================================================== *)
(** * unicode/utf16 *)

Module utf16.

Definition replacementChar : Z := 0xFFFD.
Definition surr1 : Z := 0xd800.
Definition surr2 : Z := 0xdc00.
Definition surr3 : Z := 0xe000.
Definition surrSelf : Z := 0x10000.

Definition IsSurrogate (r : Z) : bool := (surr1 <=? r) && (r <? surr3).

Definition DecodeRune (r1 r2 : Z) : Z :=
  if (surr1 <=? r1) && (r1 <? surr2) && (surr2 <=? r2) && (r2 <? surr3)
  then Z.lor (Z.shiftl (r1 - surr1) 10) (r2 - surr2) + surrSelf
  else replacementChar.

End utf16.

(* ================================================================== *)
(** * net/http *)

Module http.

(** The table behind [StatusText]. *)
Definition statusText : list (Z * string) :=
  [ (100, "Continue"); (101, "Switching Protocols"); (102, "Processing");
    (103, "Early Hints");
    (200, "OK"); (201, "Created"); (202, "Accepted");
    (203, "Non-Authoritative Information"); (204, "No Content");
    (205, "Reset Content"); (206, "Partial Content"); (207, "Multi-Status");
    (208, "Already Reported"); (226, "IM Used");
    (300, "Multiple Choices"); (301, "Moved Permanently"); (302, "Found");
    (303, "See Other"); (304, "Not Modified"); (305, "Use Proxy");
    (307, "Temporary Redirect"); (308, "Permanent Redirect");
    (400, "Bad Request"); (401, "Unauthorized"); (402, "Payment Required");
    (403, "Forbidden"); (404, "Not Found"); (405, "Method Not Allowed");
    (406, "Not Acceptable"); (407, "Proxy Authentication Required");
    (408, "Request Timeout"); (409, "Conflict"); (410, "Gone");
    (411, "Length Required"); (412, "Precondition Failed");
    (413, "Request Entity Too Large"); (414, "Request URI Too Long");
    (415, "Unsupported Media Type");
    (416, "Requested Range Not Satisfiable"); (417, "Expectation Failed");
    (418, "I'm a teapot"); (421, "Misdirected Request");
    (422, "Unprocessable Entity"); (423, "Locked");
    (424, "Failed Dependency"); (425, "Too Early");
    (426, "Upgrade Required"); (428, "Precondition Required");
    (429, "Too Many Requests"); (431, "Request Header Fields Too Large");
    (451, "Unavailable For Legal Reasons");
    (500, "Internal Server Error"); (501, "Not Implemented");
    (502, "Bad Gateway"); (503, "Service Unavailable");
    (504, "Gateway Timeout"); (505, "HTTP Version Not Supported");
    (506, "Variant Also Negotiates"); (507, "Insufficient Storage");
    (508, "Loop Detected"); (510, "Not Extended");
    (511, "Network Authentication Required") ].

Definition StatusInternalServerError : Z := 500.

(** [StatusText(code)]: the text for the code, empty when unknown. *)
Definition StatusText (code : Z) : string :=
  match find (fun kv => fst kv =? code) statusText with
  | Some kv => snd kv
  | None => ""
  end.

End http.

(* ================================================================== *)
(** * encoding/json *)

Module json.

Definition dquote : ascii := "034"%char.
Definition backslash : ascii := "092"%char.

Definition hex : string := "0123456789abcdef".

(** [hex[n]] *)
Definition hexDigit (n : Z) : ascii :=
  match String.get (Z.to_nat n) hex with
  | Some c => c
  | None => "0"%char
  end.

(** ** Encoding *)

(** [htmlSafeSet[b]]: the ASCII byte [b] is written as it is, also when
    HTML escaping is on: every byte from the space on, except the double
    quote, the backslash and the three HTML characters. *)
Definition htmlSafeSet (b : Z) : bool :=
  (0x20 <=? b) && (b <? 0x80)
  && negb (b =? byte dquote) && negb (b =? byte backslash)
  && negb (b =? byte "<") && negb (b =? byte ">") && negb (b =? byte "&").

(** What [appendString] writes for an ASCII byte outside [htmlSafeSet]. *)
Definition escapeByte (c : ascii) : string :=
  let b := byte c in
  if Ascii.eqb c backslash || Ascii.eqb c dquote then
    String backslash (String c "")
  else if b =? 8 then String backslash "b"
  else if b =? 12 then String backslash "f"
  else if b =? 10 then String backslash "n"
  else if b =? 13 then String backslash "r"
  else if b =? 9 then String backslash "t"
  else
    String backslash
      (String "u" (String "0" (String "0"
        (String (hexDigit (Z.shiftr b 4))
          (String (hexDigit (Z.land b 0xF)) ""))))).

(** The loop of [appendString(dst, src, escapeHTML = true)], without the
    surrounding quotes.  The code copies the unescaped stretches
    [src[start:i]] in one piece; here they are written byte by byte. *)
Fixpoint appendStringLoop (fuel : nat) (src : string) : string :=
  match src with
  | EmptyString => ""
  | String c rest =>
    match fuel with
    | O => ""
    | S fuel' =>
      let b := byte c in
      if b <? utf8.RuneSelf then
        if htmlSafeSet b then String c (appendStringLoop fuel' rest)
        else escapeByte c ++ appendStringLoop fuel' rest
      else
        let n := Nat.min (String.length src) utf8.UTFMax in
        let '(r, size) := utf8.DecodeRuneInString (take n src) in
        if (r =? utf8.RuneError) && Nat.eqb size 1 then
          String backslash "ufffd" ++ appendStringLoop fuel' (drop size src)
        else if (r =? 0x2028) || (r =? 0x2029) then
          String backslash "u202"
            ++ String (hexDigit (Z.land r 0xF)) ""
            ++ appendStringLoop fuel' (drop size src)
        else take size src ++ appendStringLoop fuel' (drop size src)
    end
  end.

Definition appendString (src : string) : string :=
  String dquote (appendStringLoop (String.length src) src ++ String dquote "").

(** The name of a struct field as the encoder writes it: quoted and
    followed by a colon. *)
Definition nameQuoted (name : string) : string :=
  String dquote (name ++ String dquote ":").

(** ** Scanning *)

Definition maxNestingDepth : Z := 10000.

Definition isSpace (c : ascii) : bool :=
  Ascii.eqb c " " || Ascii.eqb c "009" || Ascii.eqb c "013"
  || Ascii.eqb c "010".

Fixpoint skipSpace (s : string) : string :=
  match s with
  | EmptyString => ""
  | String c s' => if isSpace c then skipSpace s' else s
  end.

Definition isDigit (c : ascii) : bool :=
  (byte "0" <=? byte c) && (byte c <=? byte "9").

Definition isHex (c : ascii) : bool :=
  isDigit c
  || ((byte "a" <=? byte c) && (byte c <=? byte "f"))
  || ((byte "A" <=? byte c) && (byte c <=? byte "F")).

(** The one-character escapes accepted by [stateInStringEsc]. *)
Definition isEscape (c : ascii) : bool :=
  Ascii.eqb c "b" || Ascii.eqb c "f" || Ascii.eqb c "n" || Ascii.eqb c "r"
  || Ascii.eqb c "t" || Ascii.eqb c backslash || Ascii.eqb c "/"
  || Ascii.eqb c dquote.

Definition consLit {A} (pre : string) (r : option (string * A))
  : option (string * A) :=
  match r with
  | Some (lit, rest) => Some (pre ++ lit, rest)
  | None => None
  end.

(** A string literal after its opening quote ([stateInString],
    [stateInStringEsc], [stateInStringEscU...]): the text up to the closing
    quote, still escaped, and what follows the quote. *)
Fixpoint scanString (s : string) : option (string * string) :=
  match s with
  | EmptyString => None
  | String c s1 =>
    if Ascii.eqb c dquote then Some ("", s1)
    else if Ascii.eqb c backslash then
      match s1 with
      | EmptyString => None
      | String e s2 =>
        if isEscape e then
          consLit (String c (String e "")) (scanString s2)
        else if Ascii.eqb e "u" then
          match s2 with
          | String h1 (String h2 (String h3 (String h4 s3))) =>
            if isHex h1 && isHex h2 && isHex h3 && isHex h4 then
              consLit (String c (String e (String h1 (String h2
                         (String h3 (String h4 ""))))))
                      (scanString s3)
            else None
          | _ => None
          end
        else None
      end
    else if byte c <? 0x20 then None
    else consLit (String c "") (scanString s1)
  end.

(** The longest prefix of decimal digits. *)
Fixpoint spanDigits (s : string) : string * string :=
  match s with
  | EmptyString => ("", "")
  | String c s' =>
    if isDigit c then
      let '(ds, rest) := spanDigits s' in (String c ds, rest)
    else ("", s)
  end.

(** [stateE], [stateESign], [stateE0]: an optional exponent. *)
Definition scanExp (s : string) : option (string * string) :=
  match s with
  | String c s1 =>
    if Ascii.eqb c "e" || Ascii.eqb c "E" then
      let '(sign, s2) :=
        match s1 with
        | String g s2 =>
          if Ascii.eqb g "+" || Ascii.eqb g "-" then (String g "", s2)
          else ("", s1)
        | EmptyString => ("", s1)
        end in
      match spanDigits s2 with
      | (EmptyString, _) => None
      | (ds, rest) => Some (String c (sign ++ ds), rest)
      end
    else Some ("", s)
  | EmptyString => Some ("", s)
  end.

(** [stateDot], [stateDot0]: an optional fraction. *)
Definition scanFrac (s : string) : option (string * string) :=
  match s with
  | String c s1 =>
    if Ascii.eqb c "." then
      match spanDigits s1 with
      | (EmptyString, _) => None
      | (ds, rest) => Some (String c ds, rest)
      end
    else Some ("", s)
  | EmptyString => Some ("", s)
  end.

(** [state0], [state1]: the integer part, without the sign. *)
Definition scanInt (s : string) : option (string * string) :=
  match s with
  | String c s1 =>
    if Ascii.eqb c "0" then Some ("0", s1)
    else if isDigit c then
      let '(ds, rest) := spanDigits s1 in Some (String c ds, rest)
    else None
  | EmptyString => None
  end.

(** A number literal: its text and what follows it. *)
Definition scanNumber (s : string) : option (string * string) :=
  let '(sign, s1) :=
    match s with
    | String c s' => if Ascii.eqb c "-" then ("-", s') else ("", s)
    | EmptyString => ("", s)
    end in
  match scanInt s1 with
  | None => None
  | Some (ip, s2) =>
    match scanFrac s2 with
    | None => None
    | Some (fp, s3) =>
      match scanExp s3 with
      | None => None
      | Some (ep, s4) => Some (sign ++ ip ++ fp ++ ep, s4)
      end
    end
  end.

(** [s] starts with [w]: what follows [w]. *)
Fixpoint expect (w s : string) : option string :=
  match w, s with
  | EmptyString, _ => Some s
  | String a w', String b s' => if Ascii.eqb a b then expect w' s' else None
  | String _ _, EmptyString => None
  end.

(** A JSON value as the scanner delimits it.  String and number literals
    keep their source text: a string without its quotes and with its
    escapes, a number as written. *)
Inductive value :=
| Null
| Bool (b : bool)
| Number (lit : string)
| Str (lit : string)
| Array (elems : list value)
| Object (members : list (string * value)).

(** The byte [c] after optional white space: what follows it. *)
Definition token (c : ascii) (s : string) : option string :=
  match skipSpace s with
  | String c' s' => if Ascii.eqb c' c then Some s' else None
  | EmptyString => None
  end.

(** One value, then the elements of an array after [[], then the members
    of an object after [{].  [depth] is the number of arrays and objects
    already open ([len(s.parseState)]). *)
Fixpoint scanValue (fuel : nat) (depth : Z) (s : string) {struct fuel}
  : option (value * string) :=
  match fuel with
  | O => None
  | S fuel' =>
    match skipSpace s with
    | EmptyString => None
    | String c s1 =>
      if Ascii.eqb c "{" then
        if maxNestingDepth <? depth + 1 then None
        else
          match token "}" s1 with
          | Some s2 => Some (Object [], s2)
          | None =>
            match scanMembers fuel' (depth + 1) s1 with
            | Some (ms, s2) => Some (Object ms, s2)
            | None => None
            end
          end
      else if Ascii.eqb c "[" then
        if maxNestingDepth <? depth + 1 then None
        else
          match token "]" s1 with
          | Some s2 => Some (Array [], s2)
          | None =>
            match scanElements fuel' (depth + 1) s1 with
            | Some (vs, s2) => Some (Array vs, s2)
            | None => None
            end
          end
      else if Ascii.eqb c dquote then
        match scanString s1 with
        | Some (lit, s2) => Some (Str lit, s2)
        | None => None
        end
      else if Ascii.eqb c "-" || isDigit c then
        match scanNumber (String c s1) with
        | Some (lit, s2) => Some (Number lit, s2)
        | None => None
        end
      else if Ascii.eqb c "t" then
        option_map (fun s2 => (Bool true, s2)) (expect "rue" s1)
      else if Ascii.eqb c "f" then
        option_map (fun s2 => (Bool false, s2)) (expect "alse" s1)
      else if Ascii.eqb c "n" then
        option_map (fun s2 => (Null, s2)) (expect "ull" s1)
      else None
    end
  end

with scanElements (fuel : nat) (depth : Z) (s : string) {struct fuel}
  : option (list value * string) :=
  match fuel with
  | O => None
  | S fuel' =>
    match scanValue fuel' depth s with
    | None => None
    | Some (v, s1) =>
      match token "," s1 with
      | Some s2 =>
        match scanElements fuel' depth s2 with
        | Some (vs, s3) => Some (v :: vs, s3)
        | None => None
        end
      | None =>
        match token "]" s1 with
        | Some s2 => Some ([v], s2)
        | None => None
        end
      end
    end
  end

with scanMembers (fuel : nat) (depth : Z) (s : string) {struct fuel}
  : option (list (string * value) * string) :=
  match fuel with
  | O => None
  | S fuel' =>
    match token dquote s with
    | None => None
    | Some s1 =>
      match scanString s1 with
      | None => None
      | Some (key, s2) =>
        match token ":" s2 with
        | None => None
        | Some s3 =>
          match scanValue fuel' depth s3 with
          | None => None
          | Some (v, s4) =>
            match token "," s4 with
            | Some s5 =>
              match scanMembers fuel' depth s5 with
              | Some (ms, s6) => Some ((key, v) :: ms, s6)
              | None => None
              end
            | None =>
              match token "}" s4 with
              | Some s5 => Some ([(key, v)], s5)
              | None => None
              end
            end
          end
        end
      end
    end
  end.

(** [checkValid]: the whole input is one JSON value between optional
    white space.  The value found is kept for the decoder. *)
Definition scan (data : string) : option value :=
  match scanValue (S (2 * String.length data)) 0 data with
  | Some (v, rest) =>
    match skipSpace rest with
    | EmptyString => Some v
    | String _ _ => None
    end
  | None => None
  end.

(** ** Unquoting *)

Definition hexVal (c : ascii) : option Z :=
  if isDigit c then Some (byte c - byte "0")
  else if (byte "a" <=? byte c) && (byte c <=? byte "f")
  then Some (byte c - byte "a" + 10)
  else if (byte "A" <=? byte c) && (byte c <=? byte "F")
  then Some (byte c - byte "A" + 10)
  else None.

(** [getu4]: the rune of a leading [\uXXXX], [-1] when there is none. *)
Definition getu4 (s : string) : Z :=
  match s with
  | String b (String u (String h1 (String h2 (String h3 (String h4 _))))) =>
    if Ascii.eqb b backslash && Ascii.eqb u "u" then
      match hexVal h1, hexVal h2, hexVal h3, hexVal h4 with
      | Some d1, Some d2, Some d3, Some d4 =>
        ((d1 * 16 + d2) * 16 + d3) * 16 + d4
      | _, _, _, _ => -1
      end
    else -1
  | _ => -1
  end.

Definition consOpt (pre : string) (r : option string) : option string :=
  option_map (append pre) r.

(** The first loop of [unquoteBytes]: the length of the prefix that needs
    no unquoting. *)
Fixpoint plainLen (fuel : nat) (s : string) : nat :=
  match s with
  | EmptyString => 0%nat
  | String c s1 =>
    match fuel with
    | O => 0%nat
    | S fuel' =>
      if Ascii.eqb c backslash || Ascii.eqb c dquote || (byte c <? 0x20)
      then 0%nat
      else if byte c <? utf8.RuneSelf then S (plainLen fuel' s1)
      else
        let '(rr, size) := utf8.DecodeRuneInString s in
        if (rr =? utf8.RuneError) && Nat.eqb size 1 then 0%nat
        else (size + plainLen fuel' (drop size s))%nat
    end
  end.

(** The second loop of [unquoteBytes]; [None] is [ok == false]. *)
Fixpoint unquoteLoop (fuel : nat) (s : string) : option string :=
  match s with
  | EmptyString => Some ""
  | String c s1 =>
    match fuel with
    | O => None
    | S fuel' =>
      if Ascii.eqb c backslash then
        match s1 with
        | EmptyString => None
        | String e s2 =>
          if Ascii.eqb e dquote || Ascii.eqb e backslash
             || Ascii.eqb e "/" || Ascii.eqb e "'"
          then consOpt (String e "") (unquoteLoop fuel' s2)
          else if Ascii.eqb e "b"
          then consOpt (String (chr 8) "") (unquoteLoop fuel' s2)
          else if Ascii.eqb e "f"
          then consOpt (String (chr 12) "") (unquoteLoop fuel' s2)
          else if Ascii.eqb e "n"
          then consOpt (String (chr 10) "") (unquoteLoop fuel' s2)
          else if Ascii.eqb e "r"
          then consOpt (String (chr 13) "") (unquoteLoop fuel' s2)
          else if Ascii.eqb e "t"
          then consOpt (String (chr 9) "") (unquoteLoop fuel' s2)
          else if Ascii.eqb e "u" then
            let rr := getu4 s in
            if rr <? 0 then None
            else
              let s3 := drop 6 s in
              if utf16.IsSurrogate rr then
                let rr1 := getu4 s3 in
                let dec := utf16.DecodeRune rr rr1 in
                if negb (dec =? utf16.replacementChar) then
                  (* a valid pair; consume *)
                  consOpt (utf8.EncodeRune dec)
                          (unquoteLoop fuel' (drop 6 s3))
                else
                  (* invalid surrogate; fall back to replacement rune *)
                  consOpt (utf8.EncodeRune utf16.replacementChar)
                          (unquoteLoop fuel' s3)
              else consOpt (utf8.EncodeRune rr) (unquoteLoop fuel' s3)
          else None
        end
      else if Ascii.eqb c dquote || (byte c <? 0x20) then None
      else if byte c <? utf8.RuneSelf then
        consOpt (String c "") (unquoteLoop fuel' s1)
      else
        (* coerce to well-formed UTF-8 *)
        let '(rr, size) := utf8.DecodeRuneInString s in
        consOpt (utf8.EncodeRune rr) (unquoteLoop fuel' (drop size s))
    end
  end.

(** [unquoteBytes] on the text between the quotes of a literal. *)
Definition unquoteBytes (s : string) : option string :=
  let r := plainLen (String.length s) s in
  if Nat.eqb r (String.length s) then Some s
  else consOpt (take r s) (unquoteLoop (String.length s) (drop r s)).

(** ** Field names *)

(** [foldRune], restricted to what can make a name equal to a name in
    ASCII letters: of the runes outside ASCII only U+017F (long s) and
    U+212A (Kelvin sign) fold to an ASCII letter; every other rune outside
    ASCII folds to a rune outside ASCII and is left as it is here. *)
Definition foldRune (r : Z) : Z :=
  if r =? 0x17F then byte "S"
  else if r =? 0x212A then byte "K"
  else r.

Definition toUpper (c : ascii) : ascii :=
  if (byte "a" <=? byte c) && (byte c <=? byte "z")
  then chr (byte c - (byte "a" - byte "A"))
  else c.

Fixpoint appendFoldedName (fuel : nat) (s : string) : string :=
  match s with
  | EmptyString => ""
  | String c rest =>
    match fuel with
    | O => ""
    | S fuel' =>
      if byte c <? utf8.RuneSelf then
        String (toUpper c) (appendFoldedName fuel' rest)
      else
        let '(r, n) := utf8.DecodeRuneInString s in
        utf8.EncodeRune (foldRune r) ++ appendFoldedName fuel' (drop n s)
    end
  end.

Definition foldName (s : string) : string :=
  appendFoldedName (String.length s) s.

(** The fields of [Error] under their JSON names. *)
Inductive field := fId | fCode | fDetail | fStatus.

Definition fieldName (f : field) : string :=
  match f with
  | fId => "id"
  | fCode => "code"
  | fDetail => "detail"
  | fStatus => "status"
  end.

Definition fields : list field := [fId; fCode; fDetail; fStatus].

(** The field for an object key: a field of exactly that name, else one
    whose name is equal under case folding. *)
Definition lookupField (key : string) : option field :=
  match find (fun f => String.eqb (fieldName f) key) fields with
  | Some f => Some f
  | None =>
    find (fun f => String.eqb (foldName (fieldName f)) (foldName key)) fields
  end.

(** ** Decoding into [*Error] *)

Inductive error :=
| SyntaxError
| UnmarshalTypeError (Value : string) (Field : string).

(** The decoder's view of its target and the first type error met. *)
Record decodeState := mkDecode {
  target : Error;
  savedError : option error
}.

Definition saveError (err : error) (d : decodeState) : decodeState :=
  match savedError d with
  | None => mkDecode (target d) (Some err)
  | Some _ => d
  end.

Definition setString (f : field) (s : string) (e : Error) : Error :=
  match f with
  | fId => mkError s (Code e) (Detail e) (Status e)
  | fDetail => mkError (Id e) (Code e) s (Status e)
  | fStatus => mkError (Id e) (Code e) (Detail e) s
  | fCode => e
  end.

(** What [d.value] does with the value of the member of a field: a string
    for a string field and a number that is an [int32] for [Code] are
    stored, [null] is ignored, anything else is a type error and the
    field is skipped.  [None]: the decoder panics ([phasePanicMsg]). *)
Definition storeField (f : field) (v : value) (d : decodeState)
  : option decodeState :=
  let mismatch what := Some (saveError (UnmarshalTypeError what (fieldName f)) d) in
  match v with
  | Null => Some d
  | Bool _ => mismatch "bool"
  | Array _ => mismatch "array"
  | Object _ => mismatch "object"
  | Str lit =>
    match unquoteBytes lit with
    | None => None
    | Some s =>
      match f with
      | fCode => mismatch "string"
      | _ => Some (mkDecode (setString f s (target d)) (savedError d))
      end
    end
  | Number lit =>
    match f with
    | fCode =>
      match strconv.ParseInt lit with
      | Some n =>
        if int32b n then
          Some (mkDecode (mkError (Id (target d)) n (Detail (target d))
                                  (Status (target d)))
                         (savedError d))
        else mismatch ("number " ++ lit)
      | None => mismatch ("number " ++ lit)
      end
    | _ => mismatch "number"
    end
  end.

(** [d.object] on a struct: the members in order. *)
Fixpoint object (members : list (string * value)) (d : decodeState)
  : option decodeState :=
  match members with
  | [] => Some d
  | (k, v) :: rest =>
    match unquoteBytes k with
    | None => None
    | Some key =>
      match lookupField key with
      | Some f =>
        match storeField f v d with
        | Some d' => object rest d'
        | None => None
        end
      | None => object rest d
      end
    end
  end.

(** [d.value] on the struct itself. *)
Definition decode (v : value) (d : decodeState) : option decodeState :=
  match v with
  | Object members => object members d
  | Array _ => Some (saveError (UnmarshalTypeError "array" "") d)
  | Null => Some d
  | Bool _ => Some (saveError (UnmarshalTypeError "bool" "") d)
  | Number _ => Some (saveError (UnmarshalTypeError "number" "") d)
  | Str lit =>
    match unquoteBytes lit with
    | None => None
    | Some _ => Some (saveError (UnmarshalTypeError "string" "") d)
    end
  end.

(** [Unmarshal(data, e)] for a non-nil [e *Error]: the struct after the
    call and the error returned.  A syntax error is found before anything
    is stored; type errors leave the fields decoded so far. *)
Definition Unmarshal (data : string) (e : Error)
  : option (Error * option error) :=
  match scan data with
  | None => Some (e, Some SyntaxError)
  | Some v =>
    match decode v (mkDecode e None) with
    | Some d => Some (target d, savedError d)
    | None => None
    end
  end.

(** [Marshal(e)] for [e *Error]; [None] is the nil pointer.  The encoder
    of this struct has no failing case. *)
Definition Marshal (e : option Error) : string :=
  match e with
  | None => "null"
  | Some e =>
    "{" ++ nameQuoted "id" ++ appendString (Id e)
    ++ "," ++ nameQuoted "code" ++ strconv.FormatInt (Code e)
    ++ "," ++ nameQuoted "detail" ++ appendString (Detail e)
    ++ "," ++ nameQuoted "status" ++ appendString (Status e)
    ++ "}"
  end.

End json.

(* ================================================================== *)
(** * fmt *)

Module fmt.

(** An operand, a value of type [interface{}]: the nil interface, a
    string, an [int], a [bool], or a value of any other type.  A value of
    another type (an error, a float, a byte slice, a [Stringer], a struct,
    a nil pointer of some type, ...) is given by what the library reads
    off it: the name [reflect.TypeOf] gives its type, and what [printArg]
    writes for it under each verb, its bad-verb form where the verb does
    not apply.  The methods [printArg] calls on such a value ([Error],
    [String], [Format]) are taken to return and to leave the objects of
    the package alone. *)
Inductive arg :=
| Nil
| Str (s : string)
| Int (i : Z)
| Bool (b : bool)
| Other (name : string) (print : ascii -> string).

(** [reflect.TypeOf(arg).String()] *)
Definition typeName (a : arg) : string :=
  match a with
  | Nil => "<nil>"
  | Str _ => "string"
  | Int _ => "int"
  | Bool _ => "bool"
  | Other name _ => name
  end.

(** [printArg(arg, 'v')] *)
Definition printV (a : arg) : string :=
  match a with
  | Nil => "<nil>"
  | Str s => s
  | Int i => strconv.FormatInt i
  | Bool true => "true"
  | Bool false => "false"
  | Other _ print => print "v"%char
  end.

(** [badVerb]: [%!verb(type=value)], [%!verb(<nil>)] for a nil operand. *)
Definition badVerb (verb : ascii) (a : arg) : string :=
  "%!" ++ String verb "("
    ++ match a with
       | Nil => "<nil>"
       | _ => typeName a ++ "=" ++ printV a
       end
    ++ ")".

(** The verbs embedded here: [v], [s], [d] and [t]. *)
Definition isVerb (c : ascii) : bool :=
  Ascii.eqb c "v" || Ascii.eqb c "s" || Ascii.eqb c "d" || Ascii.eqb c "t".

(** [printArg(arg, verb)] for the verbs [v], [s], [d] and [t]. *)
Definition printArg (a : arg) (verb : ascii) : string :=
  match a with
  | Nil => if Ascii.eqb verb "v" then "<nil>" else badVerb verb a
  | Str s =>
    if Ascii.eqb verb "v" || Ascii.eqb verb "s" then s else badVerb verb a
  | Int i =>
    if Ascii.eqb verb "v" || Ascii.eqb verb "d" then strconv.FormatInt i
    else badVerb verb a
  | Bool _ =>
    if Ascii.eqb verb "v" || Ascii.eqb verb "t" then printV a
    else badVerb verb a
  | Other _ print => print verb
  end.

(** The operands left over when the format is used up:
    [%!(EXTRA type=value, ...)]. *)
Fixpoint extraList (a : list arg) : string :=
  match a with
  | [] => ""
  | x :: rest =>
    match x with
    | Nil => "<nil>"
    | _ => typeName x ++ "=" ++ printV x
    end
    ++ match rest with
       | [] => ""
       | _ :: _ => ", " ++ extraList rest
       end
  end.

Definition extra (a : list arg) : string :=
  match a with
  | [] => ""
  | _ :: _ => "%!(EXTRA " ++ extraList a ++ ")"
  end.

(** [doPrintf]: text is copied, [%%] writes a percent sign, a verb
    formats the next operand or reports [%!verb(MISSING)], a percent sign
    at the very end reports [%!(NOVERB)], and operands that remain at the
    end are reported by [extra].  Only the verbs [v], [s], [d] and [t]
    without flags, width, precision or argument index are embedded, which
    covers the formats the package itself writes; on any other byte after
    a percent sign the result is [None]: what the library writes then is
    not part of this development. *)
Fixpoint doPrintf (format : string) (a : list arg) : option string :=
  match format with
  | EmptyString => Some (extra a)
  | String c rest =>
    if Ascii.eqb c "%" then
      match rest with
      | EmptyString => Some ("%!(NOVERB)" ++ extra a)
      | String verb rest' =>
        if Ascii.eqb verb "%" then
          option_map (String "%") (doPrintf rest' a)
        else if isVerb verb then
          match a with
          | [] =>
            option_map (append ("%!" ++ String verb "(MISSING)"))
                       (doPrintf rest' a)
          | x :: a' => option_map (append (printArg x verb)) (doPrintf rest' a')
          end
        else None
      end
    else option_map (String c) (doPrintf rest a)
  end.

(** [Sprintf(format, a...)]; [None] when the format leaves the part of
    the package embedded here. *)
Definition Sprintf (format : string) (a : list arg) : option string :=
  doPrintf format a.

End fmt.

(* ================================================================== *)
(** * package errors *)

(** ** Memory

    [*Error] and [*ErrorBuilder] are pointers: the objects live in a heap
    and an address is an index into it.  Allocation appends; nothing is
    ever freed. *)

Record ErrorBuilder := mkBuilder {
  id : string;
  code : Z;
  detail : string
}.

Record heap := mkHeap {
  errors : list Error;
  builders : list ErrorBuilder
}.

Definition empty : heap := mkHeap [] [].

(** A pointer: [None] is the nil pointer. *)
Definition ptr := option nat.

(** A value of the interface type [error]: the nil interface, a [*Error]
    (which may be a nil pointer), or a value of another type, of which only
    the text returned by its [Error] method matters. *)
Inductive error :=
| NilError
| PtrError (p : ptr)
| OtherError (text : string).

(** The outcome of running code: a value and the heap after it, or a
    run-time panic.  [Unknown] is the outcome of code that has called into
    a part of the standard library that is not embedded here (a format
    that [fmt.Sprintf] above does not cover): nothing is said about it. *)
Inductive result (A : Type) :=
| Ok (a : A) (h : heap)
| Panic
| Unknown.
Arguments Ok {A} a h.
Arguments Panic {A}.
Arguments Unknown {A}.

Definition M (A : Type) : Type := heap -> result A.

Definition ret {A} (a : A) : M A := fun h => Ok a h.

Definition bind {A B} (m : M A) (k : A -> M B) : M B :=
  fun h =>
    match m h with
    | Ok a h' => k a h'
    | Panic => Panic
    | Unknown => Unknown
    end.

Notation "x <- m ;; k" := (bind m (fun x => k))
  (at level 61, m at next level, right associativity).

Fixpoint update {A} (n : nat) (x : A) (l : list A) : list A :=
  match n, l with
  | _, [] => []
  | O, _ :: l' => x :: l'
  | S n', y :: l' => y :: update n' x l'
  end.

(** [&Error{...}] *)
Definition newError (e : Error) : M ptr :=
  fun h => Ok (Some (List.length (errors h)))
              (mkHeap (errors h ++ [e]) (builders h)).

(** [*p]; dereferencing the nil pointer panics. *)
Definition load (p : ptr) : M Error :=
  fun h =>
    match p with
    | None => Panic
    | Some a =>
      match nth_error (errors h) a with
      | Some e => Ok e h
      | None => Panic
      end
    end.

(** [*p = e] *)
Definition store (p : ptr) (e : Error) : M unit :=
  fun h =>
    match p with
    | None => Panic
    | Some a =>
      match nth_error (errors h) a with
      | Some _ => Ok tt (mkHeap (update a e (errors h)) (builders h))
      | None => Panic
      end
    end.

Definition newBuilder (b : ErrorBuilder) : M ptr :=
  fun h => Ok (Some (List.length (builders h)))
              (mkHeap (errors h) (builders h ++ [b])).

Definition loadBuilder (p : ptr) : M ErrorBuilder :=
  fun h =>
    match p with
    | None => Panic
    | Some a =>
      match nth_error (builders h) a with
      | Some b => Ok b h
      | None => Panic
      end
    end.

Definition storeBuilder (p : ptr) (b : ErrorBuilder) : M unit :=
  fun h =>
    match p with
    | None => Panic
    | Some a =>
      match nth_error (builders h) a with
      | Some _ => Ok tt (mkHeap (errors h) (update a b (builders h)))
      | None => Panic
      end
    end.

(** [fmt.Sprintf(format, a...)] called from the package. *)
Definition sprintf (format : string) (a : list fmt.arg) : M string :=
  fun h =>
    match fmt.Sprintf format a with
    | Some s => Ok s h
    | None => Unknown
    end.

(** ** The error value *)

Module Error.

(** [func (e *Error) Error() string]: the JSON text of [e].  The method
    does not dereference its receiver itself; on a nil receiver the
    encoder writes [null]. *)
Definition Error (e : ptr) : M string :=
  fun h =>
    match e with
    | None => Ok (json.Marshal None) h
    | Some a =>
      match nth_error (errors h) a with
      | Some v => Ok (json.Marshal (Some v)) h
      | None => Panic
      end
    end.

End Error.

(** [err.Error()] through the interface. *)
Definition callError (err : error) : M string :=
  match err with
  | NilError => fun _ => Panic
  | PtrError p => Error.Error p
  | OtherError text => ret text
  end.

(** [New] generates a custom error. *)
Definition New (id detail : string) (code : Z) : M error :=
  p <- newError {| Id := id;
                   Code := code;
                   Detail := detail;
                   Status := http.StatusText code |} ;;
  ret (PtrError p).

(** [Parse] tries to parse a JSON string into an error.  If that fails, it
    sets the given string as the error detail. *)
Definition Parse (err : string) : M ptr :=
  e <- newError (mkError "" 0 "" "") ;;
  v <- load e ;;
  match json.Unmarshal err v with
  | None => fun _ => Panic
  | Some (v', errr) =>
    _ <- store e v' ;;
    match errr with
    | Some _ =>
      _ <- store e (mkError (Id v') (Code v') err (Status v')) ;;
      ret e
    | None => ret e
    end
  end.

(** [BadRequest] generates a 400 error. *)
Definition BadRequest (a : list fmt.arg) : M error :=
  detail <- sprintf "%s" a ;;
  p <- newError {| Id := "400";
                   Code := 400;
                   Detail := detail;
                   Status := http.StatusText 400 |} ;;
  ret (PtrError p).

(** [Unauthorized] generates a 401 error. *)
Definition Unauthorized (a : list fmt.arg) : M error :=
  detail <- sprintf "%s" a ;;
  p <- newError {| Id := "401";
                   Code := 401;
                   Detail := detail;
                   Status := http.StatusText 401 |} ;;
  ret (PtrError p).

(** [Forbidden] generates a 403 error. *)
Definition Forbidden (a : list fmt.arg) : M error :=
  detail <- sprintf "%s" a ;;
  p <- newError {| Id := "403";
                   Code := 403;
                   Detail := detail;
                   Status := http.StatusText 403 |} ;;
  ret (PtrError p).

(** [NotFound] generates a 404 error. *)
Definition NotFound (a : list fmt.arg) : M error :=
  detail <- sprintf "%s" a ;;
  p <- newError {| Id := "404";
                   Code := 404;
                   Detail := detail;
                   Status := http.StatusText 404 |} ;;
  ret (PtrError p).

(** [MethodNotAllowed] generates a 405 error. *)
Definition MethodNotAllowed (a : list fmt.arg) : M error :=
  detail <- sprintf "%s" a ;;
  p <- newError {| Id := "405";
                   Code := 405;
                   Detail := detail;
                   Status := http.StatusText 405 |} ;;
  ret (PtrError p).

(** [Timeout] generates a 408 error. *)
Definition Timeout (a : list fmt.arg) : M error :=
  detail <- sprintf "%s" a ;;
  p <- newError {| Id := "408";
                   Code := 408;
                   Detail := detail;
                   Status := http.StatusText 408 |} ;;
  ret (PtrError p).

(** [Conflict] generates a 409 error. *)
Definition Conflict (a : list fmt.arg) : M error :=
  detail <- sprintf "%s" a ;;
  p <- newError {| Id := "409";
                   Code := 409;
                   Detail := detail;
                   Status := http.StatusText 409 |} ;;
  ret (PtrError p).

(** [InternalServerError] generates a 500 error. *)
Definition InternalServerError (a : list fmt.arg) : M error :=
  detail <- sprintf "%s" a ;;
  p <- newError {| Id := "500";
                   Code := 500;
                   Detail := detail;
                   Status := http.StatusText 500 |} ;;
  ret (PtrError p).

(** [ServiceUnavailable] generates a 503 error. *)
Definition ServiceUnavailable (a : list fmt.arg) : M error :=
  detail <- sprintf "%s" a ;;
  p <- newError {| Id := "503";
                   Code := 503;
                   Detail := detail;
                   Status := http.StatusText 503 |} ;;
  ret (PtrError p).

(** [GatewayTimeout] generates a 504 error. *)
Definition GatewayTimeout (a : list fmt.arg) : M error :=
  detail <- sprintf "%s" a ;;
  p <- newError {| Id := "504";
                   Code := 504;
                   Detail := detail;
                   Status := http.StatusText 504 |} ;;
  ret (PtrError p).

(** ** Domain errors

    The package-level variables are initialised in the order of their
    declaration, before any other code of the package runs; each holds the
    address its constructor returned. *)
Definition ErrCollateralNotFound : error := PtrError (Some 0%nat).
Definition ErrCollateralExists : error := PtrError (Some 1%nat).
Definition ErrInvalidCollateralInput : error := PtrError (Some 2%nat).
Definition ErrCollateralSyncFailed : error := PtrError (Some 3%nat).
Definition ErrDatabaseOperation : error := PtrError (Some 4%nat).
Definition ErrExternalService : error := PtrError (Some 5%nat).

Definition init : M (list error) :=
  e0 <- NotFound [fmt.Str "collateral not found"] ;;
  e1 <- Conflict [fmt.Str "collateral already exists"] ;;
  e2 <- BadRequest [fmt.Str "invalid collateral input"] ;;
  e3 <- ServiceUnavailable [fmt.Str "collateral synchronization failed"] ;;
  e4 <- InternalServerError [fmt.Str "database operation failed"] ;;
  e5 <- ServiceUnavailable [fmt.Str "external service unavailable"] ;;
  ret [e0; e1; e2; e3; e4; e5].

(** The heap when the package is initialised. *)
Definition initial : heap :=
  match init empty with
  | Ok _ h => h
  | _ => empty
  end.

(** ** Helper functions *)

Definition isNil (err : error) : bool :=
  match err with
  | NilError => true
  | _ => false
  end.

(** [Is] checks if the error is of a specific type. *)
Definition Is (err target : error) : M bool :=
  if isNil err || isNil target then ret false
  else
    let fallback :=
      a <- callError err ;;
      b <- callError target ;;
      ret (String.eqb a b) in
    match err with
    | PtrError e =>
      match target with
      | PtrError t =>
        ev <- load e ;;
        tv <- load t ;;
        ret (String.eqb (Id ev) (Id tv))
      | _ => fallback
      end
    | _ => fallback
    end.

(** [Wrap] creates a new error with additional context. *)
Definition Wrap (originalError : error) (message : string) : M error :=
  match originalError with
  | NilError => New "WRAPPED_ERROR" message 500
  | PtrError e =>
    ev <- load e ;;
    detail <- sprintf "%s: %s" [fmt.Str message; fmt.Str (Detail ev)] ;;
    p <- newError {| Id := Id ev;
                     Code := Code ev;
                     Detail := detail;
                     Status := Status ev |} ;;
    ret (PtrError p)
  | OtherError text =>
    (* [%v] of an error value prints what its [Error] method returns *)
    detail <- sprintf "%s: %v" [fmt.Str message; fmt.Str text] ;;
    New "WRAPPED_ERROR" detail 500
  end.

(** [WithDetail] creates a new error with additional detail. *)
Definition WithDetail (originalError : error) (detail : string) : M error :=
  match originalError with
  | NilError => New "DETAILED_ERROR" detail 500
  | PtrError e =>
    ev <- load e ;;
    p <- newError {| Id := Id ev;
                     Code := Code ev;
                     Detail := detail;
                     Status := Status ev |} ;;
    ret (PtrError p)
  | OtherError _ => New "DETAILED_ERROR" detail 500
  end.

(** [GetHTTPStatus] returns the HTTP status code from an error. *)
Definition GetHTTPStatus (err : error) : M Z :=
  match err with
  | PtrError e => ev <- load e ;; ret (Code ev)
  | _ => ret http.StatusInternalServerError
  end.

(** [GetErrorID] returns the error ID from an error. *)
Definition GetErrorID (err : error) : M string :=
  match err with
  | PtrError e => ev <- load e ;; ret (Id ev)
  | _ => ret "UNKNOWN_ERROR"
  end.

(** [IsNotFound]; the right operand of [||] runs only when the left one is
    false. *)
Definition IsNotFound (err : error) : M bool :=
  l <- Is err ErrCollateralNotFound ;;
  if l then ret true
  else t <- NotFound [fmt.Str ""] ;; Is err t.

Definition IsAlreadyExists (err : error) : M bool :=
  l <- Is err ErrCollateralExists ;;
  if l then ret true
  else t <- Conflict [fmt.Str ""] ;; Is err t.

(** [IsBadRequest] checks if the error is a "bad request" error. *)
Definition IsBadRequest (err : error) : M bool :=
  match err with
  | PtrError e => ev <- load e ;; ret ((400 <=? Code ev) && (Code ev <? 500))
  | _ => ret false
  end.

(** [IsServerError] checks if the error is a server error (5xx). *)
Definition IsServerError (err : error) : M bool :=
  match err with
  | PtrError e => ev <- load e ;; ret ((500 <=? Code ev) && (Code ev <? 600))
  | _ => ret false
  end.

(** ** Builder *)

Definition NewBuilder : M ptr :=
  newBuilder {| id := "CUSTOM_ERROR"; code := 500; detail := "" |}.

Module ErrorBuilder.

Definition WithID (b : ptr) (id' : string) : M ptr :=
  v <- loadBuilder b ;;
  _ <- storeBuilder b (mkBuilder id' (code v) (detail v)) ;;
  ret b.

Definition WithCode (b : ptr) (code' : Z) : M ptr :=
  v <- loadBuilder b ;;
  _ <- storeBuilder b (mkBuilder (id v) code' (detail v)) ;;
  ret b.

Definition WithDetail (b : ptr) (detail' : string) : M ptr :=
  v <- loadBuilder b ;;
  _ <- storeBuilder b (mkBuilder (id v) (code v) detail') ;;
  ret b.

(** [WithDetailf] sets the detail with formatting.  [fmt.Sprintf] returns
    a string on every format and the assignment through a nil pointer
    panics after it; the builder is read first here, so that the call on a
    nil builder panics on every format, also on those of which the string
    is not embedded. *)
Definition WithDetailf (b : ptr) (format : string) (args : list fmt.arg)
  : M ptr :=
  v <- loadBuilder b ;;
  d <- sprintf format args ;;
  _ <- storeBuilder b (mkBuilder (id v) (code v) d) ;;
  ret b.

(** [Build] creates the final error. *)
Definition Build (b : ptr) : M error :=
  v <- loadBuilder b ;;
  New (id v) (detail v) (code v).

End ErrorBuilder.

(* ================================================================== *)
(** * Vocabulary of the properties *)

(** The heap [h] with one more [Error]. *)
Definition extend (h : heap) (e : Error) : heap :=
  mkHeap (errors h ++ [e]) (builders h).

(** The address of the next [Error]. *)
Definition next (h : heap) : nat := List.length (errors h).

(** Every object allocated when the package was initialised is there. *)
Definition initialized (h : heap) : Prop :=
  (List.length (errors initial) <= List.length (errors h))%nat.

(** Well-formed UTF-8: a continuation byte, and the byte sequences of two,
    three and four bytes that encode a rune (no overlong form, no
    surrogate, nothing above U+10FFFF). *)
Definition cont (b : Z) : Prop := 0x80 <= b <= 0xBF.
Definition seq2 (b0 b1 : Z) : Prop := 0xC2 <= b0 <= 0xDF /\ cont b1.
Definition seq3 (b0 b1 b2 : Z) : Prop :=
  ((b0 = 0xE0 /\ 0xA0 <= b1 <= 0xBF)
   \/ (0xE1 <= b0 <= 0xEC /\ cont b1)
   \/ (b0 = 0xED /\ 0x80 <= b1 <= 0x9F)
   \/ (0xEE <= b0 <= 0xEF /\ cont b1))
  /\ cont b2.
Definition seq4 (b0 b1 b2 b3 : Z) : Prop :=
  ((b0 = 0xF0 /\ 0x90 <= b1 <= 0xBF)
   \/ (0xF1 <= b0 <= 0xF3 /\ cont b1)
   \/ (b0 = 0xF4 /\ 0x80 <= b1 <= 0x8F))
  /\ cont b2 /\ cont b3.

(** [decoded s r n]: [s] starts with a well-formed encoding of the rune
    [r] on [n] bytes. *)
Inductive decoded : string -> Z -> nat -> Prop :=
| decoded1 c s :
    byte c < 0x80 -> decoded (String c s) (byte c) 1
| decoded2 c0 c1 s :
    seq2 (byte c0) (byte c1) ->
    decoded (String c0 (String c1 s))
            (byte c0 mod 32 * 64 + byte c1 mod 64) 2
| decoded3 c0 c1 c2 s :
    seq3 (byte c0) (byte c1) (byte c2) ->
    decoded (String c0 (String c1 (String c2 s)))
            (byte c0 mod 16 * 4096 + byte c1 mod 64 * 64 + byte c2 mod 64) 3
| decoded4 c0 c1 c2 c3 s :
    seq4 (byte c0) (byte c1) (byte c2) (byte c3) ->
    decoded (String c0 (String c1 (String c2 (String c3 s))))
            (byte c0 mod 8 * 262144 + byte c1 mod 64 * 4096
             + byte c2 mod 64 * 64 + byte c3 mod 64) 4.

(** The result [(RuneError, 1)] of decoding an invalid byte. *)
Definition invalid (d : Z * nat) : bool :=
  (fst d =? utf8.RuneError) && Nat.eqb (snd d) 1.

(** Decimal digits only. *)
Fixpoint allDigits (s : string) : bool :=
  match s with
  | EmptyString => true
  | String c s' => json.isDigit c && allDigits s'
  end.

(** A byte that a string literal holds as it is. *)
Definition plain (c : ascii) : bool :=
  negb (Ascii.eqb c json.dquote) && negb (Ascii.eqb c json.backslash)
  && negb (byte c <? 0x20).

(** Bytes that a string literal holds as they are, only. *)
Fixpoint allPlain (s : string) : bool :=
  match s with
  | EmptyString => true
  | String c s' => plain c && allPlain s'
  end.

(** The double quote, for short. *)
Definition q : ascii := json.dquote.

(** The text [Marshal] writes, read from the left as the scanner does. *)
Definition objectText (l1 n l2 l3 : string) : string :=
  "{" ++ String q "id" ++ String q ":" ++ String q l1 ++ String q ","
      ++ String q "code" ++ String q ":" ++ n ++ ","
      ++ String q "detail" ++ String q ":" ++ String q l2 ++ String q ","
      ++ String q "status" ++ String q ":" ++ String q l3 ++ String q "}".

(** What [Sprintf("%s", a...)] writes: the one verb formats the first
    operand, the operands after it are reported as surplus, and a missing
    operand is reported. *)
Definition onlyFirst (a : list fmt.arg) : string :=
  match a with
  | [] => "%!s(MISSING)"
  | x :: rest => fmt.printArg x "s" ++ fmt.extra rest
  end.

(** What the specification describes: every operand printed in its default
    format, the results concatenated. *)
Definition printedAndConcatenated (a : list fmt.arg) : string :=
  String.concat "" (map fmt.printV a).

(** The zero value of [Error], what [new(Error)] allocates. *)
Definition zero : Error := mkError "" 0 "" "".

(** The JSON value is an object. *)
Definition isObject (v : json.value) : bool :=
  match v with
  | json.Object _ => true
  | _ => false
  end.

(** The text of a string literal the scanner accepts. *)
Inductive escaped : string -> Prop :=
| escaped_nil : escaped ""
| escaped_plain c l :
    plain c = true -> escaped l -> escaped (String c l)
| escaped_simple e l :
    json.isEscape e = true -> escaped l ->
    escaped (String json.backslash (String e l))
| escaped_u h1 h2 h3 h4 l :
    json.isHex h1 && json.isHex h2 && json.isHex h3 && json.isHex h4 = true ->
    escaped l ->
    escaped (String json.backslash (String "u"
               (String h1 (String h2 (String h3 (String h4 l)))))).

(** The literal of a string value is one the scanner accepted. *)
Definition literalOk (v : json.value) : Prop :=
  match v with
  | json.Str lit => escaped lit
  | _ => True
  end.

(** ** Heaps and what a call does to them *)

(** [err] is the nil error, an error of another type, or a pointer to an
    [Error] that the heap holds. *)
Definition wellFormed (h : heap) (err : error) : Prop :=
  match err with
  | PtrError p => exists a e, p = Some a /\ nth_error (errors h) a = Some e
  | _ => True
  end.

(** The heap holds the domain errors as the initialisation of the package
    left them, at the first addresses; what follows them, and the
    builders, are free. *)
Definition intact (h : heap) : Prop :=
  exists l, errors h = (errors initial ++ l)%list.

(** A heap of a running program: the domain errors, an error built since,
    and a builder. *)
Definition later : heap :=
  mkHeap (errors initial ++ [mkError "X" 418 "teapot" "I'm a teapot"])
         [mkBuilder "X" 418 "teapot"].

(** The heap [h'] holds the errors of [h], each at its address and with
    its fields, then the new ones; the builders are those of [h]. *)
Definition grows (h h' : heap) : Prop :=
  (exists l, errors h' = (errors h ++ l)%list) /\ builders h' = builders h.

(** A computation that only allocates errors. *)
Definition appendOnly {A} (m : M A) : Prop :=
  forall h a h', m h = Ok a h' -> grows h h'.

(** A computation that leaves the heap as it is. *)
Definition readOnly {A} (m : M A) : Prop :=
  forall h a h', m h = Ok a h' -> h' = h.

(** A computation that keeps a property of the heap. *)
Definition keeps (P : heap -> Prop) {A} (m : M A) : Prop :=
  forall h a h', P h -> m h = Ok a h' -> P h'.

(** The status of an [Error] is the text of the table for its code. *)
Definition inSync (e : Error) : Prop := Status e = http.StatusText (Code e).

(** Every [Error] of the heap has the status of its code. *)
Definition consistent (h : heap) : Prop := Forall inSync (errors h).

(** ** The constructors and the domain errors, as lists *)

Definition constructors : list (list fmt.arg -> M error) :=
  [BadRequest; Unauthorized; Forbidden; NotFound; MethodNotAllowed;
   Timeout; Conflict; InternalServerError; ServiceUnavailable;
   GatewayTimeout].

(** The constructors with the code of each. *)
Definition coded : list ((list fmt.arg -> M error) * Z) :=
  [(BadRequest, 400); (Unauthorized, 401); (Forbidden, 403); (NotFound, 404);
   (MethodNotAllowed, 405); (Timeout, 408); (Conflict, 409);
   (InternalServerError, 500); (ServiceUnavailable, 503);
   (GatewayTimeout, 504)].

(** The domain errors with the code of each. *)
Definition sentinels : list (error * Z) :=
  [(ErrCollateralNotFound, 404); (ErrCollateralExists, 409);
   (ErrInvalidCollateralInput, 400); (ErrCollateralSyncFailed, 503);
   (ErrDatabaseOperation, 500); (ErrExternalService, 503)].

(** ** Chains of setters *)

(** A call of one of the setters of the builder. *)
Inductive setter :=
| SetID (id : string)
| SetCode (code : Z)
| SetDetail (detail : string)
| SetDetailf (format : string) (args : list fmt.arg).

Definition call (b : ptr) (s : setter) : M ptr :=
  match s with
  | SetID x => ErrorBuilder.WithID b x
  | SetCode c => ErrorBuilder.WithCode b c
  | SetDetail d => ErrorBuilder.WithDetail b d
  | SetDetailf f a => ErrorBuilder.WithDetailf b f a
  end.

(** A chain of calls, each on the pointer the call before returned. *)
Fixpoint chain (b : ptr) (l : list setter) : M ptr :=
  match l with
  | [] => ret b
  | s :: l' => b' <- call b s ;; chain b' l'
  end.

(** The fields a builder holds after a setter; [None] when the format of
    [WithDetailf] leaves the embedded part of [fmt]. *)
Definition assign (v : ErrorBuilder) (s : setter) : option ErrorBuilder :=
  match s with
  | SetID x => Some (mkBuilder x (code v) (detail v))
  | SetCode c => Some (mkBuilder (id v) c (detail v))
  | SetDetail d => Some (mkBuilder (id v) (code v) d)
  | SetDetailf f a => option_map (mkBuilder (id v) (code v)) (fmt.Sprintf f a)
  end.

(** The fields after the setters of a list, one after the other. *)
Fixpoint assignAll (v : ErrorBuilder) (l : list setter)
  : option ErrorBuilder :=
  match l with
  | [] => Some v
  | s :: l' =>
    match assign v s with
    | Some v' => assignAll v' l'
    | None => None
    end
  end.

(** The [Error] that [Build] makes of the fields of a builder. *)
Definition built (v : ErrorBuilder) : Error :=
  mkError (id v) (code v) (detail v) (http.StatusText (code v)).

(** A format without a percent sign. *)
Fixpoint noPercent (s : string) : bool :=
  match s with
  | EmptyString => true
  | String c s' => negb (Ascii.eqb c "%") && noPercent s'
  end.

(** ** Transport *)

(** What the receiver of the text of an error makes of it: the error is
    built, its text is taken and parsed. *)
Definition transported (m : M error) : M error :=
  e <- m ;; text <- callError e ;; p <- Parse text ;; ret (PtrError p).

(** The text is no JSON object: it is no JSON at all, or a value of
    another kind. *)
Definition notAnObject (text : string) : Prop :=
  match json.scan text with
  | Some v => isObject v = false
  | None => True
  end.

(** ** Strings and their text *)

(** The bytes EF BF BD, the encoding of U+FFFD. *)
Definition replacement : string :=
  String "239" (String "191" (String "189" "")).

(** A string with every byte that does not begin a well-formed sequence
    replaced by the encoding of U+FFFD. *)
Fixpoint coerceFrom (fuel : nat) (s : string) : string :=
  match s with
  | EmptyString => ""
  | String c rest =>
    match fuel with
    | O => ""
    | S fuel' =>
      let '(r, size) := utf8.DecodeRuneInString s in
      if (r =? utf8.RuneError) && Nat.eqb size 1
      then replacement ++ coerceFrom fuel' rest
      else take size s ++ coerceFrom fuel' (drop size s)
    end
  end.

Definition coerce (s : string) : string := coerceFrom (String.length s) s.

(** The [Error] with its strings coerced to valid UTF-8. *)
Definition coerced (e : Error) : Error :=
  mkError (coerce (Id e)) (Code e) (coerce (Detail e)) (coerce (Status e)).

(** Bytes the encoder writes as they are, only. *)
Fixpoint allSafe (s : string) : bool :=
  match s with
  | EmptyString => true
  | String c s' => json.htmlSafeSet (byte c) && allSafe s'
  end.

(** A byte that is no control character and none of [<], [>] and [&]. *)
Definition clean (c : ascii) : bool :=
  (0x20 <=? byte c) && negb (Ascii.eqb c "<") && negb (Ascii.eqb c ">")
  && negb (Ascii.eqb c "&").

Fixpoint allClean (s : string) : bool :=
  match s with
  | EmptyString => true
  | String c s' => clean c && allClean s'
  end.

(** The text of an object with the one member [code]. *)
Definition codeOnly (n : string) : string :=
  "{" ++ String q "code" ++ String q ":" ++ n ++ "}".

(* ================================================================== *)
(** * Properties *)

(** ** Strings and heaps *)

Lemma append_nil_r (s : string) : s ++ "" = s.
Proof. induction s as [|c s IH]; simpl; [reflexivity | now rewrite IH]. Qed.

Lemma append_assoc (s t u : string) : (s ++ t) ++ u = s ++ (t ++ u).
Proof. induction s as [|c s IH]; simpl; [reflexivity | now rewrite IH]. Qed.

Lemma length_append (s t : string) :
  String.length (s ++ t) = (String.length s + String.length t)%nat.
Proof. induction s as [|c s IH]; simpl; [reflexivity | now rewrite IH]. Qed.

Lemma nth_error_snoc {A} (l : list A) (x : A) :
  nth_error (l ++ [x]) (List.length l) = Some x.
Proof. induction l as [|y l IH]; simpl; auto. Qed.

Lemma nth_error_snoc_old {A} (l : list A) (x y : A) (n : nat) :
  nth_error l n = Some y -> nth_error (l ++ [x]) n = Some y.
Proof.
  revert n; induction l as [|z l IH]; intros [|n] H; simpl in *;
    try discriminate; auto.
Qed.

Lemma nth_error_old_lt {A} (l : list A) (y : A) (n : nat) :
  nth_error l n = Some y -> (n < List.length l)%nat.
Proof. intros H. apply nth_error_Some. congruence. Qed.

Lemma load_extend_new (h : heap) (e : Error) :
  load (Some (next h)) (extend h e) = Ok e (extend h e).
Proof. unfold load, extend, next; simpl. now rewrite nth_error_snoc. Qed.

Lemma load_extend_old (h : heap) (e v : Error) (a : nat) :
  nth_error (errors h) a = Some v ->
  load (Some a) (extend h e) = Ok v (extend h e).
Proof.
  intros H. unfold load, extend; simpl. now rewrite (nth_error_snoc_old _ _ _ _ H).
Qed.

Lemma initialized_initial : initialized initial.
Proof. unfold initialized. apply Nat.le_refl. Qed.

Lemma initialized_load (h : heap) (a : nat) :
  initialized h -> (a < 6)%nat -> exists v, nth_error (errors h) a = Some v.
Proof.
  unfold initialized; intros Hi Ha.
  change (List.length (errors initial)) with 6%nat in Hi.
  destruct (nth_error (errors h) a) as [v|] eqn:E; [now exists v|].
  apply nth_error_None in E. lia.
Qed.

(** The package-level variables hold what the initialisers returned. *)
Lemma init_variables :
  init empty =
  Ok [ErrCollateralNotFound; ErrCollateralExists; ErrInvalidCollateralInput;
      ErrCollateralSyncFailed; ErrDatabaseOperation; ErrExternalService]
     initial.
Proof. reflexivity. Qed.

(** ** Bytes

    The masks, shifts and ors of [unicode/utf8] in arithmetic. *)

Lemma byte_range (c : ascii) : 0 <= byte c < 256.
Proof.
  unfold byte. pose proof (N_ascii_bounded c) as H. lia.
Qed.

Lemma chr_byte (c : ascii) : chr (byte c) = c.
Proof. unfold chr, byte. rewrite N2Z.id. apply ascii_N_embedding. Qed.

Lemma byte_chr (z : Z) : 0 <= z < 256 -> byte (chr z) = z.
Proof.
  intros H. unfold chr, byte. rewrite N_ascii_embedding by lia. lia.
Qed.

Lemma land_disjoint (a b k : Z) :
  0 <= k -> 0 <= b < 2 ^ k -> Z.land (a * 2 ^ k) b = 0.
Proof.
  intros Hk Hb. apply Z.bits_inj'. intros n Hn.
  rewrite Z.land_spec, Z.bits_0.
  destruct (Z.lt_ge_cases n k) as [Hlt | Hge].
  - rewrite Z.mul_pow2_bits_low by lia. reflexivity.
  - destruct (Z.eq_dec b 0) as [-> | Hnz].
    + rewrite Z.bits_0. apply andb_false_r.
    + rewrite (Z.bits_above_log2 b n); [apply andb_false_r | lia |].
      apply Z.log2_lt_pow2; [lia|].
      apply Z.lt_le_trans with (2 ^ k); [lia|].
      apply Z.pow_le_mono_r; lia.
Qed.

Lemma lor_add (x y k : Z) :
  0 <= k -> 0 <= y < 2 ^ k -> x mod 2 ^ k = 0 -> Z.lor x y = x + y.
Proof.
  intros Hk Hy Hx.
  assert (E : x = x / 2 ^ k * 2 ^ k).
  { pose proof (Z.div_mod x (2 ^ k)). lia. }
  pose proof (Z.add_lor_land x y) as H.
  rewrite E in H at 2. rewrite land_disjoint in H by assumption. lia.
Qed.

Ltac arith := cbv beta zeta in *; Z.div_mod_to_equations; lia.

Lemma land_mask (x k : Z) : 0 <= k -> Z.land x (2 ^ k - 1) = x mod 2 ^ k.
Proof.
  intros Hk. rewrite <- Z.land_ones by assumption.
  f_equal. rewrite Z.ones_equiv. lia.
Qed.

Lemma land_07 (x : Z) : Z.land x 0x07 = x mod 8.
Proof. apply (land_mask x 3). lia. Qed.
Lemma land_0F (x : Z) : Z.land x 0x0F = x mod 16.
Proof. apply (land_mask x 4). lia. Qed.
Lemma land_1F (x : Z) : Z.land x 0x1F = x mod 32.
Proof. apply (land_mask x 5). lia. Qed.
Lemma land_3F (x : Z) : Z.land x 0x3F = x mod 64.
Proof. apply (land_mask x 6). lia. Qed.
Lemma land_FF (x : Z) : Z.land x 0xFF = x mod 256.
Proof. apply (land_mask x 8). lia. Qed.

Lemma dec2_val (b0 b1 : Z) :
  Z.lor (Z.shiftl (Z.land b0 utf8.mask2) 6) (Z.land b1 utf8.maskx)
  = b0 mod 32 * 64 + b1 mod 64.
Proof.
  unfold utf8.mask2, utf8.maskx.
  rewrite land_1F, land_3F.
  rewrite Z.shiftl_mul_pow2 by lia.
  apply (lor_add _ _ 6); arith.
Qed.

Lemma dec3_val (b0 b1 b2 : Z) :
  Z.lor (Z.lor (Z.shiftl (Z.land b0 utf8.mask3) 12)
               (Z.shiftl (Z.land b1 utf8.maskx) 6))
        (Z.land b2 utf8.maskx)
  = b0 mod 16 * 4096 + b1 mod 64 * 64 + b2 mod 64.
Proof.
  unfold utf8.mask3, utf8.maskx.
  rewrite land_0F, !land_3F.
  rewrite !Z.shiftl_mul_pow2 by lia.
  rewrite (lor_add (_ * 2 ^ 12) _ 12) by arith.
  apply (lor_add _ _ 6); arith.
Qed.

Lemma dec4_val (b0 b1 b2 b3 : Z) :
  Z.lor (Z.lor (Z.lor (Z.shiftl (Z.land b0 utf8.mask4) 18)
                      (Z.shiftl (Z.land b1 utf8.maskx) 12))
               (Z.shiftl (Z.land b2 utf8.maskx) 6))
        (Z.land b3 utf8.maskx)
  = b0 mod 8 * 262144 + b1 mod 64 * 4096 + b2 mod 64 * 64 + b3 mod 64.
Proof.
  unfold utf8.mask4, utf8.maskx.
  rewrite land_07, !land_3F.
  rewrite !Z.shiftl_mul_pow2 by lia.
  rewrite (lor_add (_ * 2 ^ 18) _ 18) by arith.
  rewrite (lor_add _ (_ * 2 ^ 6) 12) by arith.
  apply (lor_add _ _ 6); arith.
Qed.

(** The bytes [EncodeRune] writes, in arithmetic. *)
Lemma lead_val (t k n r : Z) :
  0 <= k -> 0 <= n -> t mod 2 ^ k = 0 -> 0 <= r -> r / 2 ^ n < 2 ^ k ->
  2 ^ k <= 256 ->
  Z.lor t (utf8.to_byte (Z.shiftr r n)) = t + r / 2 ^ n.
Proof.
  intros Hk Hn Ht Hr Hlt Hle. unfold utf8.to_byte.
  rewrite land_FF, Z.shiftr_div_pow2 by lia.
  assert (0 <= r / 2 ^ n) by (apply Z.div_pos; lia).
  rewrite Z.mod_small by lia.
  apply (lor_add _ _ k); lia.
Qed.

Lemma cont_val (n r : Z) :
  0 <= n -> 0 <= r ->
  Z.lor utf8.tx (Z.land (utf8.to_byte (Z.shiftr r n)) utf8.maskx)
  = 0x80 + (r / 2 ^ n) mod 64.
Proof.
  intros Hn Hr. unfold utf8.to_byte, utf8.tx, utf8.maskx.
  rewrite land_FF, land_3F, Z.shiftr_div_pow2 by lia.
  rewrite (lor_add _ _ 6) by arith.
  f_equal. arith.
Qed.

Lemma cont_val0 (r : Z) :
  0 <= r ->
  Z.lor utf8.tx (Z.land (utf8.to_byte r) utf8.maskx) = 0x80 + r mod 64.
Proof.
  intros Hr. pose proof (cont_val 0 r (Z.le_refl 0) Hr) as H.
  rewrite Z.shiftr_0_r in H. rewrite H. f_equal. f_equal.
  change (2 ^ 0) with 1. now rewrite Z.div_1_r.
Qed.

(** ** unicode/utf8: decoding and encoding *)

Ltac pick :=
  solve [ split; [lia | reflexivity]
        | left; pick
        | right; pick ].

Lemma first_cases (b : Z) :
  0 <= b < 256 ->
  (b < 0x80 /\ utf8.first b = utf8.as_)
  \/ ((0x80 <= b < 0xC2 \/ 0xF5 <= b) /\ utf8.first b = utf8.xx)
  \/ (0xC2 <= b <= 0xDF /\ utf8.first b = utf8.s1)
  \/ (b = 0xE0 /\ utf8.first b = utf8.s2)
  \/ ((0xE1 <= b <= 0xEC \/ 0xEE <= b <= 0xEF) /\ utf8.first b = utf8.s3)
  \/ (b = 0xED /\ utf8.first b = utf8.s4)
  \/ (b = 0xF0 /\ utf8.first b = utf8.s5)
  \/ (0xF1 <= b <= 0xF3 /\ utf8.first b = utf8.s6)
  \/ (b = 0xF4 /\ utf8.first b = utf8.s7).
Proof.
  intros Hb. unfold utf8.first.
  repeat match goal with
         | |- context [if ?x <? ?y then _ else _] =>
           destruct (Z.ltb_spec x y)
         | |- context [if ?x =? ?y then _ else _] =>
           destruct (Z.eqb_spec x y)
         end; pick.
Qed.

Ltac eval_const t := let v := eval vm_compute in t in change t with v.

(** Evaluate the table lookups of [DecodeRuneInString] once the class of
    the first byte is known. *)
Ltac decode_class H :=
  match type of H with
  | utf8.first _ = ?x =>
    unfold utf8.DecodeRuneInString; cbv zeta; rewrite H;
    eval_const (utf8.as_ <=? x);
    eval_const (Z.testbit x 0);
    eval_const (Z.land x 7);
    eval_const (utf8.acceptRanges (Z.shiftr x 4));
    eval_const (2 <=? 2); eval_const (3 <=? 2); eval_const (3 <=? 3);
    eval_const (4 <=? 2); eval_const (4 <=? 3);
    cbv iota; cbn [utf8.lo utf8.hi]
  end.

Ltac first_class :=
  unfold utf8.first;
  repeat match goal with
         | |- context [if ?x <? ?y then _ else _] =>
           destruct (Z.ltb_spec x y); try lia
         | |- context [if ?x =? ?y then _ else _] =>
           destruct (Z.eqb_spec x y); try lia
         end;
  reflexivity.

Lemma first_as (b : Z) : b < 0x80 -> utf8.first b = utf8.as_.
Proof. intros H. first_class. Qed.
Lemma first_s1 (b : Z) : 0xC2 <= b <= 0xDF -> utf8.first b = utf8.s1.
Proof. intros H. first_class. Qed.
Lemma first_s2 (b : Z) : b = 0xE0 -> utf8.first b = utf8.s2.
Proof. intros ->. reflexivity. Qed.
Lemma first_s3 (b : Z) :
  0xE1 <= b <= 0xEC \/ 0xEE <= b <= 0xEF -> utf8.first b = utf8.s3.
Proof. intros H. first_class. Qed.
Lemma first_s4 (b : Z) : b = 0xED -> utf8.first b = utf8.s4.
Proof. intros ->. reflexivity. Qed.
Lemma first_s5 (b : Z) : b = 0xF0 -> utf8.first b = utf8.s5.
Proof. intros ->. reflexivity. Qed.
Lemma first_s6 (b : Z) : 0xF1 <= b <= 0xF3 -> utf8.first b = utf8.s6.
Proof. intros H. first_class. Qed.
Lemma first_s7 (b : Z) : b = 0xF4 -> utf8.first b = utf8.s7.
Proof. intros ->. reflexivity. Qed.

(** Decide the range checks one at a time, keeping the branch that the
    hypotheses allow. *)
Ltac decode_ranges :=
  simpl String.length in *;
  repeat match goal with
         | |- context [if (?x <? ?y) || _ then _ else _] =>
           destruct (Z.ltb_spec x y); [exfalso; lia | cbn [orb]]
         | |- context [if ?x <? ?y then _ else _] =>
           destruct (Z.ltb_spec x y); [exfalso; lia | ]
         end.

Ltac decode_known E :=
  decode_class E; unfold utf8.locb, utf8.hicb; decode_ranges; f_equal.

Lemma Decode_decoded (s : string) (r : Z) (n : nat) :
  decoded s r n -> utf8.DecodeRuneInString s = (r, n).
Proof.
  intros [c0 s' H | c0 c1 s' H | c0 c1 c2 s' H | c0 c1 c2 c3 s' H];
    unfold seq2, seq3, seq4, cont in H.
  - pose proof (first_as _ H) as E. decode_class E. reflexivity.
  - destruct H as [H0 H1]. pose proof (first_s1 _ H0) as E.
    decode_known E. apply dec2_val.
  - destruct H as [[[H0 H1]|[[H0 H1]|[[H0 H1]|[H0 H1]]]] H2].
    + pose proof (first_s2 _ H0) as E. decode_known E. apply dec3_val.
    + pose proof (first_s3 _ (or_introl H0)) as E. decode_known E.
      apply dec3_val.
    + pose proof (first_s4 _ H0) as E. decode_known E. apply dec3_val.
    + pose proof (first_s3 _ (or_intror H0)) as E. decode_known E.
      apply dec3_val.
  - destruct H as [[[H0 H1]|[[H0 H1]|[H0 H1]]] [H2 H3]].
    + pose proof (first_s5 _ H0) as E. decode_known E. apply dec4_val.
    + pose proof (first_s6 _ H0) as E. decode_known E. apply dec4_val.
    + pose proof (first_s7 _ H0) as E. decode_known E. apply dec4_val.
Qed.

Ltac decode_split :=
  repeat match goal with
         | |- context [if (?x <? ?y) || _ then _ else _] =>
           destruct (Z.ltb_spec x y); cbn [orb]; cbv iota
         | |- context [if ?x <? ?y then _ else _] =>
           destruct (Z.ltb_spec x y)
         | |- context [match ?s with EmptyString => _ | String _ _ => _ end] =>
           is_var s; destruct s
         end.

Ltac decode_leaf :=
  first [ left; reflexivity
        | right; cbn [fst snd];
          first [ rewrite dec2_val; apply decoded2
                | rewrite dec3_val; apply decoded3
                | rewrite dec4_val; apply decoded4 ];
          unfold seq2, seq3, seq4, cont; lia ].

Lemma Decode_cases (c0 : ascii) (s : string) :
  let d := utf8.DecodeRuneInString (String c0 s) in
  invalid d = true \/ decoded (String c0 s) (fst d) (snd d).
Proof.
  destruct (first_cases (byte c0) (byte_range c0))
    as [[H1 H2]|[[H1 H2]|[[H1 H2]|[[H1 H2]|[[H1 H2]|[[H1 H2]|[[H1 H2]|
        [[H1 H2]|[H1 H2]]]]]]]]]; decode_class H2.
  - right. now apply decoded1.
  - left. reflexivity.
  - unfold utf8.locb, utf8.hicb. decode_split; decode_leaf.
  - unfold utf8.locb, utf8.hicb. decode_split; decode_leaf.
  - unfold utf8.locb, utf8.hicb. decode_split; decode_leaf.
  - unfold utf8.locb, utf8.hicb. decode_split; decode_leaf.
  - unfold utf8.locb, utf8.hicb. decode_split; decode_leaf.
  - unfold utf8.locb, utf8.hicb. decode_split; decode_leaf.
  - unfold utf8.locb, utf8.hicb. decode_split; decode_leaf.
Qed.

Ltac encode_range :=
  unfold utf8.EncodeRune, utf8.rune1Max, utf8.rune2Max, utf8.rune3Max,
    utf8.MaxRune, utf8.surrogateMin, utf8.surrogateMax;
  cbv zeta;
  rewrite Z.mod_small by lia;
  repeat match goal with
         | |- context [if (?x <? ?y) || _ then _ else _] =>
           destruct (Z.ltb_spec x y); [exfalso; lia | cbn [orb]]
         | |- context [if (?x <=? ?y) && _ then _ else _] =>
           destruct (Z.leb_spec x y); cbn [andb]; cbv iota
         | |- context [if ?x <=? ?y then _ else _] =>
           destruct (Z.leb_spec x y); try (exfalso; lia)
         end.

Lemma Encode_1 (r : Z) :
  0 <= r <= 0x7F -> utf8.EncodeRune r = String (chr r) "".
Proof.
  intros H. encode_range. unfold utf8.to_byte. rewrite land_FF.
  now rewrite Z.mod_small by lia.
Qed.

Lemma Encode_2 (r : Z) :
  0x80 <= r <= 0x7FF ->
  utf8.EncodeRune r
  = String (chr (0xC0 + r / 64)) (String (chr (0x80 + r mod 64)) "").
Proof.
  intros H. encode_range.
  rewrite (lead_val utf8.t2 5 6) by (unfold utf8.t2; arith).
  now rewrite cont_val0 by lia.
Qed.

Lemma Encode_3 (r : Z) :
  0x800 <= r <= 0xFFFF -> ~ 0xD800 <= r <= 0xDFFF ->
  utf8.EncodeRune r
  = String (chr (0xE0 + r / 4096))
     (String (chr (0x80 + (r / 64) mod 64))
       (String (chr (0x80 + r mod 64)) "")).
Proof.
  intros H Hs. encode_range; unfold utf8.encode3;
    rewrite (lead_val utf8.t3 4 12) by (unfold utf8.t3; arith);
    now rewrite (cont_val 6), cont_val0 by lia.
Qed.

Lemma Encode_4 (r : Z) :
  0x10000 <= r <= 0x10FFFF ->
  utf8.EncodeRune r
  = String (chr (0xF0 + r / 262144))
     (String (chr (0x80 + (r / 4096) mod 64))
       (String (chr (0x80 + (r / 64) mod 64))
         (String (chr (0x80 + r mod 64)) ""))).
Proof.
  intros H. encode_range.
  rewrite (lead_val utf8.t4 3 18) by (unfold utf8.t4; arith).
  now rewrite (cont_val 12), (cont_val 6), cont_val0 by lia.
Qed.

Lemma chr_eq (z : Z) (c : ascii) : z = byte c -> chr z = c.
Proof. intros ->. apply chr_byte. Qed.

Lemma decoded_Encode (s : string) (r : Z) (n : nat) :
  decoded s r n -> utf8.EncodeRune r = take n s.
Proof.
  intros [c0 s' H | c0 c1 s' H | c0 c1 c2 s' H | c0 c1 c2 c3 s' H];
    unfold seq2, seq3, seq4, cont in H; cbn [take];
    pose proof (byte_range c0).
  - rewrite Encode_1 by lia. now rewrite chr_byte.
  - rewrite Encode_2 by arith.
    repeat (apply (f_equal2 String); [apply chr_eq; arith|]). reflexivity.
  - rewrite Encode_3 by arith.
    repeat (apply (f_equal2 String); [apply chr_eq; arith|]). reflexivity.
  - rewrite Encode_4 by arith.
    repeat (apply (f_equal2 String); [apply chr_eq; arith|]). reflexivity.
Qed.

Lemma take_drop (n : nat) (s : string) : take n s ++ drop n s = s.
Proof.
  revert s; induction n as [|n IH]; intros [|c s]; simpl; try reflexivity.
  now rewrite IH.
Qed.

Lemma length_drop (n : nat) (s : string) :
  String.length (drop n s) = (String.length s - n)%nat.
Proof.
  revert s; induction n as [|n IH]; intros [|c s]; simpl; auto.
Qed.

Lemma length_take (n : nat) (s : string) :
  String.length (take n s) = Nat.min n (String.length s).
Proof.
  revert s; induction n as [|n IH]; intros [|c s]; simpl; auto.
Qed.

Lemma take_app_length (s t : string) : take (String.length s) (s ++ t) = s.
Proof. induction s as [|c s IH]; simpl; [now destruct t | now rewrite IH]. Qed.

Lemma drop_app_length (s t : string) : drop (String.length s) (s ++ t) = t.
Proof. induction s as [|c s IH]; simpl; auto. Qed.

Lemma take_add (n m : nat) (s : string) :
  take (n + m) s = take n s ++ take m (drop n s).
Proof.
  revert s; induction n as [|n IH]; intros [|c s]; simpl; try reflexivity.
  - now destruct m.
  - now rewrite IH.
Qed.

Lemma drop_add (n m : nat) (s : string) :
  drop (n + m) s = drop m (drop n s).
Proof.
  revert s; induction n as [|n IH]; intros [|c s]; simpl; try reflexivity.
  - now destruct m.
  - apply IH.
Qed.

(** Consequences of [decoded]. *)

Lemma decoded_size (s : string) (r : Z) (n : nat) :
  decoded s r n -> (1 <= n <= 4)%nat /\ String.length (take n s) = n.
Proof. intros [ | | | ]; simpl; lia. Qed.

Lemma decoded_app (s : string) (r : Z) (n : nat) (t : string) :
  decoded s r n -> decoded (take n s ++ t) r n.
Proof. intros [ | | | ]; simpl; now constructor. Qed.

Lemma decoded_valid (s : string) (r : Z) (n : nat) :
  decoded s r n -> invalid (r, n) = false.
Proof.
  intros [c0 s' H | | | ]; unfold invalid; cbn [fst snd Nat.eqb];
    try apply andb_false_r.
  unfold utf8.RuneError. destruct (Z.eqb_spec (byte c0) 0xFFFD); [lia|].
  reflexivity.
Qed.

Lemma invalid_eq (d : Z * nat) :
  invalid d = true -> d = (utf8.RuneError, 1%nat).
Proof.
  destruct d as [r n]. unfold invalid; cbn [fst snd].
  intros H. apply andb_prop in H as [H1 H2].
  apply Z.eqb_eq in H1. apply Nat.eqb_eq in H2. now subst.
Qed.

Lemma Decode_size (c : ascii) (s : string) :
  (1 <= snd (utf8.DecodeRuneInString (String c s)) <= 4)%nat.
Proof.
  destruct (Decode_cases c s) as [H | H].
  - apply invalid_eq in H. cbv zeta in H. rewrite H. simpl. lia.
  - apply decoded_size in H. lia.
Qed.

Lemma Decode_app (s : string) (r : Z) (n : nat) (t : string) :
  decoded s r n -> utf8.DecodeRuneInString (take n s ++ t) = (r, n).
Proof. intros H. apply Decode_decoded. now apply decoded_app. Qed.

Lemma take_take (n m : nat) (s : string) :
  (n <= m)%nat -> take n (take m s) = take n s.
Proof.
  revert m s; induction n as [|n IH]; intros [|m] [|c s] H; simpl;
    try reflexivity; try lia.
  rewrite IH by lia. reflexivity.
Qed.

(** [appendString] decodes a copy of at most four bytes; the result is that
    of decoding in place. *)
Lemma Decode_take4 (s : string) :
  utf8.DecodeRuneInString (take (Nat.min (String.length s) utf8.UTFMax) s)
  = utf8.DecodeRuneInString s.
Proof.
  destruct s as [|c s]; [reflexivity|].
  set (m := Nat.min (String.length (String c s)) utf8.UTFMax).
  assert (Hm : (1 <= m <= String.length (String c s))%nat).
  { unfold m, utf8.UTFMax. simpl. lia. }
  assert (Hm4 : (m = 4 \/ m = String.length (String c s))%nat).
  { unfold m, utf8.UTFMax. lia. }
  destruct (Decode_cases c s) as [H | H]; cbv zeta in H.
  - destruct m as [|m']; [lia|]. cbn [take].
    destruct (Decode_cases c (take m' s)) as [H' | H']; cbv zeta in H'.
    + apply invalid_eq in H, H'. congruence.
    + exfalso.
      destruct (utf8.DecodeRuneInString (String c (take m' s))) as [r' n'].
      cbn [fst snd] in H'.
      pose proof (decoded_size _ _ _ H') as [Hn Hl].
      change (String c (take m' s)) with (take (S m') (String c s)) in *.
      rewrite length_take, length_take in Hl.
      apply (decoded_app _ _ _ (drop n' (String c s))) in H'.
      rewrite take_take, take_drop in H' by lia.
      pose proof (decoded_valid _ _ _ H') as Hv.
      apply Decode_decoded in H'. rewrite H' in H. congruence.
  - destruct (utf8.DecodeRuneInString (String c s)) as [r n] eqn:E.
    cbn [fst snd] in H.
    pose proof (decoded_size _ _ _ H) as [Hn Hl].
    rewrite length_take in Hl.
    replace m with (n + (m - n))%nat by lia.
    rewrite take_add. now apply Decode_app.
Qed.

(** ** strconv *)

Lemma digit_spec (d : Z) :
  0 <= d < 10 ->
  strconv.isDigit (strconv.digit d) = true
  /\ byte (strconv.digit d) - byte "0" = d.
Proof.
  intros H. unfold strconv.isDigit, strconv.digit.
  change (byte "0") with 48. change (byte "9") with 57.
  rewrite byte_chr by lia. split; [|lia].
  apply andb_true_intro; split; apply Z.leb_le; lia.
Qed.

Lemma formatBits_app (fuel : nat) (u : Z) (acc : string) :
  strconv.formatBits fuel u acc = strconv.formatBits fuel u "" ++ acc.
Proof.
  revert u acc; induction fuel as [|fuel IH]; intros u acc; simpl;
    [reflexivity|].
  destruct (u <? 10); [reflexivity|].
  rewrite IH, (IH _ (String _ "")). now rewrite append_assoc.
Qed.

(** The digits written for [u], read back after any accumulated value. *)
Lemma parseDigits_formatBits (fuel : nat) (u : Z) (t : string) (a : Z) :
  0 <= u < 10 ^ Z.of_nat fuel ->
  exists k : Z,
    0 < k /\ (u < k) /\
    forall a, strconv.parseDigits (strconv.formatBits fuel u "" ++ t) a
              = strconv.parseDigits t (a * k + u).
Proof.
  revert u t a; induction fuel as [|fuel IH]; intros u t a Hu.
  - exists 1. change (10 ^ Z.of_nat 0) with 1 in Hu.
    split; [lia|]. split; [lia|]. intros a'. simpl. f_equal. lia.
  - cbn [strconv.formatBits].
    destruct (Z.ltb_spec u 10) as [Hlt | Hge].
    + exists 10. split; [lia|]. split; [lia|]. intros a'.
      destruct (digit_spec u ltac:(lia)) as [Hd Hv].
      cbn [append strconv.parseDigits]. rewrite Hd, Hv. reflexivity.
    + rewrite formatBits_app, append_assoc.
      assert (Hq : 0 <= u / 10 < 10 ^ Z.of_nat fuel).
      { rewrite Nat2Z.inj_succ, Z.pow_succ_r in Hu by lia.
        split; [apply Z.div_pos; lia | apply Z.div_lt_upper_bound; lia]. }
      destruct (IH (u / 10) (String (strconv.digit (u mod 10)) "" ++ t) a Hq)
        as (k & Hk & Hku & Hp).
      exists (k * 10). split; [lia|]. split.
      { pose proof (Z.div_mod u 10 ltac:(lia)).
        pose proof (Z.mod_pos_bound u 10 ltac:(lia)). nia. }
      intros a'. rewrite Hp.
      destruct (digit_spec (u mod 10)
                  ltac:(apply Z.mod_pos_bound; lia)) as [Hd Hv].
      cbn [append strconv.parseDigits]. rewrite Hd, Hv. f_equal.
      pose proof (Z.div_mod u 10 ltac:(lia)). lia.
Qed.

Lemma allDigits_app (s t : string) :
  allDigits (s ++ t) = allDigits s && allDigits t.
Proof.
  induction s as [|c s IH]; simpl; [reflexivity|].
  now rewrite IH, andb_assoc.
Qed.

Lemma spanDigits_app (ds : string) (c : ascii) (rest : string) :
  allDigits ds = true -> json.isDigit c = false ->
  json.spanDigits (ds ++ String c rest) = (ds, String c rest).
Proof.
  intros Hd Hc. induction ds as [|d ds IH]; simpl.
  - now rewrite Hc.
  - simpl in Hd. apply andb_prop in Hd as [H1 H2].
    rewrite H1, (IH H2). reflexivity.
Qed.

Lemma formatBits_digits (fuel : nat) (u : Z) :
  0 <= u -> allDigits (strconv.formatBits fuel u "") = true.
Proof.
  revert u; induction fuel as [|fuel IH]; intros u Hu; simpl;
    [reflexivity|].
  destruct (Z.ltb_spec u 10) as [Hlt | Hge].
  - simpl. rewrite andb_true_r. apply (digit_spec u). lia.
  - rewrite formatBits_app, allDigits_app.
    rewrite IH by (apply Z.div_pos; lia). simpl. rewrite andb_true_r.
    apply (digit_spec (u mod 10)). apply Z.mod_pos_bound. lia.
Qed.

Lemma formatBits_head (fuel : nat) (u : Z) :
  0 < u < 10 ^ Z.of_nat fuel ->
  exists d ds,
    strconv.formatBits fuel u "" = String d ds
    /\ json.isDigit d = true /\ Ascii.eqb d "0" = false
    /\ allDigits ds = true.
Proof.
  revert u; induction fuel as [|fuel IH]; intros u Hu.
  - change (10 ^ Z.of_nat 0) with 1 in Hu. lia.
  - cbn [strconv.formatBits].
    destruct (Z.ltb_spec u 10) as [Hlt | Hge].
    + exists (strconv.digit u), "". split; [reflexivity|].
      split; [apply (digit_spec u); lia|]. split; [|reflexivity].
      apply Ascii.eqb_neq. intros E.
      pose proof (proj2 (digit_spec u ltac:(lia))) as Hv.
      rewrite E in Hv. change (byte "0" - byte "0") with 0 in Hv. lia.
    + assert (Hq : 0 < u / 10 < 10 ^ Z.of_nat fuel).
      { rewrite Nat2Z.inj_succ, Z.pow_succ_r in Hu by lia.
        split; [apply Z.div_str_pos; lia
               | apply Z.div_lt_upper_bound; lia]. }
      destruct (IH _ Hq) as (d & ds & E & Hd & H0 & Hds).
      rewrite formatBits_app, E. cbn [append].
      exists d, (ds ++ String (strconv.digit (u mod 10)) "").
      repeat split; auto.
      rewrite allDigits_app, Hds. simpl. rewrite andb_true_r.
      apply (digit_spec (u mod 10)). apply Z.mod_pos_bound. lia.
Qed.

Lemma isDigit_cases (c : ascii) :
  json.isDigit c = true ->
  In c ["0"; "1"; "2"; "3"; "4"; "5"; "6"; "7"; "8"; "9"]%char.
Proof.
  destruct c as [[] [] [] [] [] [] [] []]; intros H; vm_compute in H;
    try discriminate H; simpl; tauto.
Qed.

Lemma ParseInt_FormatInt (i : Z) :
  int64b i = true -> strconv.ParseInt (strconv.FormatInt i) = Some i.
Proof.
  intros Hi. unfold int64b in Hi. apply andb_prop in Hi as [Hlo Hhi].
  apply Z.leb_le in Hlo. apply Z.ltb_lt in Hhi.
  assert (Hr : int64b i = true).
  { unfold int64b. apply andb_true_intro.
    split; [now apply Z.leb_le | now apply Z.ltb_lt]. }
  unfold strconv.FormatInt.
  destruct (Z.ltb_spec i 0) as [Hneg | Hpos].
  - destruct (formatBits_head 20 (- i)) as (d & ds & E & Hd & H0 & Hds);
      [change (10 ^ Z.of_nat 20) with 100000000000000000000; lia|].
    destruct (parseDigits_formatBits 20 (- i) "" 0) as (k & _ & _ & Hp);
      [change (10 ^ Z.of_nat 20) with 100000000000000000000; lia|].
    specialize (Hp 0). rewrite append_nil_r in Hp.
    unfold strconv.ParseInt. cbn [Ascii.eqb Bool.eqb].
    rewrite E in *. rewrite Hp. cbn [strconv.parseDigits].
    replace (- (0 * k + - i)) with i by lia. now rewrite Hr.
  - destruct (Z.eq_dec i 0) as [-> | Hnz]; [reflexivity|].
    destruct (formatBits_head 20 i) as (d & ds & E & Hd & H0 & Hds);
      [change (10 ^ Z.of_nat 20) with 100000000000000000000; lia|].
    destruct (parseDigits_formatBits 20 i "" 0) as (k & _ & _ & Hp);
      [change (10 ^ Z.of_nat 20) with 100000000000000000000; lia|].
    specialize (Hp 0). rewrite append_nil_r in Hp.
    unfold strconv.ParseInt. rewrite E in *.
    apply isDigit_cases in Hd. simpl in Hd.
    destruct Hd as [<-|[<-|[<-|[<-|[<-|[<-|[<-|[<-|[<-|[<-|[]]]]]]]]]]];
      cbn [Ascii.eqb Bool.eqb]; rewrite Hp; cbn [strconv.parseDigits];
      replace (0 * k + i) with i by lia; now rewrite Hr.
Qed.

(** ** json: numbers *)

Lemma scanNumber_digits (d : ascii) (ds t : string) :
  json.isDigit d = true -> Ascii.eqb d "0" = false -> allDigits ds = true ->
  json.scanNumber (String d (ds ++ String "," t))
  = Some (String d ds, String "," t).
Proof.
  intros Hd H0 Hds. apply isDigit_cases in Hd. simpl in Hd.
  destruct Hd as [<-|[<-|[<-|[<-|[<-|[<-|[<-|[<-|[<-|[<-|[]]]]]]]]]]];
    try discriminate H0;
    unfold json.scanNumber, json.scanInt;
    cbn [Ascii.eqb Bool.eqb json.isDigit];
    (rewrite spanDigits_app by (assumption || reflexivity));
    cbn; now rewrite append_nil_r.
Qed.

Lemma scanNumber_neg (d : ascii) (ds t : string) :
  json.isDigit d = true -> Ascii.eqb d "0" = false -> allDigits ds = true ->
  json.scanNumber (String "-" (String d (ds ++ String "," t)))
  = Some (String "-" (String d ds), String "," t).
Proof.
  intros Hd H0 Hds. apply isDigit_cases in Hd. simpl in Hd.
  destruct Hd as [<-|[<-|[<-|[<-|[<-|[<-|[<-|[<-|[<-|[<-|[]]]]]]]]]]];
    try discriminate H0;
    unfold json.scanNumber, json.scanInt;
    cbn [Ascii.eqb Bool.eqb json.isDigit];
    (rewrite spanDigits_app by (assumption || reflexivity));
    cbn; now rewrite append_nil_r.
Qed.

Lemma scanValue_number (f : nat) (depth : Z) (c : ascii) (s : string) :
  Ascii.eqb c "-" || json.isDigit c = true ->
  json.scanValue (S f) depth (String c s)
  = match json.scanNumber (String c s) with
    | Some (lit, s2) => Some (json.Number lit, s2)
    | None => None
    end.
Proof.
  intros H. apply orb_prop in H as [H | H].
  - apply Ascii.eqb_eq in H. subst c. reflexivity.
  - apply isDigit_cases in H. simpl in H.
    destruct H as [<-|[<-|[<-|[<-|[<-|[<-|[<-|[<-|[<-|[<-|[]]]]]]]]]]];
      reflexivity.
Qed.

Lemma scanValue_FormatInt (f : nat) (depth : Z) (i : Z) (t : string) :
  int64b i = true ->
  json.scanValue (S f) depth (strconv.FormatInt i ++ String "," t)
  = Some (json.Number (strconv.FormatInt i), String "," t).
Proof.
  intros Hi. unfold int64b in Hi. apply andb_prop in Hi as [Hlo Hhi].
  apply Z.leb_le in Hlo. apply Z.ltb_lt in Hhi.
  unfold strconv.FormatInt.
  destruct (Z.ltb_spec i 0) as [Hneg | Hpos].
  - destruct (formatBits_head 20 (- i)) as (d & ds & E & Hd & H0 & Hds);
      [change (10 ^ Z.of_nat 20) with 100000000000000000000; lia|].
    rewrite E. cbn [append].
    rewrite scanValue_number by reflexivity.
    now rewrite scanNumber_neg.
  - destruct (Z.eq_dec i 0) as [-> | Hnz]; [reflexivity|].
    destruct (formatBits_head 20 i) as (d & ds & E & Hd & H0 & Hds);
      [change (10 ^ Z.of_nat 20) with 100000000000000000000; lia|].
    rewrite E. cbn [append].
    rewrite scanValue_number by (rewrite Hd; apply orb_true_r).
    now rewrite scanNumber_digits.
Qed.

(** ** json: strings *)

Lemma consLit_nil {A} (r : option (string * A)) : json.consLit "" r = r.
Proof. now destruct r as [[lit rest]|]. Qed.

Lemma consLit_consLit {A} (p q : string) (r : option (string * A)) :
  json.consLit p (json.consLit q r) = json.consLit (p ++ q) r.
Proof. destruct r as [[lit rest]|]; simpl; [|reflexivity]. now rewrite append_assoc. Qed.

Lemma scanString_plain1 (c : ascii) (rest : string) :
  plain c = true ->
  json.scanString (String c rest)
  = json.consLit (String c "") (json.scanString rest).
Proof.
  unfold plain. intros H.
  apply andb_prop in H as [H H3]. apply andb_prop in H as [H1 H2].
  apply negb_true_iff in H1, H2, H3.
  cbn [json.scanString]. now rewrite H1, H2, H3.
Qed.

Lemma scanString_plain (p rest : string) :
  allPlain p = true ->
  json.scanString (p ++ rest) = json.consLit p (json.scanString rest).
Proof.
  induction p as [|c p IH]; intros H.
  - simpl. now rewrite consLit_nil.
  - simpl in H. apply andb_prop in H as [H1 H2].
    cbn [append]. rewrite scanString_plain1 by assumption.
    rewrite IH by assumption. now rewrite consLit_consLit.
Qed.

Lemma plain_high (c : ascii) : 0x80 <= byte c -> plain c = true.
Proof.
  intros H. unfold plain.
  destruct (Ascii.eqb_spec c json.dquote) as [-> | _];
    [change (byte json.dquote) with 34 in H; lia|].
  destruct (Ascii.eqb_spec c json.backslash) as [-> | _];
    [change (byte json.backslash) with 92 in H; lia|].
  destruct (Z.ltb_spec (byte c) 0x20); [lia | reflexivity].
Qed.

Lemma plain_safe (c : ascii) :
  json.htmlSafeSet (byte c) = true -> plain c = true.
Proof.
  unfold json.htmlSafeSet, plain. intros H.
  repeat (apply andb_prop in H as [H ?]).
  apply Z.leb_le in H.
  destruct (Ascii.eqb_spec c json.dquote) as [-> | _];
    [discriminate|].
  destruct (Ascii.eqb_spec c json.backslash) as [-> | _];
    [discriminate|].
  destruct (Z.ltb_spec (byte c) 0x20); [lia | reflexivity].
Qed.

Lemma decoded_plain (c0 : ascii) (s : string) (r : Z) (n : nat) :
  decoded (String c0 s) r n -> 0x80 <= byte c0 ->
  allPlain (take n (String c0 s)) = true.
Proof.
  intros H H0. inversion H as [c s' Hc | c c1 s' Hc | c c1 c2 s' Hc
                             | c c1 c2 c3 s' Hc]; subst;
    unfold seq2, seq3, seq4, cont in Hc; cbn [take allPlain];
    rewrite ?plain_high by lia; reflexivity.
Qed.

Lemma scanString_escapeByte (c : ascii) (rest : string) :
  byte c < 0x80 -> json.htmlSafeSet (byte c) = false ->
  json.scanString (json.escapeByte c ++ rest)
  = json.consLit (json.escapeByte c) (json.scanString rest).
Proof.
  intros H1 H2.
  destruct c as [[] [] [] [] [] [] [] []];
    try (vm_compute in H1; discriminate H1);
    try (vm_compute in H2; discriminate H2);
    destruct (json.scanString rest) as [[lit r]|] eqn:E;
    cbn; rewrite E; reflexivity.
Qed.

Lemma scanString_end (rest : string) :
  json.scanString (String json.dquote rest) = Some ("", rest).
Proof. reflexivity. Qed.

(** The scanner reads what [appendString] wrote as one literal. *)
Lemma scanString_appendStringLoop (n : nat) (s rest : string) :
  json.scanString (json.appendStringLoop n s ++ String json.dquote rest)
  = Some (json.appendStringLoop n s, rest).
Proof.
  revert s; induction n as [|n IH]; intros [|c s]; try reflexivity.
  cbn [json.appendStringLoop].
  destruct (Z.ltb_spec (byte c) utf8.RuneSelf) as [Hlo | Hhi].
  - destruct (json.htmlSafeSet (byte c)) eqn:Hs.
    + cbn [append]. rewrite scanString_plain1 by now apply plain_safe.
      rewrite IH. simpl. reflexivity.
    + rewrite append_assoc, scanString_escapeByte by assumption.
      rewrite IH. reflexivity.
  - rewrite Decode_take4.
    destruct (Decode_cases c s) as [H | H]; cbv zeta in H.
    + apply invalid_eq in H. rewrite H.
      cbn [Z.eqb utf8.RuneError Pos.eqb Nat.eqb andb].
      rewrite append_assoc. cbn [append json.scanString].
      cbn -[json.scanString json.appendStringLoop append drop].
      rewrite IH. reflexivity.
    + destruct (utf8.DecodeRuneInString (String c s)) as [r k] eqn:E.
      cbn [fst snd] in H.
      pose proof (decoded_valid _ _ _ H) as Hv. unfold invalid in Hv.
      cbn [fst snd] in Hv. rewrite Hv.
      destruct (Z.eqb_spec r 0x2028) as [-> | N1];
        [|destruct (Z.eqb_spec r 0x2029) as [-> | N2]]; cbn [orb].
      * rewrite !append_assoc.
        cbn -[json.scanString json.appendStringLoop append drop].
        cbn [append json.scanString].
        cbn -[json.scanString json.appendStringLoop append drop].
        rewrite IH. reflexivity.
      * rewrite !append_assoc.
        cbn -[json.scanString json.appendStringLoop append drop].
        cbn [append json.scanString].
        cbn -[json.scanString json.appendStringLoop append drop].
        rewrite IH. reflexivity.
      * rewrite append_assoc.
        rewrite scanString_plain
          by (apply (decoded_plain _ _ _ _ H); unfold utf8.RuneSelf in Hhi; lia).
        rewrite IH. reflexivity.
Qed.

(** ** json: unquoting *)

Lemma consOpt_nil (r : option string) : json.consOpt "" r = r.
Proof. now destruct r. Qed.

Lemma consOpt_consOpt (p q : string) (r : option string) :
  json.consOpt p (json.consOpt q r) = json.consOpt (p ++ q) r.
Proof. destruct r; simpl; [|reflexivity]. now rewrite append_assoc. Qed.

(** The loop never needs more fuel than there are bytes. *)
Lemma unquoteLoop_fuel (f1 f2 : nat) (t : string) :
  (String.length t <= f1)%nat -> (String.length t <= f2)%nat ->
  json.unquoteLoop f1 t = json.unquoteLoop f2 t.
Proof.
  revert f2 t; induction f1 as [|f1 IH]; intros f2 [|c t] H1 H2;
    try (now destruct f2); try (simpl in H1; lia).
  destruct f2 as [|f2]; [simpl in H2; lia|].
  pose proof (Decode_size c t) as Hsz.
  cbn [json.unquoteLoop].
  repeat match goal with
         | |- context [if ?b then _ else _] => destruct b
         | |- context [match ?s with EmptyString => _ | String _ _ => _ end] =>
           is_var s; destruct s
         | |- context [match ?d with pair _ _ => _ end] => destruct d
         end;
    try reflexivity; f_equal; apply IH;
    rewrite ?length_drop; cbn [snd String.length] in *; lia.
Qed.

Lemma plain_inv (c : ascii) :
  plain c = true ->
  Ascii.eqb c json.backslash = false /\ Ascii.eqb c json.dquote = false
  /\ (byte c <? 0x20) = false.
Proof.
  unfold plain. intros H.
  apply andb_prop in H as [H H3]. apply andb_prop in H as [H1 H2].
  apply negb_true_iff in H1, H2, H3. auto.
Qed.

Lemma unquoteLoop_plain1 (f : nat) (c : ascii) (t : string) :
  plain c = true -> byte c < utf8.RuneSelf ->
  json.unquoteLoop (S f) (String c t)
  = json.consOpt (String c "") (json.unquoteLoop f t).
Proof.
  intros Hp Hlo. destruct (plain_inv _ Hp) as (H1 & H2 & H3).
  cbn [json.unquoteLoop]. rewrite H1, H2, H3. cbn [orb].
  destruct (Z.ltb_spec (byte c) utf8.RuneSelf); [reflexivity | lia].
Qed.

Lemma unquoteLoop_rune (f : nat) (c : ascii) (s : string) (r : Z) (n : nat)
      (t : string) :
  decoded (String c s) r n -> utf8.RuneSelf <= byte c ->
  json.unquoteLoop (S f) (take n (String c s) ++ t)
  = json.consOpt (take n (String c s)) (json.unquoteLoop f t).
Proof.
  intros H Hhi.
  pose proof (decoded_size _ _ _ H) as [Hn Hl].
  pose proof (Decode_app _ _ _ t H) as E.
  pose proof (decoded_Encode _ _ _ H) as En.
  assert (Hp : plain c = true)
    by (apply plain_high; unfold utf8.RuneSelf in Hhi; lia).
  destruct (plain_inv _ Hp) as (H1 & H2 & H3).
  assert (D : drop n (take n (String c s) ++ t) = t).
  { rewrite <- Hl at 1. apply drop_app_length. }
  destruct n as [|n]; [lia|]. cbn [take append] in *.
  cbn [json.unquoteLoop]. rewrite H1, H2, H3. cbn [orb].
  destruct (Z.ltb_spec (byte c) utf8.RuneSelf); [lia|].
  rewrite E, En. cbn [drop] in *. now rewrite D.
Qed.

Lemma unquoteLoop_escapeByte (f : nat) (c : ascii) (t : string) :
  byte c < 0x80 -> json.htmlSafeSet (byte c) = false ->
  json.unquoteLoop (S f) (json.escapeByte c ++ t)
  = json.consOpt (String c "") (json.unquoteLoop f t).
Proof.
  intros H1 H2.
  destruct c as [[] [] [] [] [] [] [] []];
    try (vm_compute in H1; discriminate H1);
    try (vm_compute in H2; discriminate H2);
    reflexivity.
Qed.

Lemma length_escapeByte (c : ascii) :
  (1 <= String.length (json.escapeByte c))%nat.
Proof.
  unfold json.escapeByte.
  repeat match goal with
         | |- context [if ?b then _ else _] => destruct b
         end; simpl; lia.
Qed.

(** Unquoting what [appendString] wrote for a valid string gives the
    string back. *)
Lemma unquoteLoop_appendStringLoop (n : nat) (s : string) (f : nat) :
  utf8.validFrom n s = true ->
  (String.length (json.appendStringLoop n s) <= f)%nat ->
  json.unquoteLoop f (json.appendStringLoop n s) = Some s.
Proof.
  revert s f; induction n as [|n IH]; intros [|c s] f Hv Hf;
    try (now destruct f); try discriminate Hv.
  cbn [json.appendStringLoop utf8.validFrom] in *.
  destruct (Z.ltb_spec (byte c) utf8.RuneSelf) as [Hlo | Hhi].
  - rewrite (Decode_decoded _ _ _ (decoded1 c s Hlo)) in Hv.
    pose proof (decoded_valid _ _ _ (decoded1 c s Hlo)) as Hi.
    unfold invalid in Hi. cbn [fst snd] in Hi. rewrite Hi in Hv.
    cbn [drop] in Hv.
    destruct (json.htmlSafeSet (byte c)) eqn:Hs.
    + destruct f as [|f]; [simpl in Hf; lia|].
      rewrite unquoteLoop_plain1 by (auto using plain_safe).
      rewrite IH; [reflexivity | assumption | simpl in Hf; lia].
    + destruct f as [|f];
        [rewrite length_append in Hf;
         pose proof (length_escapeByte c); lia|].
      rewrite unquoteLoop_escapeByte by assumption.
      rewrite IH; [reflexivity | assumption |].
      rewrite length_append in Hf. pose proof (length_escapeByte c). lia.
  - rewrite Decode_take4 in *.
    destruct (Decode_cases c s) as [H | H]; cbv zeta in H.
    + apply invalid_eq in H. rewrite H in Hv. discriminate Hv.
    + destruct (utf8.DecodeRuneInString (String c s)) as [r k] eqn:E.
      cbn [fst snd] in H.
      pose proof (decoded_valid _ _ _ H) as Hi. unfold invalid in Hi.
      cbn [fst snd] in Hi. rewrite Hi in *.
      pose proof (decoded_Encode _ _ _ H) as En.
      pose proof (decoded_size _ _ _ H) as [Hk Hl].
      destruct f as [|f].
      { exfalso. revert Hf.
        destruct ((r =? 0x2028) || (r =? 0x2029));
          rewrite ?length_append; simpl String.length; try lia. }
      destruct (Z.eqb_spec r 0x2028) as [-> | N1];
        [|destruct (Z.eqb_spec r 0x2029) as [-> | N2]]; cbn [orb] in *.
      * change (json.unquoteLoop (S f) _)
          with (json.consOpt (utf8.EncodeRune 0x2028)
                  (json.unquoteLoop f
                     (json.appendStringLoop n (drop k (String c s))))).
        rewrite IH; [ | assumption
                      | rewrite !length_append in Hf; simpl in Hf; lia].
        rewrite En. simpl. now rewrite take_drop.
      * change (json.unquoteLoop (S f) _)
          with (json.consOpt (utf8.EncodeRune 0x2029)
                  (json.unquoteLoop f
                     (json.appendStringLoop n (drop k (String c s))))).
        rewrite IH; [ | assumption
                      | rewrite !length_append in Hf; simpl in Hf; lia].
        rewrite En. simpl. now rewrite take_drop.
      * rewrite (unquoteLoop_rune _ _ _ _ _ _ H Hhi).
        rewrite IH; [ | assumption | rewrite length_append in Hf; lia].
        simpl. now rewrite take_drop.
Qed.

(** The second loop of [unquoteBytes] copies the prefix the first loop
    accepts. *)
Lemma unquoteLoop_plainLen (n : nat) (t : string) (f : nat) :
  (String.length t <= f)%nat ->
  json.unquoteLoop f t
  = json.consOpt (take (json.plainLen n t) t)
                 (json.unquoteLoop f (drop (json.plainLen n t) t)).
Proof.
  revert t f; induction n as [|n IH]; intros [|c t] f Hf;
    try (cbn [json.plainLen take drop]; now rewrite consOpt_nil).
  cbn [json.plainLen].
  destruct (Ascii.eqb c json.backslash || Ascii.eqb c json.dquote
            || (byte c <? 0x20)) eqn:Hsp;
    [cbn [take drop]; now rewrite consOpt_nil|].
  assert (Hp : plain c = true).
  { unfold plain. apply orb_false_elim in Hsp as [Hsp H3].
    apply orb_false_elim in Hsp as [H1 H2]. now rewrite H1, H2, H3. }
  destruct f as [|f]; [simpl in Hf; lia|].
  destruct (Z.ltb_spec (byte c) utf8.RuneSelf) as [Hlo | Hhi].
  - cbn [take drop]. rewrite unquoteLoop_plain1 by assumption.
    rewrite (IH t f) by (simpl in Hf; lia).
    rewrite consOpt_consOpt. cbn [append]. apply f_equal.
    apply unquoteLoop_fuel; rewrite length_drop; simpl in Hf; lia.
  - destruct (Decode_cases c t) as [H | H]; cbv zeta in H.
    + apply invalid_eq in H. rewrite H.
      cbn [Z.eqb utf8.RuneError Pos.eqb Nat.eqb andb take drop].
      now rewrite consOpt_nil.
    + destruct (utf8.DecodeRuneInString (String c t)) as [r k] eqn:E.
      cbn [fst snd] in H.
      pose proof (decoded_valid _ _ _ H) as Hi. unfold invalid in Hi.
      cbn [fst snd] in Hi. rewrite Hi.
      pose proof (decoded_size _ _ _ H) as [Hk Hl].
      rewrite take_add, drop_add.
      rewrite <- (take_drop k (String c t)) at 1.
      rewrite (unquoteLoop_rune _ _ _ _ _ _ H Hhi).
      rewrite (IH (drop k (String c t)) f)
        by (rewrite length_drop; cbn [String.length] in *; lia).
      rewrite consOpt_consOpt. apply f_equal.
      apply unquoteLoop_fuel; rewrite !length_drop; cbn [String.length] in *; lia.
Qed.

Lemma take_length (t : string) : take (String.length t) t = t.
Proof. induction t as [|c t IH]; simpl; [reflexivity | now rewrite IH]. Qed.

Lemma drop_length (t : string) : drop (String.length t) t = "".
Proof. induction t as [|c t IH]; simpl; auto. Qed.

Lemma unquoteBytes_unquoteLoop (t : string) :
  json.unquoteBytes t = json.unquoteLoop (String.length t) t.
Proof.
  unfold json.unquoteBytes.
  rewrite (unquoteLoop_plainLen (String.length t) t (String.length t))
    by apply Nat.le_refl.
  destruct (Nat.eqb_spec (json.plainLen (String.length t) t)
                         (String.length t)) as [E | N]; [|reflexivity].
  rewrite E, take_length, drop_length.
  destruct (String.length t); simpl; now rewrite append_nil_r.
Qed.

Lemma unquoteBytes_appendString (s : string) :
  utf8.ValidString s = true ->
  json.unquoteBytes (json.appendStringLoop (String.length s) s) = Some s.
Proof.
  intros H. rewrite unquoteBytes_unquoteLoop.
  now apply unquoteLoop_appendStringLoop.
Qed.

(** ** json: the object of an [Error] *)

Lemma Marshal_objectText (e : Error) :
  json.Marshal (Some e)
  = objectText (json.appendStringLoop (String.length (Id e)) (Id e))
               (strconv.FormatInt (Code e))
               (json.appendStringLoop (String.length (Detail e)) (Detail e))
               (json.appendStringLoop (String.length (Status e)) (Status e)).
Proof.
  unfold json.Marshal, json.appendString, json.nameQuoted, objectText, q.
  cbn [append]. rewrite !append_assoc. cbn [append]. reflexivity.
Qed.

Lemma token_here (c : ascii) (s : string) :
  json.isSpace c = false -> json.token c (String c s) = Some s.
Proof.
  intros H. unfold json.token. cbn [json.skipSpace]. rewrite H.
  now rewrite Ascii.eqb_refl.
Qed.

Lemma token_other (c c' : ascii) (s : string) :
  json.isSpace c' = false -> Ascii.eqb c' c = false ->
  json.token c (String c' s) = None.
Proof.
  intros H E. unfold json.token. cbn [json.skipSpace]. now rewrite H, E.
Qed.

Lemma scanMembers_member (f : nat) (d : Z) (k s3 : string) :
  allPlain k = true ->
  json.scanMembers (S f) d (String q (k ++ String q (String ":" s3)))
  = match json.scanValue f d s3 with
    | None => None
    | Some (v, s4) =>
      match json.token "," s4 with
      | Some s5 =>
        match json.scanMembers f d s5 with
        | Some (ms, s6) => Some ((k, v) :: ms, s6)
        | None => None
        end
      | None =>
        match json.token "}" s4 with
        | Some s5 => Some ([(k, v)], s5)
        | None => None
        end
      end
    end.
Proof.
  intros Hk. cbn [json.scanMembers].
  unfold q. rewrite token_here by reflexivity.
  rewrite scanString_plain by assumption.
  rewrite scanString_end. cbn [json.consLit]. rewrite append_nil_r.
  rewrite token_here by reflexivity. reflexivity.
Qed.

Lemma scanValue_string (f : nat) (d : Z) (l rest : string) :
  (forall rest, json.scanString (l ++ String q rest) = Some (l, rest)) ->
  json.scanValue (S f) d (String q (l ++ String q rest))
  = Some (json.Str l, rest).
Proof.
  intros H. cbn [json.scanValue json.skipSpace].
  change (json.isSpace q) with false. cbv iota.
  change (Ascii.eqb q "{") with false.
  change (Ascii.eqb q "[") with false.
  change (Ascii.eqb q json.dquote) with true. cbv iota.
  now rewrite H.
Qed.

Lemma scanValue_object (f : nat) (s1 : string) :
  json.scanValue (S f) 0 (String "{" (String q s1))
  = match json.scanMembers f 1 (String q s1) with
    | Some (ms, s2) => Some (json.Object ms, s2)
    | None => None
    end.
Proof.
  cbn [json.scanValue json.skipSpace].
  change (json.isSpace "{") with false. cbv iota.
  change (Ascii.eqb "{" "{") with true. cbv iota.
  change (json.maxNestingDepth <? 0 + 1) with false. cbv iota.
  unfold q. rewrite token_other by reflexivity. reflexivity.
Qed.

Ltac member k :=
  let H := fresh in
  pose proof (fun f d s3 => scanMembers_member f d k s3 eq_refl) as H;
  cbn [append] in H; rewrite H; clear H.

Ltac separator c := rewrite (token_here c) by reflexivity.
Ltac no_separator c := rewrite (token_other c) by reflexivity.

Section ScanObject.

Variables l1 n l2 l3 : string.

Hypothesis scan1 : forall rest,
  json.scanString (l1 ++ String q rest) = Some (l1, rest).
Hypothesis scan2 : forall rest,
  json.scanString (l2 ++ String q rest) = Some (l2, rest).
Hypothesis scan3 : forall rest,
  json.scanString (l3 ++ String q rest) = Some (l3, rest).
Hypothesis scanN : forall f d t,
  json.scanValue (S f) d (n ++ String "," t)
  = Some (json.Number n, String "," t).

Lemma scanValue_objectText (f : nat) :
  json.scanValue (6 + f) 0 (objectText l1 n l2 l3)
  = Some (json.Object [("id", json.Str l1); ("code", json.Number n);
                       ("detail", json.Str l2); ("status", json.Str l3)],
          "").
Proof.
  unfold objectText. cbn [append].
  change (6 + f)%nat with (S (S (S (S (S (S f)))))).
  rewrite scanValue_object.
  member "id".
  rewrite (scanValue_string _ _ _ _ scan1).
  separator ","%char.
  member "code".
  rewrite scanN.
  separator ","%char.
  member "detail".
  rewrite (scanValue_string _ _ _ _ scan2).
  separator ","%char.
  member "status".
  rewrite (scanValue_string _ _ _ _ scan3).
  no_separator ","%char. separator "}"%char.
  reflexivity.
Qed.

End ScanObject.

(** ** json: the scanner's fuel *)

Lemma length_skipSpace (s : string) :
  (String.length (json.skipSpace s) <= String.length s)%nat.
Proof.
  induction s as [|c s IH]; simpl; [lia|].
  destruct (json.isSpace c); simpl; lia.
Qed.

Lemma consLit_Some {A} (pre : string) (r : option (string * A))
      (lit : string) (rest : A) :
  json.consLit pre r = Some (lit, rest) ->
  exists lit', r = Some (lit', rest).
Proof.
  destruct r as [[l x]|]; simpl; intros H; [|discriminate].
  injection H as _ <-. eauto.
Qed.

Lemma scanString_shorter (n : nat) (s lit rest : string) :
  (String.length s <= n)%nat ->
  json.scanString s = Some (lit, rest) ->
  (String.length rest < String.length s)%nat.
Proof.
  revert s lit rest; induction n as [|n IH]; intros [|c s] lit rest Hn H;
    try discriminate H; [simpl in Hn; lia|].
  cbn [json.scanString] in H. cbn [String.length] in *.
  repeat match type of H with
         | (if ?b then _ else _) = _ => destruct b
         | match ?s with EmptyString => _ | String _ _ => _ end = _ =>
           destruct s
         end;
    try discriminate H;
    try (injection H as _ <-; lia);
    apply consLit_Some in H as [lit' H];
    apply IH in H; cbn [String.length] in *; lia.
Qed.

Lemma length_spanDigits (s : string) :
  (String.length (snd (json.spanDigits s)) <= String.length s)%nat.
Proof.
  induction s as [|c s IH]; simpl; [lia|].
  destruct (json.isDigit c); [|simpl; lia].
  destruct (json.spanDigits s); simpl in *. lia.
Qed.

Ltac span_bound x :=
  let L := fresh "L" in
  pose proof (length_spanDigits x) as L;
  destruct (json.spanDigits x) as [? ?]; cbn [snd] in L.

Lemma scanInt_shorter (s lit rest : string) :
  json.scanInt s = Some (lit, rest) ->
  (String.length rest < String.length s)%nat.
Proof.
  unfold json.scanInt. destruct s as [|c s]; [discriminate|].
  destruct (Ascii.eqb c "0").
  - intros H. injection H as _ <-. simpl. lia.
  - destruct (json.isDigit c); [|discriminate].
    span_bound s. intros H. injection H as _ <-. simpl. lia.
Qed.

Lemma scanFrac_le (s lit rest : string) :
  json.scanFrac s = Some (lit, rest) ->
  (String.length rest <= String.length s)%nat.
Proof.
  unfold json.scanFrac. destruct s as [|c s].
  - intros H. injection H as _ <-. lia.
  - destruct (Ascii.eqb c ".").
    + span_bound s. destruct s0; [discriminate|].
      intros H. injection H as _ <-. simpl. lia.
    + intros H. injection H as _ <-. lia.
Qed.

Lemma scanExp_le (s lit rest : string) :
  json.scanExp s = Some (lit, rest) ->
  (String.length rest <= String.length s)%nat.
Proof.
  unfold json.scanExp. destruct s as [|c s].
  - intros H. injection H as _ <-. lia.
  - destruct (Ascii.eqb c "e" || Ascii.eqb c "E").
    + destruct s as [|g s].
      * simpl. discriminate.
      * destruct (Ascii.eqb g "+" || Ascii.eqb g "-").
        -- span_bound s. destruct s0; [discriminate|].
           intros H. injection H as _ <-. simpl. lia.
        -- span_bound (String g s). destruct s0; [discriminate|].
           intros H. injection H as _ <-. simpl in *. lia.
    + intros H. injection H as _ <-. lia.
Qed.

Lemma scanNumber_shorter (s lit rest : string) :
  json.scanNumber s = Some (lit, rest) ->
  (String.length rest < String.length s)%nat.
Proof.
  unfold json.scanNumber.
  set (p := match s with
            | EmptyString => ("", s)
            | String c s' => if Ascii.eqb c "-" then ("-", s') else ("", s)
            end).
  assert (Hp : (String.length (snd p) <= String.length s)%nat).
  { subst p. destruct s as [|c s]; [simpl; lia|].
    destruct (Ascii.eqb c "-"); simpl; lia. }
  destruct p as [sign s1]. cbn [snd] in Hp.
  destruct (json.scanInt s1) as [[ip s2]|] eqn:E1; [|discriminate].
  destruct (json.scanFrac s2) as [[fp s3]|] eqn:E2; [|discriminate].
  destruct (json.scanExp s3) as [[ep s4]|] eqn:E3; [|discriminate].
  intros H. injection H as _ <-.
  apply scanInt_shorter in E1. apply scanFrac_le in E2.
  apply scanExp_le in E3. lia.
Qed.

Lemma expect_le (w s rest : string) :
  json.expect w s = Some rest ->
  (String.length rest <= String.length s)%nat.
Proof.
  revert s; induction w as [|a w IH]; intros [|b s] H; simpl in *;
    try discriminate H; try (injection H as <-; simpl; lia).
  destruct (Ascii.eqb a b); [|discriminate]. apply IH in H. lia.
Qed.

Lemma token_shorter (c : ascii) (s rest : string) :
  json.token c s = Some rest ->
  (String.length rest < String.length s)%nat.
Proof.
  unfold json.token. pose proof (length_skipSpace s) as L.
  destruct (json.skipSpace s) as [|c' s']; [discriminate|].
  destruct (Ascii.eqb c' c); [|discriminate].
  intros H. injection H as <-. simpl in L. lia.
Qed.

(** Case analysis along the body of the three scanning functions;
    [IHv], [IHe] and [IHm] are applied to the recursive calls. *)
Ltac scan_cases H IHv IHe IHm :=
  repeat match type of H with
         | match json.skipSpace ?x with _ => _ end = _ =>
           let L := fresh "L" in
           pose proof (length_skipSpace x) as L;
           destruct (json.skipSpace x); cbn [String.length] in L
         | (if ?b then _ else _) = _ => destruct b
         | match json.token ?c ?x with _ => _ end = _ =>
           let E := fresh "E" in
           destruct (json.token c x) eqn:E; [apply token_shorter in E|]
         | match json.scanString ?x with _ => _ end = _ =>
           let E := fresh "E" in
           destruct (json.scanString x) as [[? ?]|] eqn:E;
           [apply (scanString_shorter _ _ _ _ (Nat.le_refl _)) in E|]
         | match json.scanNumber ?x with _ => _ end = _ =>
           let E := fresh "E" in
           destruct (json.scanNumber x) as [[? ?]|] eqn:E;
           [apply scanNumber_shorter in E; cbn [String.length] in E|]
         | option_map _ (json.expect ?w ?x) = _ =>
           let E := fresh "E" in
           destruct (json.expect w x) eqn:E;
           [apply expect_le in E|]; cbn [option_map] in H
         | match json.scanValue ?f ?d ?x with _ => _ end = _ =>
           let E := fresh "E" in
           destruct (json.scanValue f d x) as [[? ?]|] eqn:E;
           [apply IHv in E|]
         | match json.scanElements ?f ?d ?x with _ => _ end = _ =>
           let E := fresh "E" in
           destruct (json.scanElements f d x) as [[? ?]|] eqn:E;
           [apply IHe in E|]
         | match json.scanMembers ?f ?d ?x with _ => _ end = _ =>
           let E := fresh "E" in
           destruct (json.scanMembers f d x) as [[? ?]|] eqn:E;
           [apply IHm in E|]
         end;
  try discriminate H.

(** Every scanning function consumes input. *)
Lemma scan_shorter (f : nat) :
  (forall d s v rest,
      json.scanValue f d s = Some (v, rest) ->
      (String.length rest < String.length s)%nat)
  /\ (forall d s vs rest,
         json.scanElements f d s = Some (vs, rest) ->
         (String.length rest < String.length s)%nat)
  /\ (forall d s ms rest,
         json.scanMembers f d s = Some (ms, rest) ->
         (String.length rest < String.length s)%nat).
Proof.
  induction f as [|f (IHv & IHe & IHm)]; [repeat split; discriminate|].
  repeat split; intros d s v rest H.
  - cbn [json.scanValue] in H. scan_cases H IHv IHe IHm;
      injection H as _ <-; lia.
  - cbn [json.scanElements] in H. scan_cases H IHv IHe IHm;
      injection H as _ <-; lia.
  - cbn [json.scanMembers] in H. scan_cases H IHv IHe IHm;
      injection H as _ <-; lia.
Qed.

Ltac fuel_cases g IHv IHe IHm :=
  repeat match goal with
         | |- match json.skipSpace ?x with _ => _ end = _ -> _ =>
           let L := fresh "L" in
           pose proof (length_skipSpace x) as L;
           destruct (json.skipSpace x); cbn [String.length] in L
         | |- (if ?b then _ else _) = _ -> _ => destruct b
         | |- match json.token ?c ?x with _ => _ end = _ -> _ =>
           let E := fresh "E" in
           destruct (json.token c x) eqn:E; [apply token_shorter in E|]
         | |- match json.scanString ?x with _ => _ end = _ -> _ =>
           let E := fresh "E" in
           destruct (json.scanString x) as [[? ?]|] eqn:E;
           [apply (scanString_shorter _ _ _ _ (Nat.le_refl _)) in E|]
         | |- match json.scanNumber ?x with _ => _ end = _ -> _ =>
           let E := fresh "E" in
           destruct (json.scanNumber x) as [[? ?]|] eqn:E
         | |- option_map _ (json.expect ?w ?x) = _ -> _ =>
           let E := fresh "E" in
           destruct (json.expect w x) eqn:E
         | |- match json.scanValue ?f ?d ?x with _ => _ end = _ -> _ =>
           let E := fresh "E" in
           let F := fresh "F" in
           destruct (json.scanValue f d x) as [[? ?]|] eqn:E;
           [ pose proof (proj1 (scan_shorter f) _ _ _ _ E) as F;
             apply (IHv g) in E; [rewrite E | lia]
           | ]
         | |- match json.scanElements ?f ?d ?x with _ => _ end = _ -> _ =>
           let E := fresh "E" in
           let F := fresh "F" in
           destruct (json.scanElements f d x) as [[? ?]|] eqn:E;
           [ pose proof (proj1 (proj2 (scan_shorter f)) _ _ _ _ E) as F;
             apply (IHe g) in E; [rewrite E | lia]
           | ]
         | |- match json.scanMembers ?f ?d ?x with _ => _ end = _ -> _ =>
           let E := fresh "E" in
           let F := fresh "F" in
           destruct (json.scanMembers f d x) as [[? ?]|] eqn:E;
           [ pose proof (proj2 (proj2 (scan_shorter f)) _ _ _ _ E) as F;
             apply (IHm g) in E; [rewrite E | lia]
           | ]
         end;
  try discriminate; try (intros H; exact H).

(** A result found with some fuel is found with any fuel above twice the
    length of the input: the scanner never fails for lack of fuel. *)
Lemma scan_fuel (f : nat) :
  (forall g d s r,
      json.scanValue f d s = Some r ->
      (2 * String.length s + 1 <= g)%nat ->
      json.scanValue g d s = Some r)
  /\ (forall g d s r,
         json.scanElements f d s = Some r ->
         (2 * String.length s + 2 <= g)%nat ->
         json.scanElements g d s = Some r)
  /\ (forall g d s r,
         json.scanMembers f d s = Some r ->
         (2 * String.length s + 2 <= g)%nat ->
         json.scanMembers g d s = Some r).
Proof.
  induction f as [|f (IHv & IHe & IHm)]; [repeat split; discriminate|].
  repeat split; intros [|g] d s r H Hg; try lia; revert H.
  - cbn [json.scanValue]. fuel_cases g IHv IHe IHm.
  - cbn [json.scanElements]. fuel_cases g IHv IHe IHm.
  - cbn [json.scanMembers]. fuel_cases g IHv IHe IHm.
Qed.

Lemma scan_adequate (data : string) (f : nat) (v : json.value)
      (rest : string) :
  json.scanValue f 0 data = Some (v, rest) ->
  json.scanValue (S (2 * String.length data)) 0 data = Some (v, rest).
Proof.
  intros H. apply (proj1 (scan_fuel f) _ _ _ _ H). lia.
Qed.

Lemma scan_None_any_fuel (data : string) (f : nat) (v : json.value)
      (rest : string) :
  json.scan data = None ->
  json.scanValue f 0 data = Some (v, rest) ->
  json.skipSpace rest <> "".
Proof.
  intros Hs H. apply scan_adequate in H. unfold json.scan in Hs.
  rewrite H in Hs. now destruct (json.skipSpace rest).
Qed.

(** ** json: the fuel of the string loops

    Each loop consumes at least one byte per round, so fuel equal to the
    length of the string is never used up. *)

Lemma appendStringLoop_fuel (f1 f2 : nat) (s : string) :
  (String.length s <= f1)%nat -> (String.length s <= f2)%nat ->
  json.appendStringLoop f1 s = json.appendStringLoop f2 s.
Proof.
  revert f2 s; induction f1 as [|f1 IH]; intros f2 [|c s] H1 H2;
    try (now destruct f2); try (simpl in H1; lia).
  destruct f2 as [|f2]; [simpl in H2; lia|].
  pose proof (Decode_size c s) as Hsz.
  cbn [json.appendStringLoop]. rewrite Decode_take4.
  destruct (utf8.DecodeRuneInString (String c s)) as [r k].
  cbn [snd] in Hsz.
  assert (Hd : json.appendStringLoop f1 (drop k (String c s))
               = json.appendStringLoop f2 (drop k (String c s))).
  { apply IH; rewrite length_drop; cbn [String.length] in *; lia. }
  assert (Ht : json.appendStringLoop f1 s = json.appendStringLoop f2 s).
  { apply IH; cbn [String.length] in *; lia. }
  now rewrite Hd, Ht.
Qed.

Lemma validFrom_fuel (f1 f2 : nat) (s : string) :
  (String.length s <= f1)%nat -> (String.length s <= f2)%nat ->
  utf8.validFrom f1 s = utf8.validFrom f2 s.
Proof.
  revert f2 s; induction f1 as [|f1 IH]; intros f2 [|c s] H1 H2;
    try (now destruct f2); try (simpl in H1; lia).
  destruct f2 as [|f2]; [simpl in H2; lia|].
  pose proof (Decode_size c s) as Hsz.
  cbn [utf8.validFrom].
  destruct (utf8.DecodeRuneInString (String c s)) as [r k].
  cbn [snd] in Hsz.
  destruct ((r =? utf8.RuneError) && Nat.eqb k 1); [reflexivity|].
  apply IH; rewrite length_drop; cbn [String.length] in *; lia.
Qed.

(** ** json: the decoder does not panic *)

Lemma consLit_inv {A} (pre : string) (r : option (string * A))
      (lit : string) (rest : A) :
  json.consLit pre r = Some (lit, rest) ->
  exists lit', r = Some (lit', rest) /\ lit = pre ++ lit'.
Proof.
  destruct r as [[l x]|]; simpl; intros H; [|discriminate].
  injection H as <- <-. eauto.
Qed.

Lemma scanString_escaped (n : nat) (s lit rest : string) :
  (String.length s <= n)%nat ->
  json.scanString s = Some (lit, rest) -> escaped lit.
Proof.
  revert s lit rest; induction n as [|n IH]; intros [|c s] lit rest Hn H;
    try discriminate H; [simpl in Hn; lia|].
  cbn [json.scanString] in H. cbn [String.length] in Hn.
  destruct (Ascii.eqb c json.dquote) eqn:Eq.
  { injection H as <- _. constructor. }
  destruct (Ascii.eqb_spec c json.backslash) as [-> | Nb].
  - destruct s as [|e s]; [discriminate|].
    destruct (json.isEscape e) eqn:Ee.
    + apply consLit_inv in H as (lit' & H & ->).
      apply IH in H; [|simpl in Hn; lia].
      cbn [append]. now apply escaped_simple.
    + destruct (Ascii.eqb_spec e "u") as [-> | Nu]; [|discriminate].
      destruct s as [|h1 [|h2 [|h3 [|h4 s]]]]; try discriminate.
      destruct (json.isHex h1 && json.isHex h2 && json.isHex h3
                && json.isHex h4) eqn:Eh; [|discriminate].
      apply consLit_inv in H as (lit' & H & ->).
      apply IH in H; [|simpl in Hn; lia].
      cbn [append]. now apply escaped_u.
  - destruct (byte c <? 0x20) eqn:El; [discriminate|].
    apply consLit_inv in H as (lit' & H & ->).
    apply IH in H; [|lia].
    cbn [append]. apply escaped_plain; [|assumption].
    unfold plain. rewrite Eq, El.
    now destruct (Ascii.eqb_spec c json.backslash).
Qed.

Lemma plain_backslash : plain json.backslash = false.
Proof. reflexivity. Qed.

Lemma escaped_high (c : ascii) (l : string) :
  escaped (String c l) -> 0x80 <= byte c -> escaped l.
Proof.
  intros H Hc. inversion H; subst; auto;
    change (byte json.backslash) with 92 in Hc; lia.
Qed.

Lemma getu4_form (s : string) :
  0 <= json.getu4 s ->
  exists h1 h2 h3 h4 t,
    s = String json.backslash
          (String "u" (String h1 (String h2 (String h3 (String h4 t))))).
Proof.
  unfold json.getu4.
  destruct s as [|b [|u [|h1 [|h2 [|h3 [|h4 t]]]]]]; try lia.
  destruct (Ascii.eqb_spec b json.backslash) as [-> | N];
    [|cbn [andb]; lia].
  destruct (Ascii.eqb_spec u "u") as [-> | N]; [|cbn [andb]; lia].
  intros _. now exists h1, h2, h3, h4, t.
Qed.

Lemma escaped_drop6 (l : string) :
  escaped l -> 0 <= json.getu4 l -> escaped (drop 6 l).
Proof.
  intros He Hg. destruct (getu4_form _ Hg) as (h1 & h2 & h3 & h4 & t & ->).
  inversion He; subst; try discriminate; assumption.
Qed.

Lemma hexVal_isHex (h : ascii) :
  json.isHex h = true -> exists d, json.hexVal h = Some d /\ 0 <= d < 16.
Proof.
  unfold json.isHex, json.hexVal, json.isDigit.
  change (byte "0") with 48. change (byte "9") with 57.
  change (byte "a") with 97. change (byte "f") with 102.
  change (byte "A") with 65. change (byte "F") with 70.
  intros H.
  destruct (Z.leb_spec 48 (byte h)), (Z.leb_spec (byte h) 57);
    cbn [andb orb] in *; try (eexists; split; [reflexivity | lia]);
    destruct (Z.leb_spec 97 (byte h)), (Z.leb_spec (byte h) 102);
    cbn [andb orb] in *; try (eexists; split; [reflexivity | lia]);
    destruct (Z.leb_spec 65 (byte h)), (Z.leb_spec (byte h) 70);
    cbn [andb orb] in *; try (eexists; split; [reflexivity | lia]);
    discriminate H.
Qed.

Lemma getu4_hex (h1 h2 h3 h4 : ascii) (t : string) :
  json.isHex h1 && json.isHex h2 && json.isHex h3 && json.isHex h4 = true ->
  0 <= json.getu4 (String json.backslash
                     (String "u" (String h1 (String h2
                        (String h3 (String h4 t)))))).
Proof.
  intros H. repeat (apply andb_prop in H as [H ?]).
  destruct (hexVal_isHex h1) as (d1 & E1 & R1); [assumption|].
  destruct (hexVal_isHex h2) as (d2 & E2 & R2); [assumption|].
  destruct (hexVal_isHex h3) as (d3 & E3 & R3); [assumption|].
  destruct (hexVal_isHex h4) as (d4 & E4 & R4); [assumption|].
  unfold json.getu4. cbn [Ascii.eqb Bool.eqb andb].
  change (Ascii.eqb json.backslash json.backslash) with true.
  cbn [andb]. rewrite E1, E2, E3, E4. nia.
Qed.

Lemma isEscape_cases (e : ascii) :
  json.isEscape e = true ->
  In e ["b"; "f"; "n"; "r"; "t"; json.backslash; "/"; json.dquote]%char.
Proof.
  destruct e as [[] [] [] [] [] [] [] []]; intros H; vm_compute in H;
    try discriminate H; simpl; tauto.
Qed.

Lemma surrogate_pair (rr rr1 : Z) :
  negb (utf16.DecodeRune rr rr1 =? utf16.replacementChar) = true ->
  0 <= rr1.
Proof.
  unfold utf16.DecodeRune, utf16.surr1, utf16.surr2, utf16.surr3.
  destruct (Z.leb_spec 0xd800 rr), (Z.ltb_spec rr 0xdc00),
    (Z.leb_spec 0xdc00 rr1), (Z.ltb_spec rr1 0xe000);
    cbn [andb]; try lia;
    rewrite Z.eqb_refl; discriminate.
Qed.

Lemma drop6 (a b c d e f : ascii) (t : string) :
  drop 6 (String a (String b (String c (String d (String e (String f t))))))
  = t.
Proof. reflexivity. Qed.

(** A literal the scanner accepted is unquoted without failure. *)
Lemma escaped_unquoteLoop (n : nat) (l : string) (f : nat) :
  (String.length l <= n)%nat -> escaped l -> (String.length l <= f)%nat ->
  exists u, json.unquoteLoop f l = Some u.
Proof.
  revert l f; induction n as [|n IH]; intros l f Hn He Hf.
  { destruct l; [|simpl in Hn; lia]. destruct f; simpl; eauto. }
  inversion He as [ | c l' Hp He' | e l' Hesc He' | h1 h2 h3 h4 l' Hh He'];
    subst.
  - destruct f; simpl; eauto.
  - destruct f as [|f]; [simpl in Hf; lia|]. cbn [String.length] in *.
    destruct (plain_inv _ Hp) as (H1 & H2 & H3).
    cbn [json.unquoteLoop]. rewrite H1, H2, H3. cbn [orb].
    destruct (Z.ltb_spec (byte c) utf8.RuneSelf) as [Hlo | Hhi].
    + destruct (IH l' f) as [u Hu]; [lia | assumption | lia |].
      rewrite Hu. simpl. eauto.
    + unfold utf8.RuneSelf in Hhi.
      assert (Hd : exists k,
                 snd (utf8.DecodeRuneInString (String c l')) = S k
                 /\ escaped (drop k l')).
      { pose proof (Decode_cases c l') as H. cbv zeta in H.
        destruct (utf8.DecodeRuneInString (String c l')) as [rr size].
        cbn [fst snd] in *. destruct H as [H | H].
        - apply invalid_eq in H. injection H as _ ->.
          exists 0%nat. now split.
        - inversion H as [ ? ? Hc | ? c1 s Hc | ? c1 c2 s Hc
                           | ? c1 c2 c3 s Hc ]; subst;
            unfold seq2, seq3, seq4, cont in Hc.
          + lia.
          + exists 1%nat. split; [reflexivity | ]. cbn [drop].
            apply (escaped_high c1); [assumption | lia].
          + exists 2%nat. split; [reflexivity | ]. cbn [drop].
            apply (escaped_high c2); [|lia].
            apply (escaped_high c1); [assumption | lia].
          + exists 3%nat. split; [reflexivity | ]. cbn [drop].
            apply (escaped_high c3); [|lia].
            apply (escaped_high c2); [|lia].
            apply (escaped_high c1); [assumption | lia]. }
      destruct Hd as (k & Ek & Hk).
      destruct (utf8.DecodeRuneInString (String c l')) as [rr size].
      cbn [snd] in Ek. subst size. cbn [drop].
      destruct (IH (drop k l') f) as [u Hu];
        [rewrite length_drop; lia | assumption | rewrite length_drop; lia |].
      rewrite Hu. simpl. eauto.
  - destruct f as [|f]; [simpl in Hf; lia|]. cbn [String.length] in *.
    destruct (IH l' f) as [u Hu]; [lia | assumption | lia |].
    apply isEscape_cases in Hesc. simpl in Hesc.
    destruct Hesc as [<-|[<-|[<-|[<-|[<-|[<-|[<-|[<-|[]]]]]]]]];
      cbn; rewrite Hu; simpl; eauto.
  - destruct f as [|f]; [simpl in Hf; lia|]. cbn [String.length] in *.
    pose proof (getu4_hex h1 h2 h3 h4 l' Hh) as Hg.
    cbn [json.unquoteLoop].
    change (Ascii.eqb json.backslash json.backslash) with true. cbv iota.
    cbn [Ascii.eqb Bool.eqb orb json.dquote json.backslash]. cbv iota.
    fold json.backslash.
    destruct (Z.ltb_spec (json.getu4 (String json.backslash (String "u"
               (String h1 (String h2 (String h3 (String h4 l')))))))
               0) as [Hneg | _]; [lia|].
    rewrite !drop6.
    destruct (utf16.IsSurrogate _).
    + destruct (negb (utf16.DecodeRune _ (json.getu4 l')
                      =? utf16.replacementChar)) eqn:Ep.
      * apply surrogate_pair in Ep.
        destruct (IH (drop 6 l') f) as [u Hu];
          [rewrite length_drop; lia | now apply escaped_drop6
           | rewrite length_drop; lia |].
        rewrite Hu. simpl. eauto.
      * destruct (IH l' f) as [u Hu]; [lia | assumption | lia |].
        rewrite Hu. simpl. eauto.
    + destruct (IH l' f) as [u Hu]; [lia | assumption | lia |].
      rewrite Hu. simpl. eauto.
Qed.

Lemma escaped_unquoteBytes (l : string) :
  escaped l -> exists u, json.unquoteBytes l = Some u.
Proof.
  intros H. rewrite unquoteBytes_unquoteLoop.
  now apply (escaped_unquoteLoop (String.length l)).
Qed.

Lemma scanValue_literalOk (f : nat) (d : Z) (s : string) (v : json.value)
      (rest : string) :
  json.scanValue f d s = Some (v, rest) -> literalOk v.
Proof.
  destruct f as [|f]; [discriminate|]. cbn [json.scanValue].
  destruct (json.skipSpace s) as [|c s1]; [discriminate|].
  repeat match goal with
         | |- (if ?b then _ else _) = _ -> _ => destruct b
         | |- match json.token ?c ?x with _ => _ end = _ -> _ =>
           destruct (json.token c x)
         | |- match json.scanMembers ?a ?b ?x with _ => _ end = _ -> _ =>
           destruct (json.scanMembers a b x) as [[? ?]|]
         | |- match json.scanElements ?a ?b ?x with _ => _ end = _ -> _ =>
           destruct (json.scanElements a b x) as [[? ?]|]
         | |- match json.scanNumber ?x with _ => _ end = _ -> _ =>
           destruct (json.scanNumber x) as [[? ?]|]
         | |- option_map _ (json.expect ?w ?x) = _ -> _ =>
           destruct (json.expect w x)
         end;
    try discriminate;
    try (intros H; injection H as <- _; exact I).
  destruct (json.scanString s1) as [[lit s2]|] eqn:E; [|discriminate].
  intros H. injection H as <- _.
  apply (scanString_escaped _ _ _ _ (Nat.le_refl _) E).
Qed.

Lemma scanMembers_literalOk (f : nat) (d : Z) (s : string)
      (ms : list (string * json.value)) (rest : string) :
  json.scanMembers f d s = Some (ms, rest) ->
  Forall (fun kv => escaped (fst kv) /\ literalOk (snd kv)) ms.
Proof.
  revert s ms rest; induction f as [|f IH]; intros s ms rest;
    [discriminate|].
  cbn [json.scanMembers].
  destruct (json.token json.dquote s) as [s1|]; [|discriminate].
  destruct (json.scanString s1) as [[key s2]|] eqn:Ek; [|discriminate].
  apply (scanString_escaped _ _ _ _ (Nat.le_refl _)) in Ek.
  destruct (json.token ":" s2) as [s3|]; [|discriminate].
  destruct (json.scanValue f d s3) as [[v s4]|] eqn:Ev; [|discriminate].
  apply scanValue_literalOk in Ev.
  destruct (json.token "," s4) as [s5|].
  - destruct (json.scanMembers f d s5) as [[ms' s6]|] eqn:Em;
      [|discriminate].
    intros H. injection H as <- _. constructor; [now split|].
    now apply (IH _ _ _ Em).
  - destruct (json.token "}" s4); [|discriminate].
    intros H. injection H as <- _. repeat constructor; assumption.
Qed.

Lemma object_total (ms : list (string * json.value)) (d : json.decodeState) :
  Forall (fun kv => escaped (fst kv) /\ literalOk (snd kv)) ms ->
  exists d', json.object ms d = Some d'.
Proof.
  intros H. revert d. induction H as [|[k v] ms [Hk Hv] _ IH]; intros d.
  - simpl. eauto.
  - cbn [json.object fst snd] in *.
    destruct (escaped_unquoteBytes _ Hk) as [key ->].
    destruct (json.lookupField key) as [fld|]; [|apply IH].
    assert (Hs : exists d', json.storeField fld v d = Some d').
    { unfold json.storeField. destruct v; cbn [literalOk] in Hv; eauto.
      - destruct fld; destruct (strconv.ParseInt lit); eauto.
        destruct (int32b z); eauto.
      - destruct (escaped_unquoteBytes _ Hv) as [u ->].
        destruct fld; eauto. }
    destruct Hs as [d' ->]. apply IH.
Qed.

Lemma scanValue_object_literalOk (f : nat) (d : Z) (s : string)
      (ms : list (string * json.value)) (rest : string) :
  json.scanValue f d s = Some (json.Object ms, rest) ->
  Forall (fun kv => escaped (fst kv) /\ literalOk (snd kv)) ms.
Proof.
  destruct f as [|f]; [discriminate|]. cbn [json.scanValue].
  destruct (json.skipSpace s) as [|c s1]; [discriminate|].
  repeat match goal with
         | |- (if ?b then _ else _) = _ -> _ => destruct b
         | |- match json.token ?c ?x with _ => _ end = _ -> _ =>
           destruct (json.token c x)
         | |- match json.scanElements ?a ?b ?x with _ => _ end = _ -> _ =>
           destruct (json.scanElements a b x) as [[? ?]|]
         | |- match json.scanString ?x with _ => _ end = _ -> _ =>
           destruct (json.scanString x) as [[? ?]|]
         | |- match json.scanNumber ?x with _ => _ end = _ -> _ =>
           destruct (json.scanNumber x) as [[? ?]|]
         | |- option_map _ (json.expect ?w ?x) = _ -> _ =>
           destruct (json.expect w x)
         end;
    try discriminate;
    try (intros H; injection H as <-; constructor).
  destruct (json.scanMembers f (d + 1) s1) as [[ms' s2]|] eqn:E;
    [|discriminate].
  intros H. injection H as <- _. now apply scanMembers_literalOk in E.
Qed.

(** [Unmarshal] always returns: the panic of the decoder is out of reach
    once the scanner has accepted the text. *)
Lemma Unmarshal_total (data : string) (e : Error) :
  exists e' errr, json.Unmarshal data e = Some (e', errr).
Proof.
  unfold json.Unmarshal, json.scan.
  destruct (json.scanValue _ 0 data) as [[v rest]|] eqn:E; [|eauto].
  destruct (json.skipSpace rest); [|eauto].
  assert (H : exists d', json.decode v (json.mkDecode e None) = Some d').
  { destruct v; cbn [json.decode]; eauto.
    - apply scanValue_literalOk in E. cbn [literalOk] in E.
      destruct (escaped_unquoteBytes _ E) as [u ->]. eauto.
    - apply scanValue_object_literalOk in E. now apply object_total. }
  destruct H as [d' ->]. eauto.
Qed.

(** ** What the constructors return

    Each constructor allocates one [Error] at the next address and returns
    a pointer to it. *)

Lemma New_run (id detail : string) (code : Z) (h : heap) :
  New id detail code h
  = Ok (PtrError (Some (next h)))
       (extend h (mkError id code detail (http.StatusText code))).
Proof. reflexivity. Qed.

Lemma Sprintf_onlyFirst (a : list fmt.arg) :
  fmt.Sprintf "%s" a = Some (onlyFirst a).
Proof. now destruct a. Qed.

Lemma BadRequest_run (a : list fmt.arg) (h : heap) :
  BadRequest a h
  = Ok (PtrError (Some (next h)))
       (extend h (mkError "400" 400 (onlyFirst a) "Bad Request")).
Proof. now destruct a. Qed.

Lemma Unauthorized_run (a : list fmt.arg) (h : heap) :
  Unauthorized a h
  = Ok (PtrError (Some (next h)))
       (extend h (mkError "401" 401 (onlyFirst a) "Unauthorized")).
Proof. now destruct a. Qed.

Lemma Forbidden_run (a : list fmt.arg) (h : heap) :
  Forbidden a h
  = Ok (PtrError (Some (next h)))
       (extend h (mkError "403" 403 (onlyFirst a) "Forbidden")).
Proof. now destruct a. Qed.

Lemma NotFound_run (a : list fmt.arg) (h : heap) :
  NotFound a h
  = Ok (PtrError (Some (next h)))
       (extend h (mkError "404" 404 (onlyFirst a) "Not Found")).
Proof. now destruct a. Qed.

Lemma MethodNotAllowed_run (a : list fmt.arg) (h : heap) :
  MethodNotAllowed a h
  = Ok (PtrError (Some (next h)))
       (extend h (mkError "405" 405 (onlyFirst a) "Method Not Allowed")).
Proof. now destruct a. Qed.

Lemma Timeout_run (a : list fmt.arg) (h : heap) :
  Timeout a h
  = Ok (PtrError (Some (next h)))
       (extend h (mkError "408" 408 (onlyFirst a) "Request Timeout")).
Proof. now destruct a. Qed.

Lemma Conflict_run (a : list fmt.arg) (h : heap) :
  Conflict a h
  = Ok (PtrError (Some (next h)))
       (extend h (mkError "409" 409 (onlyFirst a) "Conflict")).
Proof. now destruct a. Qed.

Lemma InternalServerError_run (a : list fmt.arg) (h : heap) :
  InternalServerError a h
  = Ok (PtrError (Some (next h)))
       (extend h (mkError "500" 500 (onlyFirst a) "Internal Server Error")).
Proof. now destruct a. Qed.

Lemma ServiceUnavailable_run (a : list fmt.arg) (h : heap) :
  ServiceUnavailable a h
  = Ok (PtrError (Some (next h)))
       (extend h (mkError "503" 503 (onlyFirst a) "Service Unavailable")).
Proof. now destruct a. Qed.

Lemma GatewayTimeout_run (a : list fmt.arg) (h : heap) :
  GatewayTimeout a h
  = Ok (PtrError (Some (next h)))
       (extend h (mkError "504" 504 (onlyFirst a) "Gateway Timeout")).
Proof. now destruct a. Qed.

(** ** Accessors *)

(** C10: on the nil error the accessors give their fallbacks without
    failing, [GetHTTPStatus] 500 and [GetErrorID] "UNKNOWN_ERROR", and the
    same on an error of any other type than [*Error]; the heap is left as it
    was. *)
Theorem accessors_fallback (h : heap) (text : string) :
  GetHTTPStatus NilError h = Ok 500 h
  /\ GetErrorID NilError h = Ok "UNKNOWN_ERROR" h
  /\ GetHTTPStatus (OtherError text) h = GetHTTPStatus NilError h
  /\ GetErrorID (OtherError text) h = GetErrorID NilError h.
Proof. repeat split. Qed.

(** ** Comparison *)

Lemma Is_nil_l (target : error) (h : heap) : Is NilError target h = Ok false h.
Proof. reflexivity. Qed.

Lemma Is_nil_r (err : error) (h : heap) : Is err NilError h = Ok false h.
Proof. destruct err; reflexivity. Qed.

Lemma Is_Error (h : heap) (a b : nat) (ea eb : Error) :
  nth_error (errors h) a = Some ea ->
  nth_error (errors h) b = Some eb ->
  Is (PtrError (Some a)) (PtrError (Some b)) h
  = Ok (String.eqb (Id ea) (Id eb)) h.
Proof.
  intros Ha Hb. unfold Is, bind, load, ret; simpl. now rewrite Ha, Hb.
Qed.

(** C9: [Is] is symmetric, on every pair of errors and in every heap,
    whether the call returns or panics. *)
Theorem Is_sym (a b : error) (h : heap) : Is a b h = Is b a h.
Proof.
  destruct a as [|p|s], b as [|q|t]; try reflexivity;
    unfold Is, bind, ret, callError, load, Error.Error; simpl.
  - destruct p as [a|], q as [b|]; try reflexivity.
    + destruct (nth_error (errors h) a) eqn:Ea,
               (nth_error (errors h) b) eqn:Eb;
        simpl; rewrite ?Ea, ?Eb; try reflexivity.
      now rewrite String.eqb_sym.
    + now destruct (nth_error (errors h) a).
    + now destruct (nth_error (errors h) b).
  - destruct p as [a|]; [destruct (nth_error (errors h) a)|];
      try reflexivity; now rewrite String.eqb_sym.
  - destruct q as [b|]; [destruct (nth_error (errors h) b)|];
      try reflexivity; now rewrite String.eqb_sym.
  - now rewrite String.eqb_sym.
Qed.

(** C1: [Is] is false as soon as one of the two errors is nil, also when
    both are; on two [Error] values it is true exactly when their [Id]s are
    equal, whatever their other fields; so [Is(NotFound("a"),
    NotFound("b"))] is true. *)
Theorem Is_identity_only
  (h : heap) (err target : error) (a b : nat) (ea eb : Error) :
  (err = NilError \/ target = NilError -> Is err target h = Ok false h)
  /\ (nth_error (errors h) a = Some ea ->
      nth_error (errors h) b = Some eb ->
      exists r, Is (PtrError (Some a)) (PtrError (Some b)) h = Ok r h
                /\ (r = true <-> Id ea = Id eb))
  /\ (exists h', (x <- NotFound [fmt.Str "a"] ;;
                  y <- NotFound [fmt.Str "b"] ;;
                  Is x y) h = Ok true h').
Proof.
  split; [|split].
  - intros [-> | ->]; [apply Is_nil_l | apply Is_nil_r].
  - intros Ha Hb. eexists. split; [apply (Is_Error _ _ _ _ _ Ha Hb)|].
    apply String.eqb_eq.
  - eexists. unfold bind. rewrite !NotFound_run.
    rewrite (Is_Error _ _ _ (mkError "404" 404 "a" "Not Found")
                            (mkError "404" 404 "b" "Not Found")).
    + reflexivity.
    + apply nth_error_snoc_old, nth_error_snoc.
    + apply nth_error_snoc.
Qed.

Lemma Is_identity_only_witness :
  Is NilError NilError initial = Ok false initial
  /\ exists r, Is ErrCollateralSyncFailed ErrExternalService initial
               = Ok r initial
               /\ (r = true <-> "503" = "503").
Proof.
  destruct (Is_identity_only initial NilError NilError 3 5
              (mkError "503" 503 "collateral synchronization failed"
                       "Service Unavailable")
              (mkError "503" 503 "external service unavailable"
                       "Service Unavailable")) as (H1 & H2 & _).
  split; [apply H1; left; reflexivity | apply H2; reflexivity].
Defined.

(** ** Classification *)

Lemma IsBadRequest_Error (h : heap) (a : nat) (e : Error) :
  nth_error (errors h) a = Some e ->
  IsBadRequest (PtrError (Some a)) h
  = Ok ((400 <=? Code e) && (Code e <? 500)) h.
Proof. intros H. unfold IsBadRequest, bind, load, ret. now rewrite H. Qed.

Lemma IsServerError_Error (h : heap) (a : nat) (e : Error) :
  nth_error (errors h) a = Some e ->
  IsServerError (PtrError (Some a)) h
  = Ok ((500 <=? Code e) && (Code e <? 600)) h.
Proof. intros H. unfold IsServerError, bind, load, ret. now rewrite H. Qed.

Lemma IsBadRequest_fresh (h : heap) (e : Error) :
  IsBadRequest (PtrError (Some (next h))) (extend h e)
  = Ok ((400 <=? Code e) && (Code e <? 500)) (extend h e).
Proof. apply IsBadRequest_Error. apply nth_error_snoc. Qed.

Lemma IsServerError_fresh (h : heap) (e : Error) :
  IsServerError (PtrError (Some (next h))) (extend h e)
  = Ok ((500 <=? Code e) && (Code e <? 600)) (extend h e).
Proof. apply IsServerError_Error. apply nth_error_snoc. Qed.

(** C6, as the code has it: [IsBadRequest] is true on [BadRequest("x")] and
    also on [NotFound("x")], since 404 lies in the range, and false on
    [InternalServerError("x")]; [IsServerError] is true on
    [InternalServerError("x")].  On an [Error] value [IsBadRequest] tests
    [400 <= code < 500] and [IsServerError] tests [500 <= code < 600]. *)
Theorem range_predicates (h : heap) (a : nat) (e : Error) :
  nth_error (errors h) a = Some e ->
  (exists h', (x <- BadRequest [fmt.Str "x"] ;; IsBadRequest x) h = Ok true h')
  /\ (exists h', (x <- NotFound [fmt.Str "x"] ;; IsBadRequest x) h = Ok true h')
  /\ (exists h', (x <- InternalServerError [fmt.Str "x"] ;; IsBadRequest x) h
                 = Ok false h')
  /\ (exists h', (x <- InternalServerError [fmt.Str "x"] ;; IsServerError x) h
                 = Ok true h')
  /\ IsBadRequest (PtrError (Some a)) h
     = Ok ((400 <=? Code e) && (Code e <? 500)) h
  /\ IsServerError (PtrError (Some a)) h
     = Ok ((500 <=? Code e) && (Code e <? 600)) h.
Proof.
  intros H.
  split; [|split; [|split; [|split; [|split]]]].
  - eexists. unfold bind. rewrite BadRequest_run.
    now rewrite IsBadRequest_fresh.
  - eexists. unfold bind. rewrite NotFound_run.
    now rewrite IsBadRequest_fresh.
  - eexists. unfold bind. rewrite InternalServerError_run.
    now rewrite IsBadRequest_fresh.
  - eexists. unfold bind. rewrite InternalServerError_run.
    now rewrite IsServerError_fresh.
  - now apply IsBadRequest_Error.
  - now apply IsServerError_Error.
Qed.

Lemma range_predicates_witness :
  (exists h', (x <- NotFound [fmt.Str "x"] ;; IsBadRequest x) initial
              = Ok true h')
  /\ IsBadRequest ErrCollateralNotFound initial = Ok true initial.
Proof.
  destruct (range_predicates initial 0
              (mkError "404" 404 "collateral not found" "Not Found")
              eq_refl) as (_ & H2 & _ & _ & H5 & _).
  split; [exact H2 | exact H5].
Defined.

(** The specification asks for false on [NotFound("x")]; the call returns true. *)
Lemma NotFound_is_in_the_400_range :
  ~ exists h', (x <- NotFound [fmt.Str "x"] ;; IsBadRequest x) initial
               = Ok false h'.
Proof. intros [h' H]. vm_compute in H. discriminate H. Qed.

(** ** Domain predicates *)

Lemma Is_fresh_fresh (h : heap) (e t : Error) :
  Is (PtrError (Some (next h))) (PtrError (Some (next (extend h e))))
     (extend (extend h e) t)
  = Ok (String.eqb (Id e) (Id t)) (extend (extend h e) t).
Proof.
  apply Is_Error.
  - apply nth_error_snoc_old, nth_error_snoc.
  - apply nth_error_snoc.
Qed.

Lemma Is_fresh_old (h : heap) (e v : Error) (a : nat) :
  nth_error (errors h) a = Some v ->
  Is (PtrError (Some (next h))) (PtrError (Some a)) (extend h e)
  = Ok (String.eqb (Id e) (Id v)) (extend h e).
Proof.
  intros H. apply Is_Error.
  - apply nth_error_snoc.
  - now apply nth_error_snoc_old.
Qed.

(** C7: once the package is initialised, [IsNotFound] is true on whatever
    [NotFound] builds and [IsAlreadyExists] on whatever [Conflict] builds,
    for every list of arguments. *)
Theorem domain_predicates_any_detail (h : heap) (a : list fmt.arg) :
  initialized h ->
  (exists h', (e <- NotFound a ;; IsNotFound e) h = Ok true h')
  /\ (exists h', (e <- Conflict a ;; IsAlreadyExists e) h = Ok true h').
Proof.
  intros Hi. split.
  - destruct (initialized_load h 0 Hi) as [v Hv]; [lia|].
    unfold bind at 1. rewrite NotFound_run. unfold IsNotFound, bind.
    unfold ErrCollateralNotFound. rewrite (Is_fresh_old _ _ _ _ Hv).
    destruct (String.eqb _ (Id v)); [now eexists|].
    rewrite NotFound_run, Is_fresh_fresh. now eexists.
  - destruct (initialized_load h 1 Hi) as [v Hv]; [lia|].
    unfold bind at 1. rewrite Conflict_run. unfold IsAlreadyExists, bind.
    unfold ErrCollateralExists. rewrite (Is_fresh_old _ _ _ _ Hv).
    destruct (String.eqb _ (Id v)); [now eexists|].
    rewrite Conflict_run, Is_fresh_fresh. now eexists.
Qed.

Lemma domain_predicates_any_detail_witness :
  (exists h', (e <- NotFound [fmt.Str "order 7"; fmt.Int 7] ;; IsNotFound e)
                initial = Ok true h')
  /\ (exists h', (e <- Conflict [fmt.Str "order 7"; fmt.Int 7] ;;
                  IsAlreadyExists e) initial = Ok true h').
Proof.
  exact (domain_predicates_any_detail initial
           [fmt.Str "order 7"; fmt.Int 7] initialized_initial).
Defined.

(** ** Wrapping *)

Lemma Sprintf_wrap (message detail : string) :
  fmt.Sprintf "%s: %s" [fmt.Str message; fmt.Str detail]
  = Some (message ++ ": " ++ detail).
Proof.
  unfold fmt.Sprintf; simpl. now rewrite append_nil_r.
Qed.

(** C4: on an [Error] [e], [Wrap(e, m)] returns a new [Error] with the
    [Id], [Code] and [Status] of [e] and the detail [m], [": "], detail of
    [e]; [WithDetail(e, d)] returns a new [Error] with the [Id], [Code] and
    [Status] of [e] and the detail [d]; the new error lies at an address of
    its own, and [e] and every other error allocated before keep all their
    fields. *)
Theorem wrapping_frame (h : heap) (a : nat) (e : Error) (m d : string) :
  nth_error (errors h) a = Some e ->
  let w := mkError (Id e) (Code e) (m ++ ": " ++ Detail e) (Status e) in
  let r := mkError (Id e) (Code e) d (Status e) in
  Wrap (PtrError (Some a)) m h = Ok (PtrError (Some (next h))) (extend h w)
  /\ WithDetail (PtrError (Some a)) d h
     = Ok (PtrError (Some (next h))) (extend h r)
  /\ nth_error (errors (extend h w)) (next h) = Some w
  /\ nth_error (errors (extend h r)) (next h) = Some r
  /\ next h <> a
  /\ (forall b v, nth_error (errors h) b = Some v ->
        nth_error (errors (extend h w)) b = Some v
        /\ nth_error (errors (extend h r)) b = Some v)
  /\ builders (extend h w) = builders h
  /\ builders (extend h r) = builders h.
Proof.
  intros H w r. repeat split.
  - unfold Wrap, bind, load, sprintf, newError, ret.
    rewrite H, Sprintf_wrap. reflexivity.
  - unfold WithDetail, bind, load, newError, ret. rewrite H. reflexivity.
  - apply nth_error_snoc.
  - apply nth_error_snoc.
  - apply nth_error_old_lt in H. unfold next. lia.
  - now apply nth_error_snoc_old.
  - now apply nth_error_snoc_old.
Qed.

Lemma wrapping_frame_witness :
  let e := mkError "404" 404 "collateral not found" "Not Found" in
  let w := mkError "404" 404 "lookup failed: collateral not found"
                   "Not Found" in
  Wrap ErrCollateralNotFound "lookup failed" initial
  = Ok (PtrError (Some 6%nat)) (extend initial w)
  /\ nth_error (errors (extend initial w)) 0 = Some e.
Proof.
  destruct (wrapping_frame initial 0
              (mkError "404" 404 "collateral not found" "Not Found")
              "lookup failed" "new detail" eq_refl)
    as (H1 & _ & _ & _ & _ & H6 & _).
  split; [exact H1 | exact (proj1 (H6 0%nat _ eq_refl))].
Defined.

(** ** Builder *)

Lemma update_snoc {A} (l : list A) (x y : A) :
  update (List.length l) y (l ++ [x])%list = (l ++ [y])%list.
Proof. induction l as [|z l IH]; simpl; [reflexivity | now rewrite IH]. Qed.

Lemma Build_run (h : heap) (b : nat) (v : ErrorBuilder) :
  nth_error (builders h) b = Some v ->
  ErrorBuilder.Build (Some b) h
  = Ok (PtrError (Some (next h)))
       (extend h (mkError (id v) (code v) (detail v)
                          (http.StatusText (code v)))).
Proof.
  intros H. unfold ErrorBuilder.Build, bind, loadBuilder. now rewrite H.
Qed.

Lemma NewBuilder_run (h : heap) :
  NewBuilder h
  = Ok (Some (List.length (builders h)))
       (mkHeap (errors h) (builders h ++ [mkBuilder "CUSTOM_ERROR" 500 ""])).
Proof. reflexivity. Qed.

(** The setters on the builder allocated last: the object is updated in
    place and the same pointer comes back. *)
Section Setters.

Variables (E : list Error) (B : list ErrorBuilder) (x : ErrorBuilder).

Let here : ptr := Some (List.length B).

Lemma WithID_last (s : string) :
  ErrorBuilder.WithID here s (mkHeap E (B ++ [x]))
  = Ok here (mkHeap E (B ++ [mkBuilder s (code x) (detail x)])).
Proof.
  unfold ErrorBuilder.WithID, bind, loadBuilder, storeBuilder, ret, here.
  cbn [builders errors]. rewrite nth_error_snoc. cbn [builders errors].
  now rewrite nth_error_snoc, update_snoc.
Qed.

Lemma WithCode_last (c : Z) :
  ErrorBuilder.WithCode here c (mkHeap E (B ++ [x]))
  = Ok here (mkHeap E (B ++ [mkBuilder (id x) c (detail x)])).
Proof.
  unfold ErrorBuilder.WithCode, bind, loadBuilder, storeBuilder, ret, here.
  cbn [builders errors]. rewrite nth_error_snoc. cbn [builders errors].
  now rewrite nth_error_snoc, update_snoc.
Qed.

Lemma WithDetail_last (s : string) :
  ErrorBuilder.WithDetail here s (mkHeap E (B ++ [x]))
  = Ok here (mkHeap E (B ++ [mkBuilder (id x) (code x) s])).
Proof.
  unfold ErrorBuilder.WithDetail, bind, loadBuilder, storeBuilder, ret, here.
  cbn [builders errors]. rewrite nth_error_snoc. cbn [builders errors].
  now rewrite nth_error_snoc, update_snoc.
Qed.

End Setters.

(** C8: in every heap, also one without a builder, the chain
    [NewBuilder().WithID("X").WithCode(418).WithDetail("teapot").Build()]
    yields an [Error] with [Id] "X", [Code] 418, [Detail] "teapot" and the
    status text of 418, which the table has; in general [Build] takes the
    fields the builder holds when it is called and derives the status from
    that code, through [New]. *)
Theorem builder_chain (h : heap) :
  (x <- NewBuilder ;;
   x <- ErrorBuilder.WithID x "X" ;;
   x <- ErrorBuilder.WithCode x 418 ;;
   x <- ErrorBuilder.WithDetail x "teapot" ;;
   ErrorBuilder.Build x) h
  = Ok (PtrError (Some (next h)))
       (mkHeap (errors h ++ [mkError "X" 418 "teapot" (http.StatusText 418)])
               (builders h ++ [mkBuilder "X" 418 "teapot"]))
  /\ http.StatusText 418 = "I'm a teapot"
  /\ (forall (b : nat) (v : ErrorBuilder),
        nth_error (builders h) b = Some v ->
        ErrorBuilder.Build (Some b) h = (New (id v) (detail v) (code v)) h
        /\ ErrorBuilder.Build (Some b) h
           = Ok (PtrError (Some (next h)))
                (extend h (mkError (id v) (code v) (detail v)
                                   (http.StatusText (code v))))).
Proof.
  split; [|split; [reflexivity|]].
  - unfold bind. rewrite NewBuilder_run, WithID_last, WithCode_last,
      WithDetail_last.
    cbn [id code detail].
    erewrite Build_run by (cbn [builders]; apply nth_error_snoc).
    reflexivity.
  - intros b v H. split.
    + rewrite (Build_run _ _ _ H). now rewrite New_run.
    + apply (Build_run _ _ _ H).
Qed.

Lemma builder_chain_witness :
  (x <- NewBuilder ;;
   x <- ErrorBuilder.WithID x "X" ;;
   x <- ErrorBuilder.WithCode x 418 ;;
   x <- ErrorBuilder.WithDetail x "teapot" ;;
   ErrorBuilder.Build x) initial
  = Ok (PtrError (Some 6%nat))
       (mkHeap (errors initial ++ [mkError "X" 418 "teapot" "I'm a teapot"])
               [mkBuilder "X" 418 "teapot"])
  /\ (let h := mkHeap [] [mkBuilder "CUSTOM_ERROR" 404 "gone"] in
      ErrorBuilder.Build (Some 0%nat) h
      = Ok (PtrError (Some 0%nat))
           (extend h (mkError "CUSTOM_ERROR" 404 "gone" "Not Found"))).
Proof.
  split.
  - exact (proj1 (builder_chain initial)).
  - exact (proj2 (proj2 (proj2
             (builder_chain (mkHeap [] [mkBuilder "CUSTOM_ERROR" 404 "gone"])))
             0%nat (mkBuilder "CUSTOM_ERROR" 404 "gone") eq_refl)).
Defined.

(** ** Constructors and their detail *)

Lemma Sprintf_s_cons (x : fmt.arg) (rest : list fmt.arg) :
  fmt.Sprintf "%s" (x :: rest) = Some (fmt.printArg x "s" ++ fmt.extra rest).
Proof. reflexivity. Qed.

Lemma Sprintf_s_string (s : string) : fmt.Sprintf "%s" [fmt.Str s] = Some s.
Proof. rewrite Sprintf_s_cons. simpl. now rewrite append_nil_r. Qed.

Lemma onlyFirst_string (s : string) : onlyFirst [fmt.Str s] = s.
Proof. simpl. apply append_nil_r. Qed.

(** Each constructor stores what the one verb makes of the operands. *)
Lemma constructors_onlyFirst (a : list fmt.arg) (h : heap) :
  Forall (fun ctor : list fmt.arg -> M error =>
            exists e, ctor a h = Ok (PtrError (Some (next h))) (extend h e)
                      /\ Detail e = onlyFirst a)
         constructors.
Proof.
  unfold constructors.
  repeat (apply Forall_cons;
          [eexists; split;
           [first [ apply BadRequest_run | apply Unauthorized_run
                  | apply Forbidden_run | apply NotFound_run
                  | apply MethodNotAllowed_run | apply Timeout_run
                  | apply Conflict_run | apply InternalServerError_run
                  | apply ServiceUnavailable_run | apply GatewayTimeout_run ]
           | reflexivity]|]).
  apply Forall_nil.
Qed.

(** The report of surplus strings is longer than the strings. *)
Lemma length_extraList (l : list string) :
  (String.length (printedAndConcatenated (map fmt.Str l))
   <= String.length (fmt.extraList (map fmt.Str l)))%nat.
Proof.
  unfold printedAndConcatenated.
  induction l as [|x l IH]; [apply Nat.le_refl|].
  destruct l as [|y l].
  - simpl. rewrite !length_append. simpl. lia.
  - change (String.length (x ++ "" ++ String.concat ""
                             (map fmt.printV (map fmt.Str (y :: l))))
            <= String.length
                 (("string" ++ "=" ++ x) ++ ", "
                  ++ fmt.extraList (map fmt.Str (y :: l))))%nat.
    rewrite !length_append. simpl String.length in *. lia.
Qed.

Lemma surplus_not_concatenated (s1 s2 : string) (rest : list string) :
  onlyFirst (map fmt.Str (s1 :: s2 :: rest))
  <> printedAndConcatenated (map fmt.Str (s1 :: s2 :: rest)).
Proof.
  intros E. apply (f_equal String.length) in E.
  pose proof (length_extraList (s2 :: rest)) as L.
  change (printedAndConcatenated (map fmt.Str (s1 :: s2 :: rest)))
    with (s1 ++ "" ++ printedAndConcatenated (map fmt.Str (s2 :: rest))) in E.
  change (onlyFirst (map fmt.Str (s1 :: s2 :: rest)))
    with (s1 ++ "%!(EXTRA " ++ fmt.extraList (map fmt.Str (s2 :: rest)) ++ ")")
    in E.
  rewrite !length_append in E.
  change (String.length "%!(EXTRA ") with 9%nat in E.
  change (String.length ")") with 1%nat in E.
  change (String.length "") with 0%nat in E. lia.
Qed.

(** C5: the detail of the constructors.  Each of the ten is variadic and
    formats its operands with the format ["%s"], which has one verb.  For
    a single string the detail is the string, which is also what printing
    it gives.  For the strings "a" and "b" the code stores
    "a%!(EXTRA string=b)", where printing each operand and concatenating
    the results gives "ab"; with two strings or more the detail is never
    the concatenation.  Without operands the code stores "%!s(MISSING)",
    not the empty string, and for the integer 42 it stores "%!s(int=42)",
    not "42".  The markers are those with which [fmt] reports operands
    that do not fit the format. *)
Theorem constructors_detail (h : heap) (s s1 s2 : string)
        (rest : list string) :
  Forall (fun ctor : list fmt.arg -> M error =>
    (exists e, ctor [fmt.Str s] h
               = Ok (PtrError (Some (next h))) (extend h e)
               /\ Detail e = s
               /\ Detail e = printedAndConcatenated [fmt.Str s])
    /\ (exists e, ctor [fmt.Str "a"; fmt.Str "b"] h
                  = Ok (PtrError (Some (next h))) (extend h e)
                  /\ Detail e = "a%!(EXTRA string=b)"
                  /\ printedAndConcatenated [fmt.Str "a"; fmt.Str "b"] = "ab")
    /\ (exists e, ctor (map fmt.Str (s1 :: s2 :: rest)) h
                  = Ok (PtrError (Some (next h))) (extend h e)
                  /\ Detail e
                     <> printedAndConcatenated (map fmt.Str (s1 :: s2 :: rest)))
    /\ (exists e, ctor [] h = Ok (PtrError (Some (next h))) (extend h e)
                  /\ Detail e = "%!s(MISSING)"
                  /\ printedAndConcatenated [] = "")
    /\ (exists e, ctor [fmt.Int 42] h
                  = Ok (PtrError (Some (next h))) (extend h e)
                  /\ Detail e = "%!s(int=42)"
                  /\ printedAndConcatenated [fmt.Int 42] = "42"))
    constructors.
Proof.
  apply Forall_forall. intros ctor Hin.
  assert (R : forall a, exists e,
               ctor a h = Ok (PtrError (Some (next h))) (extend h e)
               /\ Detail e = onlyFirst a).
  { intros a. pose proof (constructors_onlyFirst a h) as F.
    rewrite Forall_forall in F. now apply F. }
  repeat match goal with |- _ /\ _ => split end;
    match goal with
    | |- exists _, ctor ?a h = _ /\ _ =>
      destruct (R a) as (e & He & Hd); exists e; split; [exact He|];
      rewrite Hd
    end.
  - rewrite onlyFirst_string. split; reflexivity.
  - split; reflexivity.
  - apply surplus_not_concatenated.
  - split; reflexivity.
  - split; reflexivity.
Qed.

(** With two string operands the detail is not the concatenation of their
    printed forms. *)
Lemma two_operands_not_concatenated :
  let a := [fmt.Str "a"; fmt.Str "b"] in
  BadRequest a initial
  = Ok (PtrError (Some 6%nat))
       (extend initial
          (mkError "400" 400 "a%!(EXTRA string=b)" "Bad Request"))
  /\ printedAndConcatenated a = "ab"
  /\ "a%!(EXTRA string=b)" <> printedAndConcatenated a.
Proof. repeat split. intros H. discriminate H. Qed.

(** ** The status table *)

Lemma StatusText_valid (c : Z) : utf8.ValidString (http.StatusText c) = true.
Proof.
  unfold http.StatusText.
  destruct (find _ http.statusText) as [kv|] eqn:F; [|reflexivity].
  apply find_some in F as [Hin _].
  assert (H : forallb (fun kv => utf8.ValidString (snd kv)) http.statusText
              = true) by (vm_compute; reflexivity).
  rewrite forallb_forall in H. now apply H.
Qed.

(** ** The text form and back *)

Lemma int32b_int64b (z : Z) : int32b z = true -> int64b z = true.
Proof.
  unfold int32b, int64b. intros H. apply andb_prop in H as [H1 H2].
  apply Z.leb_le in H1. apply Z.ltb_lt in H2.
  apply andb_true_intro; split; [apply Z.leb_le | apply Z.ltb_lt]; lia.
Qed.

Lemma int32_int32b (z : Z) : int32 z -> int32b z = true.
Proof.
  unfold int32, int32b. intros H.
  apply andb_true_intro; split; [apply Z.leb_le | apply Z.ltb_lt]; lia.
Qed.

Lemma scan_Marshal (e : Error) :
  int64b (Code e) = true ->
  json.scan (json.Marshal (Some e))
  = Some (json.Object
            [("id", json.Str (json.appendStringLoop
                                (String.length (Id e)) (Id e)));
             ("code", json.Number (strconv.FormatInt (Code e)));
             ("detail", json.Str (json.appendStringLoop
                                    (String.length (Detail e)) (Detail e)));
             ("status", json.Str (json.appendStringLoop
                                    (String.length (Status e)) (Status e)))]).
Proof.
  intros Hc. unfold json.scan. rewrite Marshal_objectText.
  match goal with
  | |- context [json.scanValue ?fuel 0 ?text] =>
    assert (Hf : fuel = (6 + (fuel - 6))%nat)
      by (unfold objectText; cbn [append String.length]; lia);
    rewrite Hf; clear Hf
  end.
  rewrite scanValue_objectText.
  - reflexivity.
  - intros rest. apply scanString_appendStringLoop.
  - intros rest. apply scanString_appendStringLoop.
  - intros rest. apply scanString_appendStringLoop.
  - intros f d t. now apply scanValue_FormatInt.
Qed.

(** Decoding the text of an [Error] whose strings are valid UTF-8 and
    whose code is an [int32] stores all four fields and reports no error,
    whatever the target held before. *)
Lemma Unmarshal_Marshal (e e0 : Error) :
  utf8.ValidString (Id e) = true ->
  utf8.ValidString (Detail e) = true ->
  utf8.ValidString (Status e) = true ->
  int32b (Code e) = true ->
  json.Unmarshal (json.Marshal (Some e)) e0 = Some (e, None).
Proof.
  intros Hi Hd Hs Hc. unfold json.Unmarshal.
  rewrite scan_Marshal by now apply int32b_int64b.
  unfold json.decode. cbn [json.object].
  change (json.unquoteBytes "id") with (Some "id").
  change (json.unquoteBytes "code") with (Some "code").
  change (json.unquoteBytes "detail") with (Some "detail").
  change (json.unquoteBytes "status") with (Some "status").
  change (json.lookupField "id") with (Some json.fId).
  change (json.lookupField "code") with (Some json.fCode).
  change (json.lookupField "detail") with (Some json.fDetail).
  change (json.lookupField "status") with (Some json.fStatus).
  cbv iota. unfold json.storeField.
  rewrite (unquoteBytes_appendString _ Hi).
  cbn [json.target json.savedError json.setString Id Code Detail Status].
  rewrite (ParseInt_FormatInt _ (int32b_int64b _ Hc)), Hc.
  cbn [json.target json.savedError json.setString Id Code Detail Status].
  rewrite (unquoteBytes_appendString _ Hd).
  cbn [json.target json.savedError json.setString Id Code Detail Status].
  rewrite (unquoteBytes_appendString _ Hs).
  cbn [json.target json.savedError json.setString Id Code Detail Status].
  now destruct e.
Qed.

(** ** Parse *)

(** [Parse] allocates one [Error]: what the decoder stored, with the input
    as detail when the decoder reported an error. *)
Lemma Parse_run (text : string) (h : heap) (v : Error)
      (errr : option json.error) :
  json.Unmarshal text zero = Some (v, errr) ->
  Parse text h
  = Ok (Some (next h))
       (extend h match errr with
                 | Some _ => mkError (Id v) (Code v) text (Status v)
                 | None => v
                 end).
Proof.
  intros H. unfold Parse, bind, newError, load, store, ret.
  cbn [errors builders]. rewrite nth_error_snoc. fold zero. rewrite H.
  cbn [errors builders]. rewrite nth_error_snoc, update_snoc.
  destruct errr as [err|]; [|reflexivity].
  cbn [errors builders]. rewrite nth_error_snoc, update_snoc. reflexivity.
Qed.

Lemma Unmarshal_not_object (text : string) (v : Error)
      (errr : option json.error) :
  json.Unmarshal text zero = Some (v, errr) ->
  match json.scan text with
  | Some val => isObject val = false
  | None => True
  end ->
  v = zero.
Proof.
  unfold json.Unmarshal. intros H Hs.
  destruct (json.scan text) as [val|]; [|congruence].
  unfold json.decode, json.saveError in H.
  destruct val; try discriminate Hs;
    try (destruct (json.unquoteBytes lit));
    cbn [json.savedError json.target] in H; congruence.
Qed.

(** [Parse] is total: it returns a pointer to one new [Error]. *)
Lemma Parse_total (text : string) (h : heap) :
  exists e, Parse text h = Ok (Some (next h)) (extend h e).
Proof.
  destruct (Unmarshal_total text zero) as (v & errr & H).
  eexists. apply (Parse_run _ _ _ _ H).
Qed.

(** C3, as the code has it: [Parse] always returns ([Parse_total]); when
    the text fails to decode, it returns an [Error] whose detail is the
    text.  Its [Id], [Code] and [Status] are the zero values when the text
    is not JSON at all or is a JSON value other than an object; an object
    with a member of the wrong type also fails to decode, and then they
    hold what its other members stored.  [Parse("not valid json")] has the
    detail "not valid json" and the code 0. *)
Theorem Parse_decode_failure (text : string) (h : heap) (v : Error)
        (err : json.error) :
  json.Unmarshal text zero = Some (v, Some err) ->
  Parse text h
  = Ok (Some (next h)) (extend h (mkError (Id v) (Code v) text (Status v)))
  /\ (match json.scan text with
      | Some val => isObject val = false
      | None => True
      end -> Id v = "" /\ Code v = 0 /\ Status v = "")
  /\ Parse "not valid json" h
     = Ok (Some (next h)) (extend h (mkError "" 0 "not valid json" "")).
Proof.
  intros H. split; [|split].
  - apply (Parse_run _ _ _ _ H).
  - intros Hs. rewrite (Unmarshal_not_object _ _ _ H Hs). repeat split.
  - apply (Parse_run "not valid json" h zero (Some json.SyntaxError)).
    reflexivity.
Qed.

Lemma Parse_decode_failure_witness :
  Parse "[404]" initial
  = Ok (Some 6%nat) (extend initial (mkError "" 0 "[404]" ""))
  /\ ("" = "" /\ 0 = 0 /\ "" = "").
Proof.
  destruct (Parse_decode_failure "[404]" initial zero
              (json.UnmarshalTypeError "array" "") eq_refl)
    as (H1 & H2 & _).
  split; [exact H1 | exact (H2 eq_refl)].
Defined.

(** An object whose [code] member is a string fails to decode, yet the
    [id] member before it has been stored: the identity is not the zero
    value. *)
Lemma Parse_type_error_keeps_fields :
  let q := String json.dquote "" in
  let text := "{" ++ q ++ "id" ++ q ++ ":" ++ q ++ "x" ++ q ++ ","
                  ++ q ++ "code" ++ q ++ ":" ++ q ++ "y" ++ q ++ "}" in
  json.Unmarshal text zero
  = Some (mkError "x" 0 "" "",
          Some (json.UnmarshalTypeError "string" "code"))
  /\ Parse text initial
     = Ok (Some 6%nat) (extend initial (mkError "x" 0 text ""))
  /\ Id (mkError "x" 0 text "") <> "".
Proof.
  cbv zeta. split; [vm_compute; reflexivity|]. split.
  - apply (Parse_run _ initial (mkError "x" 0 "" "")
             (Some (json.UnmarshalTypeError "string" "code"))).
    vm_compute; reflexivity.
  - discriminate.
Qed.

Lemma next_extend (h : heap) (e : Error) : next (extend h e) = S (next h).
Proof. unfold next, extend; cbn [errors]. rewrite length_app. simpl. lia. Qed.

(** The text of the error allocated last. *)
Lemma Error_fresh (h : heap) (e : Error) :
  callError (PtrError (Some (next h))) (extend h e)
  = Ok (json.Marshal (Some e)) (extend h e).
Proof.
  unfold callError, Error.Error, next, extend; cbn [errors].
  now rewrite nth_error_snoc.
Qed.

(** C2, as the code has it: for identity and detail strings that are valid
    UTF-8 and every code, [Parse] of the text form of [New(id, detail, c)]
    yields an [Error] with the same [Id], [Code], [Detail] and [Status]. *)
Theorem Parse_Error_roundtrip (h : heap) (id detail : string) (c : Z) :
  utf8.ValidString id = true ->
  utf8.ValidString detail = true ->
  int32 c ->
  let e := mkError id c detail (http.StatusText c) in
  (x <- New id detail c ;; text <- callError x ;; Parse text) h
  = Ok (Some (S (next h))) (extend (extend h e) e).
Proof.
  intros Hi Hd Hc e. unfold bind. rewrite New_run. fold e.
  rewrite Error_fresh.
  rewrite (Parse_run _ (extend h e) e None), next_extend; [reflexivity|].
  apply Unmarshal_Marshal; cbn [Id Code Detail Status e]; auto.
  - apply StatusText_valid.
  - now apply int32_int32b.
Qed.

Lemma Parse_Error_roundtrip_witness :
  let e := mkError "ORDER" 404 "no such order" "Not Found" in
  (x <- New "ORDER" "no such order" 404 ;;
   text <- callError x ;;
   Parse text) initial
  = Ok (Some 7%nat) (extend (extend initial e) e).
Proof.
  exact (Parse_Error_roundtrip initial "ORDER" "no such order" 404
           eq_refl eq_refl ltac:(unfold int32; lia)).
Defined.

(** A detail that is not valid UTF-8 does not come back: the encoder
    writes the byte 255 as the escape of U+FFFD and the decoder reads the
    three bytes that encode U+FFFD. *)
Lemma invalid_utf8_detail_not_restored :
  let detail := String "255" "" in
  let back := String "239" (String "191" (String "189" "")) in
  (x <- New "x" detail 500 ;; text <- callError x ;; Parse text) initial
  = Ok (Some 7%nat)
       (extend (extend initial
                  (mkError "x" 500 detail "Internal Server Error"))
               (mkError "x" 500 back "Internal Server Error"))
  /\ back <> detail.
Proof.
  cbv zeta. split; [|discriminate].
  unfold bind. rewrite New_run, Error_fresh.
  rewrite (Parse_run _ _ (mkError "x" 500
                            (String "239" (String "191" (String "189" "")))
                            "Internal Server Error") None);
    [reflexivity | vm_compute; reflexivity].
Qed.

(** ** The examples of the specification *)

Example Wrap_NotFound (h : heap) :
  (e <- NotFound [fmt.Str "orig"] ;; Wrap e "lookup failed") h
  = Ok (PtrError (Some (S (next h))))
       (extend (extend h (mkError "404" 404 "orig" "Not Found"))
               (mkError "404" 404 "lookup failed: orig" "Not Found")).
Proof.
  unfold bind. rewrite NotFound_run, onlyFirst_string. unfold Wrap, bind.
  rewrite load_extend_new. unfold sprintf, newError, ret. cbn [Detail].
  rewrite Sprintf_wrap.
  fold (next (extend h (mkError "404" 404 "orig" "Not Found"))).
  now rewrite next_extend.
Qed.

Example WithDetail_NotFound (h : heap) :
  (e <- NotFound [fmt.Str "orig"] ;; WithDetail e "new detail") h
  = Ok (PtrError (Some (S (next h))))
       (extend (extend h (mkError "404" 404 "orig" "Not Found"))
               (mkError "404" 404 "new detail" "Not Found")).
Proof.
  unfold bind. rewrite NotFound_run, onlyFirst_string.
  unfold WithDetail, bind.
  rewrite load_extend_new. unfold newError, ret.
  fold (next (extend h (mkError "404" 404 "orig" "Not Found"))).
  now rewrite next_extend.
Qed.

Example Is_nil_NotFound (h : heap) :
  (e <- NotFound [fmt.Str "a"] ;; Is NilError e) h
  = Ok false (extend h (mkError "404" 404 "a" "Not Found"))
  /\ (e <- NotFound [fmt.Str "a"] ;; Is e NilError) h
     = Ok false (extend h (mkError "404" 404 "a" "Not Found")).
Proof. split; reflexivity. Qed.

Example GetHTTPStatus_plain_error (h : heap) :
  GetHTTPStatus (OtherError "connection refused") h = Ok 500 h.
Proof. reflexivity. Qed.

Example New_status (h : heap) :
  New "ORDER" "gone" 410 h
  = Ok (PtrError (Some (next h))) (extend h (mkError "ORDER" 410 "gone" "Gone")).
Proof. reflexivity. Qed.

(* ================================================================== *)
(** * Further properties *)

(** ** The heap only grows *)

Lemma grows_refl (h : heap) : grows h h.
Proof. split; [exists []; now rewrite app_nil_r | reflexivity]. Qed.

Lemma grows_trans (h1 h2 h3 : heap) : grows h1 h2 -> grows h2 h3 -> grows h1 h3.
Proof.
  intros [[l1 E1] B1] [[l2 E2] B2]. split; [|congruence].
  exists (l1 ++ l2)%list. now rewrite E2, E1, app_assoc.
Qed.

Lemma grows_extend (h : heap) (e : Error) : grows h (extend h e).
Proof. split; [now exists [e] | reflexivity]. Qed.

Lemma grows_nth_error (h h' : heap) (a : nat) (v : Error) :
  grows h h' -> nth_error (errors h) a = Some v ->
  nth_error (errors h') a = Some v.
Proof.
  intros [[l E] _] H. rewrite E, nth_error_app1; [assumption|].
  now apply nth_error_old_lt in H.
Qed.

Lemma readOnly_appendOnly {A} (m : M A) : readOnly m -> appendOnly m.
Proof. intros H h a h' E. rewrite (H _ _ _ E). apply grows_refl. Qed.

Lemma readOnly_ret {A} (a : A) : readOnly (ret a).
Proof. intros h x h' E. unfold ret in E. congruence. Qed.

Lemma readOnly_bind {A B} (m : M A) (k : A -> M B) :
  readOnly m -> (forall a, readOnly (k a)) -> readOnly (bind m k).
Proof.
  intros Hm Hk h b h' E. unfold bind in E.
  destruct (m h) as [a h1| |] eqn:E1; try discriminate.
  apply Hm in E1. subst h1. now apply Hk in E.
Qed.

Lemma appendOnly_bind {A B} (m : M A) (k : A -> M B) :
  appendOnly m -> (forall a, appendOnly (k a)) -> appendOnly (bind m k).
Proof.
  intros Hm Hk h b h' E. unfold bind in E.
  destruct (m h) as [a h1| |] eqn:E1; try discriminate.
  apply Hm in E1. apply Hk in E. now apply (grows_trans _ h1).
Qed.

Lemma readOnly_load (p : ptr) : readOnly (load p).
Proof.
  intros h a h' E. unfold load in E.
  destruct p as [n|]; [|discriminate].
  destruct (nth_error (errors h) n); congruence.
Qed.

Lemma readOnly_loadBuilder (p : ptr) : readOnly (loadBuilder p).
Proof.
  intros h a h' E. unfold loadBuilder in E.
  destruct p as [n|]; [|discriminate].
  destruct (nth_error (builders h) n); congruence.
Qed.

Lemma readOnly_callError (err : error) : readOnly (callError err).
Proof.
  intros h a h' E. destruct err as [|[n|]|t]; simpl in E;
    unfold Error.Error, ret in E; try congruence.
  destruct (nth_error (errors h) n); congruence.
Qed.

Lemma readOnly_sprintf (f : string) (a : list fmt.arg) :
  readOnly (sprintf f a).
Proof.
  intros h x h' E. unfold sprintf in E.
  destruct (fmt.Sprintf f a); congruence.
Qed.

Lemma appendOnly_newError (e : Error) : appendOnly (newError e).
Proof.
  intros h a h' E. unfold newError in E. inversion E; subst.
  apply (grows_extend h e).
Qed.

Ltac frame :=
  repeat first
    [ apply readOnly_bind; [|intro]
    | apply readOnly_ret | apply readOnly_load | apply readOnly_loadBuilder
    | apply readOnly_callError | apply readOnly_sprintf ].

Ltac alloc :=
  repeat first
    [ apply appendOnly_bind; [|intro]
    | apply appendOnly_newError
    | apply readOnly_appendOnly; frame ].

Lemma keeps_readOnly {A} (P : heap -> Prop) (m : M A) :
  readOnly m -> keeps P m.
Proof. intros R h a h' Hh E. now rewrite (R _ _ _ E). Qed.

Lemma keeps_bind {A B} (P : heap -> Prop) (m : M A) (k : A -> M B) :
  keeps P m -> (forall a, keeps P (k a)) -> keeps P (bind m k).
Proof.
  intros Hm Hk h b h' Hh E. unfold bind in E.
  destruct (m h) as [a h1| |] eqn:E1; try discriminate.
  apply (Hk a h1 b h'); [|assumption]. now apply (Hm h a h1).
Qed.

Lemma readOnly_Is (x y : error) : readOnly (Is x y).
Proof.
  unfold Is. destruct (isNil x || isNil y); [apply readOnly_ret|].
  destruct x as [|p|s], y as [|q|t]; frame.
Qed.

Lemma appendOnly_New (i d : string) (c : Z) : appendOnly (New i d c).
Proof. unfold New. alloc. Qed.

Lemma appendOnly_Parse (t : string) : appendOnly (Parse t).
Proof.
  intros h a h' E. destruct (Parse_total t h) as [e He].
  rewrite He in E. inversion E; subst. apply grows_extend.
Qed.

(** X1: no function of the package changes or removes an [Error] that
    exists.  [New], [Parse], the constructors, [Wrap], [WithDetail], the
    domain predicates and [Build] only allocate: when they return, the
    errors of the heap before are still there, at their addresses and with
    their fields, followed by the new ones, and the builders are
    untouched.  The method [Error], [Is], the accessors and the range
    predicates leave the heap as it is. *)
Theorem errors_append_only :
  (forall i d c, appendOnly (New i d c))
  /\ (forall text, appendOnly (Parse text))
  /\ (forall a, Forall (fun ctor => appendOnly (ctor a)) constructors)
  /\ (forall err m, appendOnly (Wrap err m))
  /\ (forall err d, appendOnly (WithDetail err d))
  /\ (forall err, appendOnly (IsNotFound err))
  /\ (forall err, appendOnly (IsAlreadyExists err))
  /\ (forall b, appendOnly (ErrorBuilder.Build b))
  /\ (forall err, readOnly (callError err))
  /\ (forall err target, readOnly (Is err target))
  /\ (forall err, readOnly (GetHTTPStatus err))
  /\ (forall err, readOnly (GetErrorID err))
  /\ (forall err, readOnly (IsBadRequest err))
  /\ (forall err, readOnly (IsServerError err))
  /\ (forall h h' a v, grows h h' -> nth_error (errors h) a = Some v ->
        nth_error (errors h') a = Some v).
Proof.
  repeat match goal with |- _ /\ _ => split end.
  - apply appendOnly_New.
  - apply appendOnly_Parse.
  - intros a. unfold constructors.
    repeat (apply Forall_cons;
            [match goal with |- appendOnly (?f a) => unfold f end; alloc|]).
    apply Forall_nil.
  - intros [|p|t] m; unfold Wrap; try apply appendOnly_New; alloc.
  - intros [|p|t] m; unfold WithDetail; try apply appendOnly_New; alloc.
  - intros err. unfold IsNotFound. apply appendOnly_bind;
      [apply readOnly_appendOnly, readOnly_Is|].
    intros [|]; [alloc|]. apply appendOnly_bind; [unfold NotFound; alloc|].
    intro. apply readOnly_appendOnly, readOnly_Is.
  - intros err. unfold IsAlreadyExists. apply appendOnly_bind;
      [apply readOnly_appendOnly, readOnly_Is|].
    intros [|]; [alloc|]. apply appendOnly_bind; [unfold Conflict; alloc|].
    intro. apply readOnly_appendOnly, readOnly_Is.
  - intros b. unfold ErrorBuilder.Build. apply appendOnly_bind; [alloc|].
    intro. apply appendOnly_New.
  - apply readOnly_callError.
  - apply readOnly_Is.
  - intros [|p|t]; unfold GetHTTPStatus; frame.
  - intros [|p|t]; unfold GetErrorID; frame.
  - intros [|p|t]; unfold IsBadRequest; frame.
  - intros [|p|t]; unfold IsServerError; frame.
  - apply grows_nth_error.
Qed.

Lemma errors_append_only_witness :
  grows initial (extend initial (mkError "" 0 "not json" "")).
Proof.
  exact (proj1 (proj2 errors_append_only) "not json" initial (Some 6%nat) _
           eq_refl).
Defined.

(** ** Comparison across types *)

Lemma Is_foreign_foreign (s t : string) (h : heap) :
  Is (OtherError s) (OtherError t) h = Ok (String.eqb s t) h.
Proof. reflexivity. Qed.

Lemma Is_foreign_Error (s : string) (h : heap) (b : nat) (eb : Error) :
  nth_error (errors h) b = Some eb ->
  Is (OtherError s) (PtrError (Some b)) h
  = Ok (String.eqb s (json.Marshal (Some eb))) h.
Proof.
  intros H. unfold Is, bind, callError, Error.Error, ret; simpl.
  now rewrite H.
Qed.

Lemma Is_Error_foreign (s : string) (h : heap) (b : nat) (eb : Error) :
  nth_error (errors h) b = Some eb ->
  Is (PtrError (Some b)) (OtherError s) h
  = Ok (String.eqb (json.Marshal (Some eb)) s) h.
Proof.
  intros H. unfold Is, bind, callError, Error.Error, ret; simpl.
  now rewrite H.
Qed.

(** X2: when one of the two errors is not an [*Error], [Is] compares the texts
    of the two errors: two errors of other types are equal exactly when
    their messages are; an error of another type equals an [*Error] exactly
    when its message is the JSON text of that [Error], so an error made
    from the text of [e.Error()] is equal to [e]. *)
Theorem Is_compares_texts (h : heap) (s t : string) (b : nat) (eb : Error) :
  nth_error (errors h) b = Some eb ->
  (exists r, Is (OtherError s) (OtherError t) h = Ok r h
             /\ (r = true <-> s = t))
  /\ (exists r, Is (OtherError s) (PtrError (Some b)) h = Ok r h
                /\ (r = true <-> s = json.Marshal (Some eb)))
  /\ (exists r, Is (PtrError (Some b)) (OtherError s) h = Ok r h
                /\ (r = true <-> s = json.Marshal (Some eb)))
  /\ (text <- callError (PtrError (Some b)) ;;
      Is (OtherError text) (PtrError (Some b))) h = Ok true h.
Proof.
  intros H. repeat match goal with |- _ /\ _ => split end.
  - eexists. split; [apply Is_foreign_foreign | apply String.eqb_eq].
  - eexists. split; [apply (Is_foreign_Error _ _ _ _ H) | apply String.eqb_eq].
  - eexists. split; [apply (Is_Error_foreign _ _ _ _ H)|].
    rewrite String.eqb_eq. split; congruence.
  - unfold bind, callError, Error.Error. rewrite H.
    rewrite (Is_foreign_Error _ _ _ _ H). now rewrite String.eqb_refl.
Qed.

Lemma Is_compares_texts_witness :
  (text <- callError ErrDatabaseOperation ;;
   Is (OtherError text) ErrDatabaseOperation) initial = Ok true initial.
Proof.
  exact (proj2 (proj2 (proj2
    (Is_compares_texts initial "a" "b" 4
       (mkError "500" 500 "database operation failed" "Internal Server Error")
       eq_refl)))).
Defined.

(** X3: on pointers to [Error]s of the heap [Is] is reflexive and
    transitive: with its symmetry, the equivalence of equal [Id]s. *)
Theorem Is_equivalence (h : heap) (a b c : nat) (ea eb ec : Error) :
  nth_error (errors h) a = Some ea ->
  nth_error (errors h) b = Some eb ->
  nth_error (errors h) c = Some ec ->
  Is (PtrError (Some a)) (PtrError (Some a)) h = Ok true h
  /\ (Is (PtrError (Some a)) (PtrError (Some b)) h = Ok true h ->
      Is (PtrError (Some b)) (PtrError (Some c)) h = Ok true h ->
      Is (PtrError (Some a)) (PtrError (Some c)) h = Ok true h).
Proof.
  intros Ha Hb Hc.
  rewrite (Is_Error _ _ _ _ _ Ha Ha), (Is_Error _ _ _ _ _ Ha Hb),
    (Is_Error _ _ _ _ _ Hb Hc), (Is_Error _ _ _ _ _ Ha Hc).
  split; [now rewrite String.eqb_refl|].
  intros H1 H2. inversion H1 as [E1]. inversion H2 as [E2].
  apply String.eqb_eq in E1, E2. rewrite E1, E2.
  now rewrite !String.eqb_refl.
Qed.

Lemma Is_equivalence_witness :
  Is ErrCollateralSyncFailed ErrCollateralSyncFailed initial = Ok true initial
  /\ (Is ErrCollateralSyncFailed ErrExternalService initial = Ok true initial ->
      Is ErrExternalService ErrCollateralSyncFailed initial = Ok true initial ->
      Is ErrCollateralSyncFailed ErrCollateralSyncFailed initial
      = Ok true initial).
Proof.
  exact (Is_equivalence initial 3 5 3 _ _ _ eq_refl eq_refl eq_refl).
Defined.

(** X4: across types [Is] is not transitive: an error of another type whose
    message is the text of an [Error] [ea] equals [ea], [ea] equals every
    [Error] [eb] of the same [Id], yet the first does not equal [eb] when
    the texts of [ea] and [eb] differ. *)
Theorem Is_not_transitive (h : heap) (a b : nat) (ea eb : Error) :
  nth_error (errors h) a = Some ea ->
  nth_error (errors h) b = Some eb ->
  Id ea = Id eb ->
  json.Marshal (Some ea) <> json.Marshal (Some eb) ->
  let x := OtherError (json.Marshal (Some ea)) in
  Is x (PtrError (Some a)) h = Ok true h
  /\ Is (PtrError (Some a)) (PtrError (Some b)) h = Ok true h
  /\ Is x (PtrError (Some b)) h = Ok false h.
Proof.
  intros Ha Hb Hi Hn x. unfold x.
  rewrite (Is_foreign_Error _ _ _ _ Ha), (Is_foreign_Error _ _ _ _ Hb),
    (Is_Error _ _ _ _ _ Ha Hb), Hi, !String.eqb_refl.
  repeat split. apply String.eqb_neq in Hn. now rewrite Hn.
Qed.

Lemma Is_not_transitive_witness :
  let x := OtherError (json.Marshal
             (Some (mkError "503" 503 "collateral synchronization failed"
                            "Service Unavailable"))) in
  Is x ErrCollateralSyncFailed initial = Ok true initial
  /\ Is ErrCollateralSyncFailed ErrExternalService initial = Ok true initial
  /\ Is x ErrExternalService initial = Ok false initial.
Proof.
  apply (Is_not_transitive initial 3 5
           (mkError "503" 503 "collateral synchronization failed"
                    "Service Unavailable")
           (mkError "503" 503 "external service unavailable"
                    "Service Unavailable")
           eq_refl eq_refl eq_refl).
  vm_compute. discriminate.
Defined.

(** ** Nil pointers *)

(** X5: a nil [*Error] inside a non-nil [error] is not the nil error: [Is]
    does not return false on it but dereferences it, and so do the
    accessors, the range predicates, the domain predicates and the
    wrapping functions; all panic.  The method [Error] alone accepts the
    nil receiver and returns the text [null].  The methods of a nil
    [*ErrorBuilder] panic as well. *)
Theorem nil_pointers_panic (h : heap) (p : ptr) (s : string) (c : Z)
        (a : list fmt.arg) :
  Is (PtrError None) (PtrError p) h = Panic
  /\ Is (PtrError p) (PtrError None) h = Panic
  /\ GetHTTPStatus (PtrError None) h = Panic
  /\ GetErrorID (PtrError None) h = Panic
  /\ IsBadRequest (PtrError None) h = Panic
  /\ IsServerError (PtrError None) h = Panic
  /\ IsNotFound (PtrError None) h = Panic
  /\ IsAlreadyExists (PtrError None) h = Panic
  /\ Wrap (PtrError None) s h = Panic
  /\ WithDetail (PtrError None) s h = Panic
  /\ callError (PtrError None) h = Ok "null" h
  /\ ErrorBuilder.WithID None s h = Panic
  /\ ErrorBuilder.WithCode None c h = Panic
  /\ ErrorBuilder.WithDetail None s h = Panic
  /\ ErrorBuilder.WithDetailf None s a h = Panic
  /\ ErrorBuilder.Build None h = Panic.
Proof.
  repeat match goal with |- _ /\ _ => split end; try reflexivity.
  unfold Is, bind, load; simpl. destruct p as [n|]; [|reflexivity].
  now destruct (nth_error (errors h) n).
Qed.

(** ** Wrapping, continued *)

Lemma Sprintf_wrap_v (message text : string) :
  fmt.Sprintf "%s: %v" [fmt.Str message; fmt.Str text]
  = Some (message ++ ": " ++ text).
Proof. unfold fmt.Sprintf; simpl. now rewrite append_nil_r. Qed.

Lemma Wrap_Error (h : heap) (a : nat) (e : Error) (m : string) :
  nth_error (errors h) a = Some e ->
  Wrap (PtrError (Some a)) m h
  = Ok (PtrError (Some (next h)))
       (extend h (mkError (Id e) (Code e) (m ++ ": " ++ Detail e) (Status e))).
Proof.
  intros H. unfold Wrap, bind, load, sprintf, newError, ret.
  now rewrite H, Sprintf_wrap.
Qed.

Lemma WithDetail_Error (h : heap) (a : nat) (e : Error) (d : string) :
  nth_error (errors h) a = Some e ->
  WithDetail (PtrError (Some a)) d h
  = Ok (PtrError (Some (next h)))
       (extend h (mkError (Id e) (Code e) d (Status e))).
Proof.
  intros H. unfold WithDetail, bind, load, newError, ret. now rewrite H.
Qed.

Lemma GetHTTPStatus_Error (h : heap) (a : nat) (e : Error) :
  nth_error (errors h) a = Some e ->
  GetHTTPStatus (PtrError (Some a)) h = Ok (Code e) h.
Proof. intros H. unfold GetHTTPStatus, bind, load, ret. now rewrite H. Qed.

Lemma GetErrorID_Error (h : heap) (a : nat) (e : Error) :
  nth_error (errors h) a = Some e ->
  GetErrorID (PtrError (Some a)) h = Ok (Id e) h.
Proof. intros H. unfold GetErrorID, bind, load, ret. now rewrite H. Qed.

Lemma GetHTTPStatus_fresh (h : heap) (e : Error) :
  GetHTTPStatus (PtrError (Some (next h))) (extend h e)
  = Ok (Code e) (extend h e).
Proof. apply GetHTTPStatus_Error, nth_error_snoc. Qed.

Lemma GetErrorID_fresh (h : heap) (e : Error) :
  GetErrorID (PtrError (Some (next h))) (extend h e) = Ok (Id e) (extend h e).
Proof. apply GetErrorID_Error, nth_error_snoc. Qed.

Lemma Wrap_nil_run (h : heap) (m : string) :
  Wrap NilError m h
  = Ok (PtrError (Some (next h)))
       (extend h (mkError "WRAPPED_ERROR" 500 m "Internal Server Error")).
Proof. reflexivity. Qed.

Lemma Wrap_foreign_run (h : heap) (text m : string) :
  Wrap (OtherError text) m h
  = Ok (PtrError (Some (next h)))
       (extend h (mkError "WRAPPED_ERROR" 500 (m ++ ": " ++ text)
                          "Internal Server Error")).
Proof. unfold Wrap, bind, sprintf. now rewrite Sprintf_wrap_v. Qed.


(** X7: [GetHTTPStatus] gives the same code before and after wrapping, for
    every error: the nil error and an error of another type have the
    fallback 500 and are wrapped into a 500 error, an [*Error] keeps its
    code. *)
Theorem status_survives_wrapping (h : heap) (err : error) (m d : string) :
  wellFormed h err ->
  exists c,
    GetHTTPStatus err h = Ok c h
    /\ (exists h', (w <- Wrap err m ;; GetHTTPStatus w) h = Ok c h')
    /\ (exists h', (w <- WithDetail err d ;; GetHTTPStatus w) h = Ok c h').
Proof.
  destruct err as [|p|text]; cbn [wellFormed].
  - intros _. exists 500. split; [reflexivity|].
    split; eexists; unfold bind, Wrap, WithDetail; rewrite New_run;
      apply GetHTTPStatus_fresh.
  - intros (a & e & -> & H). exists (Code e).
    split; [apply (GetHTTPStatus_Error _ _ _ H)|].
    split; eexists; unfold bind.
    + rewrite (Wrap_Error _ _ _ _ H), GetHTTPStatus_fresh. reflexivity.
    + rewrite (WithDetail_Error _ _ _ _ H), GetHTTPStatus_fresh. reflexivity.
  - intros _. exists 500. split; [reflexivity|].
    split; eexists; unfold bind.
    + rewrite Wrap_foreign_run. apply GetHTTPStatus_fresh.
    + unfold WithDetail. rewrite New_run. apply GetHTTPStatus_fresh.
Qed.

Lemma status_survives_wrapping_witness :
  exists c,
    GetHTTPStatus ErrCollateralExists initial = Ok c initial
    /\ (exists h', (w <- Wrap ErrCollateralExists "insert" ;; GetHTTPStatus w)
                     initial = Ok c h')
    /\ (exists h', (w <- WithDetail ErrCollateralExists "dup" ;;
                    GetHTTPStatus w) initial = Ok c h').
Proof.
  apply (status_survives_wrapping initial ErrCollateralExists "insert" "dup").
  simpl. eexists _, _. split; reflexivity.
Defined.

(** X8: an [*Error] keeps its class through wrapping: the result of [Wrap] and
    of [WithDetail] is equal to the original for [Is], has its [Id], and
    is a bad request or a server error exactly when the original is. *)
Theorem wrapping_keeps_class (h : heap) (a : nat) (e : Error) (m : string) :
  nth_error (errors h) a = Some e ->
  Forall (fun wrap : error -> string -> M error =>
    exists h',
      (w <- wrap (PtrError (Some a)) m ;; Is w (PtrError (Some a))) h
      = Ok true h'
      /\ (w <- wrap (PtrError (Some a)) m ;; GetErrorID w) h = Ok (Id e) h'
      /\ (w <- wrap (PtrError (Some a)) m ;; IsBadRequest w) h
         = Ok ((400 <=? Code e) && (Code e <? 500)) h'
      /\ (w <- wrap (PtrError (Some a)) m ;; IsServerError w) h
         = Ok ((500 <=? Code e) && (Code e <? 600)) h'
      /\ IsBadRequest (PtrError (Some a)) h'
         = Ok ((400 <=? Code e) && (Code e <? 500)) h'
      /\ IsServerError (PtrError (Some a)) h'
         = Ok ((500 <=? Code e) && (Code e <? 600)) h')
    [Wrap; WithDetail].
Proof.
  intros H. repeat (apply Forall_cons; [|]); [| |apply Forall_nil];
    eexists; unfold bind;
    rewrite ?(Wrap_Error _ _ _ _ H), ?(WithDetail_Error _ _ _ _ H);
    (repeat match goal with |- _ /\ _ => split end;
     [ rewrite (Is_fresh_old _ _ _ _ H); cbn [Id];
       now rewrite String.eqb_refl
     | now rewrite GetErrorID_fresh
     | now rewrite IsBadRequest_fresh
     | now rewrite IsServerError_fresh
     | apply IsBadRequest_Error; now apply nth_error_snoc_old
     | apply IsServerError_Error; now apply nth_error_snoc_old ]).
Qed.

Lemma wrapping_keeps_class_witness :
  exists h',
    (w <- Wrap ErrInvalidCollateralInput "validate" ;;
     Is w ErrInvalidCollateralInput) initial = Ok true h'.
Proof.
  pose proof (wrapping_keeps_class initial 2
                (mkError "400" 400 "invalid collateral input" "Bad Request")
                "validate" eq_refl) as H.
  apply Forall_inv in H. destruct H as (h' & H & _). now exists h'.
Defined.

(** X9: wrapping composes: the message given last comes first in the detail,
    and [WithDetail] discards what [Wrap] added before it. *)
Theorem wrapping_composes (h : heap) (a : nat) (e : Error) (m1 m2 d : string) :
  nth_error (errors h) a = Some e ->
  let w1 := mkError (Id e) (Code e) (m1 ++ ": " ++ Detail e) (Status e) in
  (w <- Wrap (PtrError (Some a)) m1 ;; Wrap w m2) h
  = Ok (PtrError (Some (S (next h))))
       (extend (extend h w1)
          (mkError (Id e) (Code e) (m2 ++ ": " ++ m1 ++ ": " ++ Detail e)
                   (Status e)))
  /\ (w <- Wrap (PtrError (Some a)) m1 ;; WithDetail w d) h
     = Ok (PtrError (Some (S (next h))))
          (extend (extend h w1) (mkError (Id e) (Code e) d (Status e)))
  /\ (w <- WithDetail (PtrError (Some a)) d ;; Wrap w m2) h
     = Ok (PtrError (Some (S (next h))))
          (extend (extend h (mkError (Id e) (Code e) d (Status e)))
             (mkError (Id e) (Code e) (m2 ++ ": " ++ d) (Status e))).
Proof.
  intros H w1. unfold bind.
  rewrite (Wrap_Error _ _ _ _ H), (WithDetail_Error _ _ _ _ H).
  repeat match goal with |- _ /\ _ => split end.
  - erewrite Wrap_Error by apply nth_error_snoc. now rewrite next_extend.
  - erewrite WithDetail_Error by apply nth_error_snoc. now rewrite next_extend.
  - erewrite Wrap_Error by apply nth_error_snoc. now rewrite next_extend.
Qed.

Lemma wrapping_composes_witness :
  (w <- Wrap ErrCollateralNotFound "load" ;; Wrap w "handler") initial
  = Ok (PtrError (Some 7%nat))
       (extend (extend initial
                  (mkError "404" 404 "load: collateral not found" "Not Found"))
          (mkError "404" 404 "handler: load: collateral not found"
                   "Not Found")).
Proof.
  exact (proj1 (wrapping_composes initial 0
                  (mkError "404" 404 "collateral not found" "Not Found")
                  "load" "handler" "d" eq_refl)).
Defined.

(** ** The fields the constructors fix *)

Ltac ctor_run :=
  rewrite ?BadRequest_run, ?Unauthorized_run, ?Forbidden_run, ?NotFound_run,
    ?MethodNotAllowed_run, ?Timeout_run, ?Conflict_run,
    ?InternalServerError_run, ?ServiceUnavailable_run, ?GatewayTimeout_run.

(** X10: whatever the operands, each constructor returns an [Error] with its
    code, the decimal text of the code as [Id] and the text the status
    table has for the code, which is not empty. *)
Theorem constructors_fixed_fields (a : list fmt.arg) (h : heap) :
  Forall (fun '(ctor, c) =>
            exists e : Error,
              ctor a h = Ok (PtrError (Some (next h))) (extend h e)
              /\ Code e = c
              /\ Id e = strconv.FormatInt c
              /\ Status e = http.StatusText c
              /\ Status e <> ""
              /\ (x <- ctor a ;; GetHTTPStatus x) h = Ok c (extend h e)
              /\ (x <- ctor a ;; GetErrorID x) h
                 = Ok (strconv.FormatInt c) (extend h e))
         coded.
Proof.
  unfold coded.
  repeat (apply Forall_cons;
    [eexists; unfold bind; ctor_run;
     rewrite GetHTTPStatus_fresh, GetErrorID_fresh;
     repeat match goal with |- _ /\ _ => split end;
     try reflexivity; discriminate|]).
  apply Forall_nil.
Qed.

(** X11: every constructor is classified by its code, whatever the operands:
    the result of the seven 4xx constructors is a bad request and no
    server error, the result of the three 5xx constructors is a server
    error and no bad request. *)
Theorem constructors_classified (a : list fmt.arg) (h : heap) :
  Forall (fun '(ctor, c) =>
            exists h',
              (x <- ctor a ;; IsBadRequest x) h = Ok (c <? 500) h'
              /\ (x <- ctor a ;; IsServerError x) h = Ok (500 <=? c) h')
         coded.
Proof.
  unfold coded.
  repeat (apply Forall_cons;
    [eexists; unfold bind; ctor_run;
     rewrite IsBadRequest_fresh, IsServerError_fresh;
     split; reflexivity|]).
  apply Forall_nil.
Qed.

(** X12: no error is both a bad request and a server error; the nil error and
    an error of another type are neither. *)
Theorem range_classes_exclusive (h : heap) (err : error) (text : string) :
  wellFormed h err ->
  (exists b1 b2, IsBadRequest err h = Ok b1 h
                 /\ IsServerError err h = Ok b2 h
                 /\ b1 && b2 = false)
  /\ IsBadRequest NilError h = Ok false h
  /\ IsServerError NilError h = Ok false h
  /\ IsBadRequest (OtherError text) h = Ok false h
  /\ IsServerError (OtherError text) h = Ok false h.
Proof.
  intros H. split; [|repeat split].
  destruct err as [|p|t]; cbn [wellFormed] in H.
  - now exists false, false.
  - destruct H as (a & e & -> & H).
    rewrite (IsBadRequest_Error _ _ _ H), (IsServerError_Error _ _ _ H).
    eexists _, _. repeat split.
    destruct (Z.ltb_spec (Code e) 500), (Z.leb_spec 500 (Code e));
      try lia; now rewrite ?andb_false_r.
  - now exists false, false.
Qed.

Lemma range_classes_exclusive_witness :
  exists b1 b2, IsBadRequest ErrExternalService initial = Ok b1 initial
                /\ IsServerError ErrExternalService initial = Ok b2 initial
                /\ b1 && b2 = false.
Proof.
  apply (range_classes_exclusive initial ErrExternalService "x").
  simpl. eexists _, _. split; reflexivity.
Defined.

(** ** The status of a code *)

Lemma StatusText_In (c : Z) :
  http.StatusText c <> "" <-> In c (map fst http.statusText).
Proof.
  unfold http.StatusText. split.
  - destruct (find _ http.statusText) as [kv|] eqn:F; [|congruence].
    intros _. apply find_some in F as [Hin Hc]. apply Z.eqb_eq in Hc.
    subst c. now apply in_map.
  - intros Hin. destruct (find _ http.statusText) as [kv|] eqn:F.
    + apply find_some in F as [Hk _].
      assert (H : forallb (fun kv => negb (String.eqb (snd kv) ""))
                    http.statusText = true) by (vm_compute; reflexivity).
      rewrite forallb_forall in H. apply H in Hk.
      apply negb_true_iff, String.eqb_neq in Hk. exact Hk.
    + apply in_map_iff in Hin as (kv & <- & Hk).
      apply (find_none _ _ F) in Hk. now rewrite Z.eqb_refl in Hk.
Qed.

(** X13: [New] stores the text of the status table for the code; the status is
    empty exactly when the table has no entry for the code, as for every
    code below 100 or above 511. *)
Theorem New_status_table (h : heap) (i d : string) (c : Z) :
  exists e,
    New i d c h = Ok (PtrError (Some (next h))) (extend h e)
    /\ Id e = i /\ Code e = c /\ Detail e = d
    /\ Status e = http.StatusText c
    /\ (Status e = "" <-> ~ In c (map fst http.statusText))
    /\ (c < 100 \/ 511 < c -> Status e = "").
Proof.
  eexists. split; [apply New_run|]. cbn [Id Code Detail Status].
  repeat match goal with |- _ /\ _ => split end; try reflexivity.
  - split.
    + intros E Hin. now apply StatusText_In in Hin.
    + intros N. destruct (string_dec (http.StatusText c) "") as [E|E];
        [assumption|]. now apply StatusText_In in E.
  - intros Hc. destruct (string_dec (http.StatusText c) "") as [E|E];
      [assumption|]. apply StatusText_In in E. exfalso.
    assert (H : forallb (fun k => (100 <=? k) && (k <=? 511))
                  (map fst http.statusText) = true)
      by (vm_compute; reflexivity).
    rewrite forallb_forall in H. apply H in E. lia.
Qed.

(** ** Domain predicates and domain errors by identity *)

(** The heaps in which the domain errors are intact: the initial one, and
    every heap that a function of the package makes of such a heap, a
    function on builders as well. *)
Lemma intact_later : intact later.
Proof. now exists [mkError "X" 418 "teapot" "I'm a teapot"]. Qed.

Lemma intact_initial : intact initial.
Proof. exists []. reflexivity. Qed.

Lemma intact_nth_error (h : heap) (a : nat) (v : Error) :
  intact h -> nth_error (errors initial) a = Some v ->
  nth_error (errors h) a = Some v.
Proof.
  intros [l E] H. rewrite E, nth_error_app1; [assumption|].
  now apply nth_error_old_lt in H.
Qed.

Lemma intact_grows (h h' : heap) : intact h -> grows h h' -> intact h'.
Proof.
  intros [l E] [[l' E'] _]. exists (l ++ l')%list.
  now rewrite E', E, app_assoc.
Qed.

Lemma intact_appendOnly {A} (m : M A) : appendOnly m -> keeps intact m.
Proof. intros Hm h a h' Hi E. apply (intact_grows h); eauto. Qed.

Lemma intact_same_errors (h h' : heap) :
  intact h -> errors h' = errors h -> intact h'.
Proof. intros [l E] E'. exists l. congruence. Qed.

Lemma intact_NewBuilder : keeps intact NewBuilder.
Proof.
  intros h a h' Hi E. unfold NewBuilder, newBuilder in E.
  apply (intact_same_errors h); [assumption|]. now inversion E.
Qed.

Lemma intact_storeBuilder (b : ptr) (v : ErrorBuilder) :
  keeps intact (storeBuilder b v).
Proof.
  intros h a h' Hi E. unfold storeBuilder in E.
  destruct b as [n|]; [|discriminate].
  destruct (nth_error (builders h) n); [|discriminate].
  apply (intact_same_errors h); [assumption|]. now inversion E.
Qed.

Lemma intact_call (b : ptr) (s : setter) : keeps intact (call b s).
Proof.
  destruct s; cbn [call];
    unfold ErrorBuilder.WithID, ErrorBuilder.WithCode,
      ErrorBuilder.WithDetail, ErrorBuilder.WithDetailf;
    repeat first [ apply keeps_bind; [|intro]
                 | apply intact_storeBuilder
                 | apply keeps_readOnly; frame ].
Qed.

Lemma Is_nth (h : heap) (a b : nat) (ea eb : Error) (r : bool) :
  nth_error (errors h) a = Some ea ->
  nth_error (errors h) b = Some eb ->
  String.eqb (Id ea) (Id eb) = r ->
  Is (PtrError (Some a)) (PtrError (Some b)) h = Ok r h.
Proof. intros Ha Hb <-. now apply Is_Error. Qed.

Lemma Is_old_fresh (h : heap) (e v : Error) (a : nat) :
  nth_error (errors h) a = Some v ->
  Is (PtrError (Some a)) (PtrError (Some (next h))) (extend h e)
  = Ok (String.eqb (Id v) (Id e)) (extend h e).
Proof.
  intros H. apply Is_Error.
  - now apply nth_error_snoc_old.
  - apply nth_error_snoc.
Qed.

Lemma sentinel0 (h : heap) :
  intact h ->
  nth_error (errors h) 0
  = Some (mkError "404" 404 "collateral not found" "Not Found").
Proof. intros G. now apply intact_nth_error. Qed.

Lemma sentinel1 (h : heap) :
  intact h ->
  nth_error (errors h) 1
  = Some (mkError "409" 409 "collateral already exists" "Conflict").
Proof. intros G. now apply intact_nth_error. Qed.

Lemma IsNotFound_by_Id (h : heap) (a : nat) (e : Error) :
  intact h ->
  nth_error (errors h) a = Some e ->
  IsNotFound (PtrError (Some a)) h
  = Ok (String.eqb (Id e) "404")
       (if String.eqb (Id e) "404" then h
        else extend h (mkError "404" 404 "" "Not Found")).
Proof.
  intros G H. unfold IsNotFound, bind, ErrCollateralNotFound.
  rewrite (Is_Error _ _ _ _ _ H (sentinel0 h G)). cbn [Id].
  destruct (String.eqb (Id e) "404") eqn:E; [reflexivity|].
  rewrite NotFound_run, (Is_old_fresh _ _ _ _ H). cbn [Id].
  now rewrite E.
Qed.

Lemma IsAlreadyExists_by_Id (h : heap) (a : nat) (e : Error) :
  intact h ->
  nth_error (errors h) a = Some e ->
  IsAlreadyExists (PtrError (Some a)) h
  = Ok (String.eqb (Id e) "409")
       (if String.eqb (Id e) "409" then h
        else extend h (mkError "409" 409 "" "Conflict")).
Proof.
  intros G H. unfold IsAlreadyExists, bind, ErrCollateralExists.
  rewrite (Is_Error _ _ _ _ _ H (sentinel1 h G)). cbn [Id].
  destruct (String.eqb (Id e) "409") eqn:E; [reflexivity|].
  rewrite Conflict_run, (Is_old_fresh _ _ _ _ H). cbn [Id].
  now rewrite E.
Qed.

(** X14: in a heap that holds the domain errors as the initialisation
    left them, whatever errors and builders it holds besides,
    [IsNotFound] is true on an [*Error] exactly when its [Id] is "404" and
    [IsAlreadyExists] exactly when its [Id] is "409", whatever its code and
    however it was built; on the nil error both are false.  A call that
    does not match the domain error leaves behind the error it built to
    compare with. *)
Theorem domain_predicates_by_Id (h : heap) (a : nat) (e : Error) :
  intact h ->
  nth_error (errors h) a = Some e ->
  let probe404 := extend h (mkError "404" 404 "" "Not Found") in
  let probe409 := extend h (mkError "409" 409 "" "Conflict") in
  IsNotFound (PtrError (Some a)) h
  = Ok (String.eqb (Id e) "404")
       (if String.eqb (Id e) "404" then h else probe404)
  /\ IsAlreadyExists (PtrError (Some a)) h
     = Ok (String.eqb (Id e) "409")
          (if String.eqb (Id e) "409" then h else probe409)
  /\ IsNotFound NilError h = Ok false probe404
  /\ IsAlreadyExists NilError h = Ok false probe409.
Proof.
  intros G H probe404 probe409.
  repeat match goal with |- _ /\ _ => split end; try reflexivity.
  - now apply IsNotFound_by_Id.
  - now apply IsAlreadyExists_by_Id.
Qed.

Lemma domain_predicates_by_Id_witness :
  let h := later in
  IsNotFound ErrCollateralExists h
  = Ok false (extend h (mkError "404" 404 "" "Not Found"))
  /\ IsAlreadyExists ErrCollateralExists h = Ok true h.
Proof.
  destruct (domain_predicates_by_Id
              (later) 1
              (mkError "409" 409 "collateral already exists" "Conflict")
              intact_later eq_refl) as (H1 & H2 & _).
  split; [exact H1 | exact H2].
Defined.

(** X15: in a heap that holds the domain errors as the initialisation
    left them, the domain predicates give the same answer on a wrapped
    [Error] as on the original: after [Wrap] and after [WithDetail],
    [IsNotFound] and [IsAlreadyExists] return what they return on the error
    itself. *)
Theorem domain_predicates_survive_wrapping
        (h : heap) (a : nat) (e : Error) (m : string) :
  intact h ->
  nth_error (errors h) a = Some e ->
  Forall (fun wrap : error -> string -> M error =>
    exists r1 r2 h0 h1 h2 h3,
      IsNotFound (PtrError (Some a)) h = Ok r1 h0
      /\ (w <- wrap (PtrError (Some a)) m ;; IsNotFound w) h = Ok r1 h1
      /\ IsAlreadyExists (PtrError (Some a)) h = Ok r2 h2
      /\ (w <- wrap (PtrError (Some a)) m ;; IsAlreadyExists w) h = Ok r2 h3
      /\ (r1 = true <-> Id e = "404") /\ (r2 = true <-> Id e = "409"))
    [Wrap; WithDetail].
Proof.
  intros G H.
  repeat (apply Forall_cons; [|]); [| |apply Forall_nil];
    exists (String.eqb (Id e) "404"), (String.eqb (Id e) "409");
    eexists _, _, _, _; unfold bind;
    rewrite ?(Wrap_Error _ _ _ _ H), ?(WithDetail_Error _ _ _ _ H);
    rewrite (IsNotFound_by_Id _ _ _ G H), (IsAlreadyExists_by_Id _ _ _ G H);
    erewrite IsNotFound_by_Id
      by first [ apply nth_error_snoc
               | apply (intact_grows h); [exact G | apply grows_extend] ];
    erewrite IsAlreadyExists_by_Id
      by first [ apply nth_error_snoc
               | apply (intact_grows h); [exact G | apply grows_extend] ];
    cbn [Id];
    (repeat match goal with |- _ /\ _ => split end;
     try reflexivity; apply String.eqb_eq).
Qed.

Lemma domain_predicates_survive_wrapping_witness :
  exists h1,
    (w <- Wrap ErrCollateralNotFound "lookup" ;; IsNotFound w)
      (later)
    = Ok true h1.
Proof.
  pose proof (domain_predicates_survive_wrapping
                (later) 0
                (mkError "404" 404 "collateral not found" "Not Found")
                "lookup" intact_later eq_refl) as F.
  apply Forall_inv in F.
  destruct F as (r1 & r2 & h0 & h1 & h2 & h3 & _ & H & _ & _ & Hr & _).
  exists h1. unfold ErrCollateralNotFound. rewrite H.
  apply (f_equal (fun r => Ok r h1)). now apply Hr.
Defined.

Lemma sentinel_fields (h : heap) :
  intact h ->
  Forall (fun '(x, c) =>
            exists a e, x = PtrError (Some a)
                        /\ nth_error (errors h) a = Some e
                        /\ Code e = c /\ Id e = strconv.FormatInt c)
         sentinels.
Proof.
  intros G. unfold sentinels.
  repeat (apply Forall_cons;
    [eexists _, _; split; [reflexivity|]; split;
     [apply (intact_nth_error _ _ _ G); reflexivity
     | split; reflexivity]|]).
  apply Forall_nil.
Qed.

Lemma FormatInt_code_eqb (c c' : Z) :
  In c [404; 409; 400; 503; 500] -> In c' [404; 409; 400; 503; 500] ->
  String.eqb (strconv.FormatInt c) (strconv.FormatInt c') = (c =? c').
Proof.
  simpl. intros H H'.
  repeat (destruct H as [<- | H]; [|]);
    repeat (destruct H' as [<- | H']; [|]);
    try reflexivity; contradiction.
Qed.

(** X16: in a heap that holds the domain errors as the initialisation
    left them, whatever errors and builders it holds besides, each domain
    error has the code of the constructor that built it and the decimal
    text of the code as [Id]; [Is] holds between two domain errors exactly
    when their codes are equal, so it does not tell
    [ErrCollateralSyncFailed] from [ErrExternalService]. *)
Theorem domain_errors_by_code (h : heap) :
  intact h ->
  Forall (fun '(x, cx) =>
            GetHTTPStatus x h = Ok cx h
            /\ GetErrorID x h = Ok (strconv.FormatInt cx) h
            /\ Forall (fun '(y, cy) => Is x y h = Ok (cx =? cy) h) sentinels)
         sentinels
  /\ Is ErrCollateralSyncFailed ErrExternalService h = Ok true h.
Proof.
  intros G. pose proof (sentinel_fields h G) as F.
  assert (K : Forall (fun '(_, c) => In c [404; 409; 400; 503; 500])
                     sentinels)
    by (unfold sentinels; repeat constructor; simpl; tauto).
  split.
  - rewrite Forall_forall in *. intros [x cx] Hx.
    pose proof (K _ Hx) as Kx. cbv beta iota in Kx.
    destruct (F _ Hx) as (a & ea & -> & Ha & <- & Hi).
    repeat split.
    + now apply GetHTTPStatus_Error.
    + rewrite <- Hi. now apply GetErrorID_Error.
    + apply Forall_forall. intros [y cy] Hy.
      pose proof (K _ Hy) as Ky. cbv beta iota in Ky.
      destruct (F _ Hy) as (b & eb & -> & Hb & <- & Hj).
      apply (Is_nth _ _ _ _ _ _ Ha Hb). rewrite Hi, Hj.
      now apply FormatInt_code_eqb.
  - apply (Is_nth _ _ _ _ _ _
             (intact_nth_error _ 3 _ G eq_refl)
             (intact_nth_error _ 5 _ G eq_refl)).
    reflexivity.
Qed.

Lemma domain_errors_by_code_witness :
  let h := later in
  Is ErrCollateralSyncFailed ErrExternalService h = Ok true h.
Proof.
  exact (proj2 (domain_errors_by_code
                  (later)
                  intact_later)).
Defined.

(** ** Chains on a builder *)

Lemma update_same {A} (l : list A) (n : nat) (x : A) :
  nth_error l n = Some x -> update n x l = l.
Proof.
  revert n; induction l as [|y l IH]; intros [|n] H; simpl in *;
    try discriminate; [congruence | now rewrite IH].
Qed.

Lemma update_update {A} (l : list A) (n : nat) (x y : A) :
  update n y (update n x l) = update n y l.
Proof.
  revert n; induction l as [|z l IH]; intros [|n]; simpl;
    try reflexivity. now rewrite IH.
Qed.

Lemma nth_error_update {A} (l : list A) (n : nat) (x y : A) :
  nth_error l n = Some y -> nth_error (update n x l) n = Some x.
Proof.
  revert n; induction l as [|z l IH]; intros [|n] H; simpl in *;
    try discriminate; auto.
Qed.

Lemma nth_error_update_other {A} (l : list A) (n m : nat) (x : A) :
  m <> n -> nth_error (update n x l) m = nth_error l m.
Proof.
  revert n m; induction l as [|z l IH]; intros [|n] [|m] H; simpl;
    try reflexivity; try congruence. apply IH. congruence.
Qed.

Lemma WithDetailf_run (h : heap) (b : nat) (v : ErrorBuilder)
      (f d : string) (a : list fmt.arg) :
  nth_error (builders h) b = Some v ->
  fmt.Sprintf f a = Some d ->
  ErrorBuilder.WithDetailf (Some b) f a h
  = Ok (Some b)
       (mkHeap (errors h)
               (update b (mkBuilder (id v) (code v) d) (builders h))).
Proof.
  intros H E.
  unfold ErrorBuilder.WithDetailf, bind, loadBuilder, sprintf, storeBuilder,
    ret.
  now rewrite H, E, H.
Qed.

Lemma call_run (h : heap) (b : nat) (v v' : ErrorBuilder) (s : setter) :
  nth_error (builders h) b = Some v ->
  assign v s = Some v' ->
  call (Some b) s h
  = Ok (Some b) (mkHeap (errors h) (update b v' (builders h))).
Proof.
  intros H E.
  destruct s as [x|c|d|f a]; cbn [call assign] in *.
  - inversion E; subst.
    unfold ErrorBuilder.WithID, bind, loadBuilder, storeBuilder, ret.
    now rewrite H, H.
  - inversion E; subst.
    unfold ErrorBuilder.WithCode, bind, loadBuilder, storeBuilder, ret.
    now rewrite H, H.
  - inversion E; subst.
    unfold ErrorBuilder.WithDetail, bind, loadBuilder, storeBuilder, ret.
    now rewrite H, H.
  - destruct (fmt.Sprintf f a) as [d|] eqn:Ed; [|discriminate E].
    inversion E; subst. now apply WithDetailf_run.
Qed.

Lemma chain_run (l : list setter) (h : heap) (b : nat)
      (v v' : ErrorBuilder) :
  nth_error (builders h) b = Some v ->
  assignAll v l = Some v' ->
  chain (Some b) l h
  = Ok (Some b) (mkHeap (errors h) (update b v' (builders h))).
Proof.
  revert h v; induction l as [|s l IH]; intros h v H E;
    cbn [chain assignAll] in *.
  - inversion E; subst. unfold ret. rewrite (update_same _ _ _ H).
    now destruct h.
  - destruct (assign v s) as [v1|] eqn:E1; [|discriminate E].
    unfold bind. rewrite (call_run _ _ _ _ _ H E1).
    rewrite (IH _ v1)
      by (assumption || (cbn [builders]; apply (nth_error_update _ _ _ _ H))).
    cbn [errors builders]. now rewrite update_update.
Qed.

(** The fields are known for every chain whose formats stay in the
    embedded part of [fmt]. *)
Lemma assignAll_None (l : list setter) (v : ErrorBuilder) :
  assignAll v l = None ->
  exists f a, In (SetDetailf f a) l /\ fmt.Sprintf f a = None.
Proof.
  revert v; induction l as [|s l IH]; intros v E; cbn [assignAll] in E;
    [discriminate E|].
  destruct (assign v s) as [v1|] eqn:E1.
  - destruct (IH _ E) as (f & a & Hin & Hf). exists f, a.
    split; [now right | assumption].
  - destruct s as [x|c|d|f a]; cbn [assign] in E1; try discriminate E1.
    exists f, a. split; [now left|].
    now destruct (fmt.Sprintf f a).
Qed.

(** X17: every chain of setters on a builder of the heap returns the pointer
    it started from and leaves in that builder the fields set one after
    the other, the last call for a field deciding; no other builder and
    no error changes.  [Build] then makes an [Error] of these fields, the
    status being the text of the table for the code set last.  On a new
    builder, in every heap, the fields not set are the [Id]
    "CUSTOM_ERROR", the code 500 and the empty detail.  The fields are
    those [assignAll] gives; it gives some for every chain, unless a
    [WithDetailf] of the chain has a format outside the verbs [v], [s],
    [d] and [t], of which nothing is said. *)
Theorem builder_any_chain (h : heap) (l : list setter) :
  (forall (b : nat) (v v' : ErrorBuilder),
      nth_error (builders h) b = Some v ->
      assignAll v l = Some v' ->
      let h' := mkHeap (errors h) (update b v' (builders h)) in
      chain (Some b) l h = Ok (Some b) h'
      /\ nth_error (builders h') b = Some v'
      /\ (forall b', b' <> b ->
            nth_error (builders h') b' = nth_error (builders h) b')
      /\ (x <- chain (Some b) l ;; ErrorBuilder.Build x) h
         = Ok (PtrError (Some (next h))) (extend h' (built v')))
  /\ (forall d : ErrorBuilder,
        assignAll (mkBuilder "CUSTOM_ERROR" 500 "") l = Some d ->
        (x <- NewBuilder ;; x <- chain x l ;; ErrorBuilder.Build x) h
        = Ok (PtrError (Some (next h)))
             (mkHeap (errors h ++ [built d]) (builders h ++ [d])))
  /\ (forall v : ErrorBuilder,
        assignAll v l = None ->
        exists f a, In (SetDetailf f a) l /\ fmt.Sprintf f a = None).
Proof.
  repeat match goal with |- _ /\ _ => split end.
  - intros b v v' H E h'.
    assert (Hb : nth_error (builders h') b = Some v')
      by (apply (nth_error_update _ _ _ _ H)).
    repeat match goal with |- _ /\ _ => split end.
    + now apply (chain_run _ _ _ v).
    + exact Hb.
    + intros b' N. now apply nth_error_update_other.
    + unfold bind. rewrite (chain_run _ _ _ _ _ H E). fold h'.
      now rewrite (Build_run _ _ _ Hb).
  - intros d E. unfold bind. rewrite NewBuilder_run.
    rewrite (chain_run _ _ _ (mkBuilder "CUSTOM_ERROR" 500 "") d)
      by (assumption || (cbn [builders]; apply nth_error_snoc)).
    cbn [errors builders]. rewrite update_snoc.
    erewrite Build_run by (cbn [builders]; apply nth_error_snoc).
    reflexivity.
  - intros v. apply assignAll_None.
Qed.

Lemma builder_any_chain_witness :
  (x <- NewBuilder ;;
   x <- chain x [SetCode 404; SetID "A";
                 SetDetailf "%s %d" [fmt.Str "n"; fmt.Int 7];
                 SetID "B"; SetCode 409] ;;
   ErrorBuilder.Build x) initial
  = Ok (PtrError (Some 6%nat))
       (mkHeap (errors initial ++ [mkError "B" 409 "n 7" "Conflict"])
               [mkBuilder "B" 409 "n 7"]).
Proof.
  exact (proj1 (proj2
    (builder_any_chain initial
       [SetCode 404; SetID "A"; SetDetailf "%s %d" [fmt.Str "n"; fmt.Int 7];
        SetID "B"; SetCode 409])) (mkBuilder "B" 409 "n 7") eq_refl).
Defined.

(** X18: [Build] copies: an error built before a setter is called keeps the
    fields the builder had then, and a second [Build] on the same builder
    makes another [Error], with the fields the builder has now.  The
    setter is any of the four; for [WithDetailf] the format is one of
    which [assign] knows the detail. *)
Theorem Build_copies (h : heap) (b : nat) (v v' : ErrorBuilder)
        (s : setter) :
  nth_error (builders h) b = Some v ->
  assign v s = Some v' ->
  (x <- ErrorBuilder.Build (Some b) ;;
   _ <- call (Some b) s ;;
   y <- ErrorBuilder.Build (Some b) ;;
   ret (x, y)) h
  = Ok (PtrError (Some (next h)), PtrError (Some (S (next h))))
       (mkHeap (errors h ++ [built v; built v'])
               (update b v' (builders h))).
Proof.
  intros H E. unfold bind. rewrite (Build_run _ _ _ H).
  rewrite (call_run _ _ v v') by assumption.
  erewrite Build_run
    by (cbn [builders extend]; apply (nth_error_update _ _ _ _ H)).
  unfold ret, extend, next, built. cbn [errors builders].
  rewrite length_app, <- app_assoc. cbn [List.length app].
  now rewrite Nat.add_1_r.
Qed.

Lemma Build_copies_witness :
  (x <- ErrorBuilder.Build (Some 0%nat) ;;
   _ <- call (Some 0%nat) (SetCode 404) ;;
   y <- ErrorBuilder.Build (Some 0%nat) ;;
   ret (x, y)) (mkHeap [] [mkBuilder "CUSTOM_ERROR" 500 "d"])
  = Ok (PtrError (Some 0%nat), PtrError (Some 1%nat))
       (mkHeap [mkError "CUSTOM_ERROR" 500 "d" "Internal Server Error";
                mkError "CUSTOM_ERROR" 404 "d" "Not Found"]
               [mkBuilder "CUSTOM_ERROR" 404 "d"]).
Proof.
  exact (Build_copies (mkHeap [] [mkBuilder "CUSTOM_ERROR" 500 "d"]) 0
           (mkBuilder "CUSTOM_ERROR" 500 "d")
           (mkBuilder "CUSTOM_ERROR" 404 "d") (SetCode 404) eq_refl eq_refl).
Defined.

(** ** Formats *)

Lemma Sprintf_noPercent_app (f g : string) (a : list fmt.arg) :
  noPercent f = true ->
  fmt.Sprintf (f ++ g) a = option_map (append f) (fmt.Sprintf g a).
Proof.
  unfold fmt.Sprintf.
  induction f as [|c f IH]; cbn [noPercent fmt.doPrintf append]; intros H.
  - now destruct (fmt.doPrintf g a).
  - apply andb_prop in H as [Hc Hf]. apply negb_true_iff in Hc.
    rewrite Hc, (IH Hf). now destruct (fmt.doPrintf g a).
Qed.

Lemma Sprintf_noPercent (f : string) (a : list fmt.arg) :
  noPercent f = true -> fmt.Sprintf f a = Some (f ++ fmt.extra a).
Proof.
  intros H. rewrite <- (append_nil_r f) at 1.
  now rewrite (Sprintf_noPercent_app _ _ _ H).
Qed.

Lemma WithDetail_run (h : heap) (b : nat) (v : ErrorBuilder) (d : string) :
  nth_error (builders h) b = Some v ->
  ErrorBuilder.WithDetail (Some b) d h
  = Ok (Some b)
       (mkHeap (errors h)
               (update b (mkBuilder (id v) (code v) d) (builders h))).
Proof. intros H. now apply (call_run h b v _ (SetDetail d)). Qed.

(** X19: [WithDetailf] formats as [fmt.Sprintf] does: a format without a
    percent sign is stored as it is when there is no operand, and is
    followed by the report of the operands when there are some; the format
    ["%s"] with one string stores the string, as [WithDetail] does;
    a verb without an operand is reported in the detail. *)
Theorem WithDetailf_formats (h : heap) (b : nat) (v : ErrorBuilder)
        (f s : string) (x : fmt.arg) (rest : list fmt.arg) :
  nth_error (builders h) b = Some v ->
  noPercent f = true ->
  let stored d := Ok (Some b)
                    (mkHeap (errors h)
                       (update b (mkBuilder (id v) (code v) d) (builders h))) in
  ErrorBuilder.WithDetailf (Some b) f [] h = stored f
  /\ ErrorBuilder.WithDetailf (Some b) f [] h
     = ErrorBuilder.WithDetail (Some b) f h
  /\ ErrorBuilder.WithDetailf (Some b) f (x :: rest) h
     = stored (f ++ "%!(EXTRA " ++ fmt.extraList (x :: rest) ++ ")")
  /\ ErrorBuilder.WithDetailf (Some b) "%s" [fmt.Str s] h
     = ErrorBuilder.WithDetail (Some b) s h
  /\ ErrorBuilder.WithDetailf (Some b) (f ++ "%s") [] h
     = stored (f ++ "%!s(MISSING)")
  /\ ErrorBuilder.WithDetailf (Some b) (f ++ "%") [] h
     = stored (f ++ "%!(NOVERB)").
Proof.
  intros H Hf stored. unfold stored.
  rewrite !(WithDetail_run _ _ _ _ H).
  repeat match goal with |- _ /\ _ => split end;
    apply (WithDetailf_run _ _ _ _ _ _ H).
  - rewrite (Sprintf_noPercent _ _ Hf). cbn [fmt.extra].
    now rewrite append_nil_r.
  - rewrite (Sprintf_noPercent _ _ Hf). cbn [fmt.extra].
    now rewrite append_nil_r.
  - rewrite (Sprintf_noPercent _ _ Hf). reflexivity.
  - apply Sprintf_s_string.
  - now rewrite (Sprintf_noPercent_app _ _ _ Hf).
  - now rewrite (Sprintf_noPercent_app _ _ _ Hf).
Qed.

Lemma WithDetailf_formats_witness :
  let h := mkHeap [] [mkBuilder "CUSTOM_ERROR" 500 ""] in
  ErrorBuilder.WithDetailf (Some 0%nat) "100" [] h
  = Ok (Some 0%nat) (mkHeap [] [mkBuilder "CUSTOM_ERROR" 500 "100"])
  /\ ErrorBuilder.WithDetailf (Some 0%nat) "100%" [] h
     = Ok (Some 0%nat)
          (mkHeap [] [mkBuilder "CUSTOM_ERROR" 500 "100%!(NOVERB)"]).
Proof.
  destruct (WithDetailf_formats (mkHeap [] [mkBuilder "CUSTOM_ERROR" 500 ""])
              0 (mkBuilder "CUSTOM_ERROR" 500 "") "100" "s" fmt.Nil []
              eq_refl eq_refl) as (H1 & _ & _ & _ & _ & H6).
  split; [exact H1 | exact H6].
Defined.

(** ** json: strings that are not valid UTF-8 *)

Lemma unquoteLoop_appendStringLoop_any (n : nat) (s : string) (f : nat) :
  (String.length (json.appendStringLoop n s) <= f)%nat ->
  json.unquoteLoop f (json.appendStringLoop n s) = Some (coerceFrom n s).
Proof.
  revert s f; induction n as [|n IH]; intros [|c s] f Hf;
    try (now destruct f).
  cbn [json.appendStringLoop coerceFrom] in *.
  destruct (Z.ltb_spec (byte c) utf8.RuneSelf) as [Hlo | Hhi].
  - rewrite (Decode_decoded _ _ _ (decoded1 c s Hlo)).
    pose proof (decoded_valid _ _ _ (decoded1 c s Hlo)) as Hi.
    unfold invalid in Hi. cbn [fst snd] in Hi. rewrite Hi.
    cbn [drop take append].
    destruct (json.htmlSafeSet (byte c)) eqn:Hs.
    + destruct f as [|f]; [simpl in Hf; lia|].
      rewrite unquoteLoop_plain1 by (auto using plain_safe).
      rewrite IH; [reflexivity | simpl in Hf; lia].
    + destruct f as [|f];
        [rewrite length_append in Hf;
         pose proof (length_escapeByte c); lia|].
      rewrite unquoteLoop_escapeByte by assumption.
      rewrite IH; [reflexivity |].
      rewrite length_append in Hf. pose proof (length_escapeByte c). lia.
  - rewrite Decode_take4 in *.
    destruct (Decode_cases c s) as [H | H]; cbv zeta in H.
    + apply invalid_eq in H. rewrite H in *.
      cbn [Z.eqb utf8.RuneError Pos.eqb Nat.eqb andb drop] in *.
      destruct f as [|f];
        [rewrite length_append in Hf; simpl in Hf; lia|].
      change (json.unquoteLoop (S f) _)
        with (json.consOpt (utf8.EncodeRune 0xFFFD)
                (json.unquoteLoop f (json.appendStringLoop n s))).
      rewrite IH by (rewrite length_append in Hf; simpl in Hf; lia).
      reflexivity.
    + destruct (utf8.DecodeRuneInString (String c s)) as [r k] eqn:E.
      cbn [fst snd] in H.
      pose proof (decoded_valid _ _ _ H) as Hi. unfold invalid in Hi.
      cbn [fst snd] in Hi. rewrite Hi in *.
      pose proof (decoded_Encode _ _ _ H) as En.
      pose proof (decoded_size _ _ _ H) as [Hk Hl].
      destruct f as [|f].
      { exfalso. revert Hf.
        destruct ((r =? 0x2028) || (r =? 0x2029));
          rewrite ?length_append; simpl String.length; try lia. }
      destruct (Z.eqb_spec r 0x2028) as [-> | N1];
        [|destruct (Z.eqb_spec r 0x2029) as [-> | N2]]; cbn [orb] in *.
      * change (json.unquoteLoop (S f) _)
          with (json.consOpt (utf8.EncodeRune 0x2028)
                  (json.unquoteLoop f
                     (json.appendStringLoop n (drop k (String c s))))).
        rewrite IH by (rewrite !length_append in Hf; simpl in Hf; lia).
        rewrite En. reflexivity.
      * change (json.unquoteLoop (S f) _)
          with (json.consOpt (utf8.EncodeRune 0x2029)
                  (json.unquoteLoop f
                     (json.appendStringLoop n (drop k (String c s))))).
        rewrite IH by (rewrite !length_append in Hf; simpl in Hf; lia).
        rewrite En. reflexivity.
      * rewrite (unquoteLoop_rune _ _ _ _ _ _ H Hhi).
        rewrite IH by (rewrite length_append in Hf; lia).
        reflexivity.
Qed.

Lemma unquoteBytes_appendString_any (s : string) :
  json.unquoteBytes (json.appendStringLoop (String.length s) s)
  = Some (coerce s).
Proof.
  rewrite unquoteBytes_unquoteLoop.
  now apply unquoteLoop_appendStringLoop_any.
Qed.

Lemma coerce_valid (s : string) : utf8.ValidString s = true -> coerce s = s.
Proof.
  intros H. pose proof (unquoteBytes_appendString s H) as E.
  rewrite unquoteBytes_appendString_any in E. congruence.
Qed.

Lemma Unmarshal_Marshal_any (e e0 : Error) :
  int32b (Code e) = true ->
  json.Unmarshal (json.Marshal (Some e)) e0 = Some (coerced e, None).
Proof.
  intros Hc. unfold json.Unmarshal.
  rewrite scan_Marshal by now apply int32b_int64b.
  unfold json.decode. cbn [json.object].
  change (json.unquoteBytes "id") with (Some "id").
  change (json.unquoteBytes "code") with (Some "code").
  change (json.unquoteBytes "detail") with (Some "detail").
  change (json.unquoteBytes "status") with (Some "status").
  change (json.lookupField "id") with (Some json.fId).
  change (json.lookupField "code") with (Some json.fCode).
  change (json.lookupField "detail") with (Some json.fDetail).
  change (json.lookupField "status") with (Some json.fStatus).
  cbv iota. unfold json.storeField.
  rewrite !unquoteBytes_appendString_any.
  cbn [json.target json.savedError json.setString Id Code Detail Status].
  rewrite (ParseInt_FormatInt _ (int32b_int64b _ Hc)), Hc.
  cbn [json.target json.savedError json.setString Id Code Detail Status].
  reflexivity.
Qed.

(** Decoding one rune of a well-formed prefix. *)
Lemma validFrom_prefix (f : nat) (s : string) (r : Z) (n : nat) (t : string) :
  decoded s r n ->
  utf8.validFrom (S f) (take n s ++ t) = utf8.validFrom f t.
Proof.
  intros H.
  pose proof (decoded_size _ _ _ H) as [Hn Hl].
  pose proof (Decode_app _ _ _ t H) as E.
  pose proof (decoded_valid _ _ _ H) as Hi. unfold invalid in Hi.
  cbn [fst snd] in Hi.
  assert (D : drop n (take n s ++ t) = t).
  { rewrite <- Hl at 1. apply drop_app_length. }
  destruct (take n s ++ t) as [|c u] eqn:Eu.
  - destruct (take n s); [simpl in Hl; lia | discriminate].
  - cbn [utf8.validFrom]. rewrite E, Hi. now rewrite D.
Qed.

Lemma replacement_decoded :
  decoded replacement utf8.RuneError 3.
Proof.
  pose proof (decoded3 "239" "191" "189" "") as H.
  apply H. unfold seq3, cont. vm_compute. intuition discriminate.
Qed.

Lemma validFrom_coerceFrom (n : nat) (s : string) (f : nat) :
  (String.length (coerceFrom n s) <= f)%nat ->
  utf8.validFrom f (coerceFrom n s) = true.
Proof.
  revert s f; induction n as [|n IH]; intros [|c s] f Hf;
    try (now destruct f).
  cbn [coerceFrom] in *.
  destruct (Decode_cases c s) as [H | H]; cbv zeta in H.
  - apply invalid_eq in H. rewrite H in *.
    cbn [Z.eqb utf8.RuneError Pos.eqb Nat.eqb andb] in *.
    destruct f as [|f]; [simpl in Hf; lia|].
    change replacement with (take 3 replacement).
    rewrite (validFrom_prefix _ _ _ _ _ replacement_decoded).
    apply IH. simpl in Hf. lia.
  - destruct (utf8.DecodeRuneInString (String c s)) as [r k] eqn:E.
    cbn [fst snd] in H.
    pose proof (decoded_valid _ _ _ H) as Hi. unfold invalid in Hi.
    cbn [fst snd] in Hi. rewrite Hi in *.
    pose proof (decoded_size _ _ _ H) as [Hk Hl].
    destruct f as [|f]; [rewrite length_append in Hf; lia|].
    rewrite (validFrom_prefix _ _ _ _ _ H).
    apply IH. rewrite length_append in Hf. lia.
Qed.

Lemma coerce_is_valid (s : string) : utf8.ValidString (coerce s) = true.
Proof. apply validFrom_coerceFrom, Nat.le_refl. Qed.

Lemma coerce_idempotent (s : string) : coerce (coerce s) = coerce s.
Proof. apply coerce_valid, coerce_is_valid. Qed.

(** ** The text form and back, for every string *)

Lemma callError_Error (h : heap) (a : nat) (e : Error) :
  nth_error (errors h) a = Some e ->
  callError (PtrError (Some a)) h = Ok (json.Marshal (Some e)) h.
Proof. intros H. unfold callError, Error.Error. now rewrite H. Qed.

(** X20: [Parse] of the text of an [Error], whatever bytes its strings hold:
    the text always decodes, so that the detail is never the raw text;
    the code comes back as it is and each string comes back with every
    byte that is not part of a well-formed UTF-8 sequence replaced by
    U+FFFD.  A string that is valid UTF-8 comes back as it is, and what
    comes back is valid UTF-8, so that a second round trip changes
    nothing. *)
Theorem text_form_roundtrip_any (h : heap) (a : nat) (e : Error) :
  nth_error (errors h) a = Some e ->
  int32 (Code e) ->
  (text <- callError (PtrError (Some a)) ;; Parse text) h
  = Ok (Some (next h)) (extend h (coerced e))
  /\ (x <- (text <- callError (PtrError (Some a)) ;; Parse text) ;;
      text <- callError (PtrError x) ;; Parse text) h
     = Ok (Some (S (next h))) (extend (extend h (coerced e)) (coerced e))
  /\ (forall s, utf8.ValidString s = true -> coerce s = s)
  /\ (forall s, utf8.ValidString (coerce s) = true).
Proof.
  intros H Hc. apply int32_int32b in Hc.
  assert (R : forall h' b v, nth_error (errors h') b = Some v ->
                int32b (Code v) = true ->
                (text <- callError (PtrError (Some b)) ;; Parse text) h'
                = Ok (Some (next h')) (extend h' (coerced v))).
  { intros h' b v Hb Hv. unfold bind. rewrite (callError_Error _ _ _ Hb).
    apply (Parse_run _ _ _ None). now apply Unmarshal_Marshal_any. }
  repeat match goal with |- _ /\ _ => split end.
  - now apply R.
  - unfold bind at 1. rewrite (R _ _ _ H Hc).
    rewrite (R _ _ (coerced e)) by (apply nth_error_snoc || assumption).
    rewrite next_extend.
    assert (I : coerced (coerced e) = coerced e)
      by (unfold coerced; cbn [Id Code Detail Status];
          now rewrite !coerce_idempotent).
    now rewrite I.
  - apply coerce_valid.
  - apply coerce_is_valid.
Qed.

Lemma text_form_roundtrip_any_witness :
  (text <- callError ErrDatabaseOperation ;; Parse text) initial
  = Ok (Some 6%nat)
       (extend initial
          (mkError "500" 500 "database operation failed"
                   "Internal Server Error")).
Proof.
  exact (proj1 (text_form_roundtrip_any initial 4
                  (mkError "500" 500 "database operation failed"
                           "Internal Server Error")
                  eq_refl ltac:(unfold int32; cbn [Code]; lia))).
Defined.

(** X21: the copy that [Parse] makes of the text of an [Error] is classified
    as the original: it has the same code for [GetHTTPStatus] and the
    range predicates, whatever the strings hold; when the [Id] is valid
    UTF-8 it has the same [Id] and is equal to the original for [Is]. *)
Theorem parsed_copy_same_class (h : heap) (a : nat) (e : Error) :
  nth_error (errors h) a = Some e ->
  int32 (Code e) ->
  let parsed := text <- callError (PtrError (Some a)) ;;
                p <- Parse text ;; ret (PtrError p) in
  exists h',
    (x <- parsed ;; GetHTTPStatus x) h = Ok (Code e) h'
    /\ (x <- parsed ;; IsBadRequest x) h
       = Ok ((400 <=? Code e) && (Code e <? 500)) h'
    /\ (x <- parsed ;; IsServerError x) h
       = Ok ((500 <=? Code e) && (Code e <? 600)) h'
    /\ (utf8.ValidString (Id e) = true ->
        (x <- parsed ;; GetErrorID x) h = Ok (Id e) h'
        /\ (x <- parsed ;; Is x (PtrError (Some a))) h = Ok true h'
        /\ (x <- parsed ;; Is (PtrError (Some a)) x) h = Ok true h').
Proof.
  intros H Hc parsed.
  assert (R : parsed h = Ok (PtrError (Some (next h))) (extend h (coerced e))).
  { unfold parsed, bind, ret. rewrite (callError_Error _ _ _ H).
    rewrite (Parse_run _ _ (coerced e) None); [reflexivity|].
    apply Unmarshal_Marshal_any. now apply int32_int32b. }
  eexists. unfold bind. rewrite R.
  repeat match goal with |- _ /\ _ => split end.
  - now rewrite GetHTTPStatus_fresh.
  - now rewrite IsBadRequest_fresh.
  - now rewrite IsServerError_fresh.
  - intros Hv. repeat match goal with |- _ /\ _ => split end.
    + rewrite GetErrorID_fresh. cbn [coerced Id]. now rewrite coerce_valid.
    + rewrite (Is_fresh_old _ _ _ _ H). cbn [coerced Id].
      now rewrite coerce_valid, String.eqb_refl.
    + rewrite (Is_old_fresh _ _ _ _ H). cbn [coerced Id].
      now rewrite coerce_valid, String.eqb_refl.
Qed.

Lemma parsed_copy_same_class_witness :
  exists h',
    (x <- (text <- callError ErrCollateralNotFound ;;
           p <- Parse text ;; ret (PtrError p)) ;;
     GetHTTPStatus x) initial = Ok 404 h'.
Proof.
  destruct (parsed_copy_same_class initial 0
              (mkError "404" 404 "collateral not found" "Not Found")
              eq_refl ltac:(unfold int32; cbn [Code]; lia))
    as (h' & H & _).
  now exists h'.
Defined.

(** ** Transport *)

Lemma transported_run (m : M error) (h : heap) (e : Error) :
  m h = Ok (PtrError (Some (next h))) (extend h e) ->
  int32b (Code e) = true ->
  transported m h
  = Ok (PtrError (Some (S (next h)))) (extend (extend h e) (coerced e)).
Proof.
  intros Hm Hc. unfold transported, bind. rewrite Hm. cbv beta iota.
  rewrite (Error_fresh h e).
  rewrite (Parse_run _ (extend h e) _ _ (Unmarshal_Marshal_any e zero Hc)).
  unfold ret. now rewrite next_extend.
Qed.

Lemma fresh_second (h : heap) (e1 e2 : Error) :
  nth_error (errors (extend (extend h e1) e2)) (S (next h)) = Some e2.
Proof. rewrite <- (next_extend h e1). apply nth_error_snoc. Qed.

Lemma IsNotFound_404 (h : heap) (a : nat) (e : Error) :
  initialized h -> nth_error (errors h) a = Some e -> Id e = "404" ->
  exists h', IsNotFound (PtrError (Some a)) h = Ok true h'.
Proof.
  intros Hi H E. destruct (initialized_load h 0 Hi) as [v Hv]; [lia|].
  unfold IsNotFound, bind, ErrCollateralNotFound.
  rewrite (Is_Error _ _ _ _ _ H Hv).
  destruct (String.eqb (Id e) (Id v)); [now eexists|].
  rewrite NotFound_run, (Is_old_fresh _ _ _ _ H). cbn [Id].
  rewrite E. now eexists.
Qed.

Lemma IsAlreadyExists_409 (h : heap) (a : nat) (e : Error) :
  initialized h -> nth_error (errors h) a = Some e -> Id e = "409" ->
  exists h', IsAlreadyExists (PtrError (Some a)) h = Ok true h'.
Proof.
  intros Hi H E. destruct (initialized_load h 1 Hi) as [v Hv]; [lia|].
  unfold IsAlreadyExists, bind, ErrCollateralExists.
  rewrite (Is_Error _ _ _ _ _ H Hv).
  destruct (String.eqb (Id e) (Id v)); [now eexists|].
  rewrite Conflict_run, (Is_old_fresh _ _ _ _ H). cbn [Id].
  rewrite E. now eexists.
Qed.

Lemma initialized_extend (h : heap) (e : Error) :
  initialized h -> initialized (extend h e).
Proof.
  unfold initialized, extend. cbn [errors]. rewrite length_app. lia.
Qed.

Lemma transported_class (m : M error) (h : heap) (e : Error) :
  m h = Ok (PtrError (Some (next h))) (extend h e) ->
  int32b (Code e) = true ->
  let h' := extend (extend h e) (coerced e) in
  (x <- transported m ;; GetHTTPStatus x) h = Ok (Code e) h'
  /\ (x <- transported m ;; GetErrorID x) h = Ok (coerce (Id e)) h'
  /\ (x <- transported m ;; IsBadRequest x) h
     = Ok ((400 <=? Code e) && (Code e <? 500)) h'
  /\ (x <- transported m ;; IsServerError x) h
     = Ok ((500 <=? Code e) && (Code e <? 600)) h'.
Proof.
  intros Hm Hc h'. unfold bind. rewrite (transported_run _ _ _ Hm Hc).
  rewrite (GetHTTPStatus_Error _ _ _ (fresh_second _ _ _)),
    (GetErrorID_Error _ _ _ (fresh_second _ _ _)),
    (IsBadRequest_Error _ _ _ (fresh_second _ _ _)),
    (IsServerError_Error _ _ _ (fresh_second _ _ _)).
  repeat split.
Qed.

Ltac transport R a h :=
  apply Forall_cons;
  [eexists; apply (transported_class _ _ _ (R a h) eq_refl)|].

(** X22: the class of an error survives its transport as text: what [Parse]
    makes of the text of the result of a constructor has the code of the
    constructor and the decimal text of the code as [Id], and is a bad
    request or a server error as the result itself, whatever the operands;
    after [NotFound] it is recognised by [IsNotFound] and after [Conflict]
    by [IsAlreadyExists]. *)
Theorem transport_keeps_class (a : list fmt.arg) (h : heap) :
  initialized h ->
  Forall (fun '(ctor, c) =>
            exists h',
              (x <- transported (ctor a) ;; GetHTTPStatus x) h = Ok c h'
              /\ (x <- transported (ctor a) ;; GetErrorID x) h
                 = Ok (strconv.FormatInt c) h'
              /\ (x <- transported (ctor a) ;; IsBadRequest x) h
                 = Ok (c <? 500) h'
              /\ (x <- transported (ctor a) ;; IsServerError x) h
                 = Ok (500 <=? c) h')
         coded
  /\ (exists h', (x <- transported (NotFound a) ;; IsNotFound x) h
                 = Ok true h')
  /\ (exists h', (x <- transported (Conflict a) ;; IsAlreadyExists x) h
                 = Ok true h').
Proof.
  intros Hi. split; [|split].
  - unfold coded.
    transport BadRequest_run a h. transport Unauthorized_run a h.
    transport Forbidden_run a h. transport NotFound_run a h.
    transport MethodNotAllowed_run a h. transport Timeout_run a h.
    transport Conflict_run a h. transport InternalServerError_run a h.
    transport ServiceUnavailable_run a h. transport GatewayTimeout_run a h.
    apply Forall_nil.
  - unfold bind at 1.
    rewrite (transported_run _ _ _ (NotFound_run a h) eq_refl).
    apply (IsNotFound_404 _ _ _
             (initialized_extend _ _ (initialized_extend _ _ Hi))
             (fresh_second _ _ _)).
    reflexivity.
  - unfold bind at 1.
    rewrite (transported_run _ _ _ (Conflict_run a h) eq_refl).
    apply (IsAlreadyExists_409 _ _ _
             (initialized_extend _ _ (initialized_extend _ _ Hi))
             (fresh_second _ _ _)).
    reflexivity.
Qed.

Lemma transport_keeps_class_witness :
  exists h',
    (x <- transported (NotFound [fmt.Str "order"; fmt.Int 7]) ;;
     IsNotFound x) initial = Ok true h'.
Proof.
  exact (proj1 (proj2 (transport_keeps_class [fmt.Str "order"; fmt.Int 7]
                         initial initialized_initial))).
Defined.

(** ** The length of the text form *)




(** ** The text form of plain strings *)

Lemma appendStringLoop_safe (n : nat) (s : string) :
  allSafe s = true -> (String.length s <= n)%nat ->
  json.appendStringLoop n s = s.
Proof.
  revert s; induction n as [|n IH]; intros [|c s] Hs Hn;
    cbn [String.length allSafe] in *; try reflexivity; try lia.
  apply andb_prop in Hs as [Hc Hs].
  cbn [json.appendStringLoop]. rewrite Hc.
  assert (Hlo : (byte c <? utf8.RuneSelf) = true).
  { unfold json.htmlSafeSet in Hc. repeat (apply andb_prop in Hc as [Hc ?]).
    assumption. }
  rewrite Hlo. rewrite IH by (assumption || lia). reflexivity.
Qed.

Lemma StatusText_safe (c : Z) : allSafe (http.StatusText c) = true.
Proof.
  unfold http.StatusText.
  destruct (find _ http.statusText) as [kv|] eqn:F; [|reflexivity].
  apply find_some in F as [Hin _].
  assert (H : forallb (fun kv => allSafe (snd kv)) http.statusText = true)
    by (vm_compute; reflexivity).
  rewrite forallb_forall in H. now apply H.
Qed.

(** X24: the text of an [Error] is one JSON object with the members [id],
    [code], [detail] and [status], in this order and without white space.
    The code is written in decimal; a string made of ASCII bytes from the
    space on, other than the double quote, the backslash, [<], [>] and
    [&], is written between double quotes as it is.  The status of an
    error made by [New] is always such a string. *)
Theorem text_form_of_safe_strings (h : heap) (i d : string) (c : Z) :
  allSafe i = true -> allSafe d = true ->
  (x <- New i d c ;; callError x) h
  = Ok ("{" ++ String q "id" ++ String q ":" ++ String q i ++ String q ","
            ++ String q "code" ++ String q ":" ++ strconv.FormatInt c ++ ","
            ++ String q "detail" ++ String q ":" ++ String q d ++ String q ","
            ++ String q "status" ++ String q ":"
            ++ String q (http.StatusText c) ++ String q "}")
       (extend h (mkError i c d (http.StatusText c))).
Proof.
  intros Hi Hd. unfold bind. rewrite New_run, Error_fresh.
  rewrite Marshal_objectText. cbn [Id Code Detail Status].
  rewrite !appendStringLoop_safe
    by (assumption || apply StatusText_safe || apply Nat.le_refl).
  reflexivity.
Qed.

Lemma text_form_of_safe_strings_witness :
  (x <- New "ORDER" "no such order" 404 ;; callError x) empty
  = Ok ("{" ++ String q "id" ++ String q ":" ++ String q "ORDER"
            ++ String q "," ++ String q "code" ++ String q ":404,"
            ++ String q "detail" ++ String q ":"
            ++ String q "no such order" ++ String q ","
            ++ String q "status" ++ String q ":"
            ++ String q "Not Found" ++ String q "}")
       (extend empty (mkError "ORDER" 404 "no such order" "Not Found")).
Proof.
  exact (text_form_of_safe_strings empty "ORDER" "no such order" 404
           eq_refl eq_refl).
Defined.

(** ** The status follows the code *)

Lemma consistent_extend (h : heap) (e : Error) :
  consistent h -> inSync e -> consistent (extend h e).
Proof.
  intros Hh He. unfold consistent, extend. cbn [errors].
  apply Forall_app. split; [assumption | now constructor].
Qed.

Lemma consistent_nth (h : heap) (a : nat) (e : Error) :
  consistent h -> nth_error (errors h) a = Some e -> inSync e.
Proof.
  intros Hh H. unfold consistent in Hh. rewrite Forall_forall in Hh.
  apply Hh. now apply nth_error_In in H.
Qed.

Lemma keeps_New (i d : string) (c : Z) : keeps consistent (New i d c).
Proof.
  intros h a h' Hh E. rewrite New_run in E. inversion E; subst.
  now apply consistent_extend.
Qed.

Lemma keeps_constructors (a : list fmt.arg) :
  Forall (fun ctor => keeps consistent (ctor a)) constructors.
Proof.
  unfold constructors.
  repeat (apply Forall_cons;
    [intros h x h' Hh E;
     first [ rewrite BadRequest_run in E | rewrite Unauthorized_run in E
           | rewrite Forbidden_run in E | rewrite NotFound_run in E
           | rewrite MethodNotAllowed_run in E | rewrite Timeout_run in E
           | rewrite Conflict_run in E | rewrite InternalServerError_run in E
           | rewrite ServiceUnavailable_run in E
           | rewrite GatewayTimeout_run in E ];
     inversion E; subst; apply (consistent_extend h _ Hh); reflexivity|]).
  apply Forall_nil.
Qed.

Lemma keeps_Wrap (err : error) (m : string) : keeps consistent (Wrap err m).
Proof.
  intros h x h' Hh E. destruct err as [|[a|]|text].
  - rewrite Wrap_nil_run in E. inversion E; subst.
    now apply consistent_extend.
  - destruct (nth_error (errors h) a) as [e|] eqn:Ha.
    + rewrite (Wrap_Error _ _ _ _ Ha) in E. inversion E; subst.
      apply consistent_extend; [assumption|].
      apply (consistent_nth _ _ _ Hh Ha).
    + unfold Wrap, bind, load in E. now rewrite Ha in E.
  - discriminate E.
  - rewrite Wrap_foreign_run in E. inversion E; subst.
    now apply consistent_extend.
Qed.

Lemma keeps_WithDetail (err : error) (d : string) :
  keeps consistent (WithDetail err d).
Proof.
  intros h x h' Hh E. destruct err as [|[a|]|text].
  - apply (keeps_New _ _ _ _ _ _ Hh E).
  - destruct (nth_error (errors h) a) as [e|] eqn:Ha.
    + rewrite (WithDetail_Error _ _ _ _ Ha) in E. inversion E; subst.
      apply consistent_extend; [assumption|].
      apply (consistent_nth _ _ _ Hh Ha).
    + unfold WithDetail, bind, load in E. now rewrite Ha in E.
  - discriminate E.
  - apply (keeps_New _ _ _ _ _ _ Hh E).
Qed.

Lemma keeps_IsNotFound (err : error) : keeps consistent (IsNotFound err).
Proof.
  unfold IsNotFound. apply keeps_bind; [apply keeps_readOnly, readOnly_Is|].
  intros [|]; [apply keeps_readOnly, readOnly_ret|].
  apply keeps_bind; [|intro; apply keeps_readOnly, readOnly_Is].
  pose proof (keeps_constructors [fmt.Str ""]) as F.
  rewrite Forall_forall in F. apply F. unfold constructors. simpl. tauto.
Qed.

Lemma keeps_IsAlreadyExists (err : error) :
  keeps consistent (IsAlreadyExists err).
Proof.
  unfold IsAlreadyExists.
  apply keeps_bind; [apply keeps_readOnly, readOnly_Is|].
  intros [|]; [apply keeps_readOnly, readOnly_ret|].
  apply keeps_bind; [|intro; apply keeps_readOnly, readOnly_Is].
  pose proof (keeps_constructors [fmt.Str ""]) as F.
  rewrite Forall_forall in F. apply F. unfold constructors. simpl. tauto.
Qed.

Lemma keeps_Build (b : ptr) : keeps consistent (ErrorBuilder.Build b).
Proof.
  unfold ErrorBuilder.Build.
  apply keeps_bind; [apply keeps_readOnly, readOnly_loadBuilder|].
  intro. apply keeps_New.
Qed.

Lemma consistent_initial : consistent initial.
Proof. unfold consistent. repeat constructor. Qed.

(** X25: the status stays the text of the table for the code: when every
    [Error] of the heap has the status of its code, this still holds after
    [New], after each constructor, after [Wrap] and [WithDetail] on every
    error, after the domain predicates and after [Build].  [Parse] is the
    exception: it stores the members it reads, and an object with a code
    and no status gives an [Error] with that code and an empty status. *)
Theorem status_follows_code :
  (forall i d c, keeps consistent (New i d c))
  /\ (forall a, Forall (fun ctor => keeps consistent (ctor a)) constructors)
  /\ (forall err m, keeps consistent (Wrap err m))
  /\ (forall err d, keeps consistent (WithDetail err d))
  /\ (forall err, keeps consistent (IsNotFound err))
  /\ (forall err, keeps consistent (IsAlreadyExists err))
  /\ (forall b, keeps consistent (ErrorBuilder.Build b))
  /\ consistent initial
  /\ (forall h, Parse (codeOnly "404") h
                = Ok (Some (next h)) (extend h (mkError "" 404 "" ""))
                /\ ~ consistent (extend h (mkError "" 404 "" ""))).
Proof.
  repeat match goal with |- _ /\ _ => split end.
  - apply keeps_New.
  - apply keeps_constructors.
  - apply keeps_Wrap.
  - apply keeps_WithDetail.
  - apply keeps_IsNotFound.
  - apply keeps_IsAlreadyExists.
  - apply keeps_Build.
  - apply consistent_initial.
  - intros h. split.
    + apply (Parse_run _ _ (mkError "" 404 "" "") None). reflexivity.
    + intros C. unfold consistent, extend in C. cbn [errors] in C.
      apply Forall_app in C as [_ C]. apply Forall_inv in C. discriminate C.
Qed.

Lemma status_follows_code_witness :
  consistent (extend initial (mkError "X" 418 "teapot" "I'm a teapot")).
Proof.
  exact (proj1 status_follows_code "X" "teapot" 418 initial
           (PtrError (Some 6%nat)) _ consistent_initial eq_refl).
Defined.

(** ** Parse returns *)

(** X26: [Parse] returns on every text, and never the nil pointer: it
    allocates one [Error] and changes no other.  Either the text has been
    decoded and the [Error] holds what the decoder stored in the zero
    value, or its detail is the text.  The texts [null] and [{}] are
    decoded and store nothing: the result is the zero value, with an empty
    detail. *)
Theorem Parse_always_returns (text : string) (h : heap) :
  (exists e,
     Parse text h = Ok (Some (next h)) (extend h e)
     /\ (json.Unmarshal text zero = Some (e, None) \/ Detail e = text))
  /\ Parse "null" h = Ok (Some (next h)) (extend h zero)
  /\ Parse "{}" h = Ok (Some (next h)) (extend h zero).
Proof.
  split; [|split].
  - destruct (Unmarshal_total text zero) as (v & [err|] & H).
    + eexists. split; [apply (Parse_run _ _ _ _ H)|]. now right.
    + exists v. split; [apply (Parse_run _ _ _ _ H)|]. now left.
  - apply (Parse_run _ _ zero None). reflexivity.
  - apply (Parse_run _ _ zero None). reflexivity.
Qed.

(** ** Texts that are no object *)

Lemma Parse_notAnObject (text : string) (h : heap) :
  notAnObject text ->
  exists e, Parse text h = Ok (Some (next h)) (extend h e)
            /\ Id e = "" /\ Code e = 0 /\ Status e = ""
            /\ (Detail e = text \/ Detail e = "").
Proof.
  intros N. destruct (Unmarshal_total text zero) as (v & errr & H).
  pose proof (Unmarshal_not_object _ _ _ H N) as ->.
  eexists. split; [apply (Parse_run _ _ _ _ H)|].
  destruct errr; cbn [Id Code Status Detail zero]; auto.
Qed.

(** X27: a text that is no JSON object gives an [Error] without a class:
    [GetHTTPStatus] returns 0 on what [Parse] makes of it and [GetErrorID]
    the empty string, it is neither a bad request nor a server error, and
    any two such errors are equal for [Is], whatever their texts. *)
Theorem unparsable_text_has_no_class (h : heap) (t1 t2 : string) :
  notAnObject t1 -> notAnObject t2 ->
  exists h1 h2,
    (p <- Parse t1 ;; GetHTTPStatus (PtrError p)) h = Ok 0 h1
    /\ (p <- Parse t1 ;; GetErrorID (PtrError p)) h = Ok "" h1
    /\ (p <- Parse t1 ;; IsBadRequest (PtrError p)) h = Ok false h1
    /\ (p <- Parse t1 ;; IsServerError (PtrError p)) h = Ok false h1
    /\ (p1 <- Parse t1 ;; p2 <- Parse t2 ;;
        Is (PtrError p1) (PtrError p2)) h = Ok true h2.
Proof.
  intros N1 N2.
  destruct (Parse_notAnObject t1 h N1) as (e1 & P1 & I1 & C1 & _).
  destruct (Parse_notAnObject t2 (extend h e1) N2) as (e2 & P2 & I2 & _).
  eexists _, _. unfold bind. rewrite P1, P2.
  rewrite GetHTTPStatus_fresh, GetErrorID_fresh, IsBadRequest_fresh,
    IsServerError_fresh, Is_fresh_fresh, I1, I2, C1.
  repeat split.
Qed.

Lemma unparsable_text_has_no_class_witness :
  exists h1,
    (p <- Parse "connection refused" ;; GetHTTPStatus (PtrError p)) initial
    = Ok 0 h1.
Proof.
  destruct (unparsable_text_has_no_class initial "connection refused"
              "[1]" I eq_refl) as (h1 & h2 & H & _).
  now exists h1.
Defined.

(** ** No control character in the text form *)

Lemma allClean_app (s t : string) :
  allClean (s ++ t) = allClean s && allClean t.
Proof.
  induction s as [|c s IH]; simpl; [reflexivity|].
  now rewrite IH, andb_assoc.
Qed.

Lemma clean_high (c : ascii) : 0x80 <= byte c -> clean c = true.
Proof.
  intros H. unfold clean.
  destruct (Ascii.eqb_spec c "<") as [-> | _];
    [change (byte "<") with 60 in H; lia|].
  destruct (Ascii.eqb_spec c ">") as [-> | _];
    [change (byte ">") with 62 in H; lia|].
  destruct (Ascii.eqb_spec c "&") as [-> | _];
    [change (byte "&") with 38 in H; lia|].
  destruct (Z.leb_spec 0x20 (byte c)); [reflexivity | lia].
Qed.

Lemma clean_safe (c : ascii) :
  json.htmlSafeSet (byte c) = true -> clean c = true.
Proof.
  destruct c as [[] [] [] [] [] [] [] []]; intros H; vm_compute in H;
    try discriminate H; reflexivity.
Qed.

Lemma clean_escapeByte (c : ascii) : allClean (json.escapeByte c) = true.
Proof. destruct c as [[] [] [] [] [] [] [] []]; reflexivity. Qed.

Lemma clean_digit (c : ascii) : json.isDigit c = true -> clean c = true.
Proof.
  intros H. apply isDigit_cases in H. simpl in H.
  repeat (destruct H as [<- | H]; [reflexivity|]). contradiction.
Qed.

Lemma allClean_digits (s : string) : allDigits s = true -> allClean s = true.
Proof.
  induction s as [|c s IH]; simpl; [reflexivity|].
  intros H. apply andb_prop in H as [Hc Hs].
  now rewrite (clean_digit _ Hc), IH.
Qed.

Lemma allClean_FormatInt (i : Z) : allClean (strconv.FormatInt i) = true.
Proof.
  unfold strconv.FormatInt. destruct (Z.ltb_spec i 0).
  - cbn [allClean]. rewrite allClean_digits; [reflexivity|].
    apply formatBits_digits. lia.
  - apply allClean_digits, formatBits_digits. assumption.
Qed.

Lemma decoded_clean (c0 : ascii) (s : string) (r : Z) (n : nat) :
  decoded (String c0 s) r n -> 0x80 <= byte c0 ->
  allClean (take n (String c0 s)) = true.
Proof.
  intros H H0. inversion H as [c s' Hc | c c1 s' Hc | c c1 c2 s' Hc
                             | c c1 c2 c3 s' Hc]; subst;
    unfold seq2, seq3, seq4, cont in Hc; cbn [take allClean];
    rewrite ?clean_high by lia; reflexivity.
Qed.

Lemma allClean_appendStringLoop (n : nat) (s : string) :
  allClean (json.appendStringLoop n s) = true.
Proof.
  revert s; induction n as [|n IH]; intros [|c s]; try reflexivity.
  cbn [json.appendStringLoop].
  destruct (Z.ltb_spec (byte c) utf8.RuneSelf) as [Hlo | Hhi].
  - destruct (json.htmlSafeSet (byte c)) eqn:Hs.
    + cbn [allClean]. now rewrite (clean_safe _ Hs), IH.
    + now rewrite allClean_app, clean_escapeByte, IH.
  - rewrite Decode_take4.
    destruct (Decode_cases c s) as [H | H]; cbv zeta in H.
    + apply invalid_eq in H. rewrite H.
      cbn [Z.eqb utf8.RuneError Pos.eqb Nat.eqb andb].
      now rewrite allClean_app, IH.
    + destruct (utf8.DecodeRuneInString (String c s)) as [r k] eqn:E.
      cbn [fst snd] in H.
      pose proof (decoded_valid _ _ _ H) as Hv. unfold invalid in Hv.
      cbn [fst snd] in Hv. rewrite Hv.
      destruct (Z.eqb_spec r 0x2028) as [-> | N1];
        [|destruct (Z.eqb_spec r 0x2029) as [-> | N2]]; cbn [orb].
      * now rewrite !allClean_app, IH.
      * now rewrite !allClean_app, IH.
      * rewrite allClean_app, IH.
        rewrite (decoded_clean _ _ _ _ H)
          by (unfold utf8.RuneSelf in Hhi; lia).
        reflexivity.
Qed.

Lemma allClean_Marshal (e : option Error) : allClean (json.Marshal e) = true.
Proof.
  destruct e as [e|]; [|reflexivity].
  rewrite Marshal_objectText. unfold objectText.
  repeat progress (rewrite ?allClean_app; cbn [allClean]).
  rewrite !allClean_appendStringLoop, allClean_FormatInt. reflexivity.
Qed.

(** X28: the text of an error holds no control character and none of
    [<], [>] and [&], whatever bytes the strings of the [Error] hold: the
    encoder writes these bytes as escapes.  The same holds for the text
    [null] of the nil pointer. *)
Theorem text_form_is_clean (h : heap) (p : ptr) (text : string) (h' : heap) :
  callError (PtrError p) h = Ok text h' -> allClean text = true.
Proof.
  intros E. unfold callError, Error.Error in E.
  destruct p as [a|].
  - destruct (nth_error (errors h) a) as [e|]; [|discriminate E].
    assert (T : text = json.Marshal (Some e)) by congruence.
    rewrite T. apply allClean_Marshal.
  - assert (T : text = json.Marshal None) by congruence.
    now rewrite T.
Qed.

Lemma text_form_is_clean_witness :
  allClean (json.Marshal
              (Some (mkError "<i>" 400 (String "010" "a&b") "Bad Request")))
  = true.
Proof.
  exact (text_form_is_clean
           (extend empty (mkError "<i>" 400 (String "010" "a&b") "Bad Request"))
           (Some 0%nat) _ _ eq_refl).
Defined.
